(** * AltDump: capture, persistence and retrieval engine

    A shallow embedding of the engine of the AltDump "dump vault":

    - [Js]       the few JavaScript string primitives the engine relies on;
    - [Json]     [electron/storage.cjs], the store the main process loads
                 ([items.json] + [embeddings.json] + blobs in the vault);
    - [Sqlite]   the better-sqlite3 variant of the same store;
    - [Ids]      the ids that [uuidv4] hands out to the captures;
    - [Overlay]  the Alt+D chord listener and overlay state machine of the
                 main process;
    - [Background]  the callbacks that the JSON store queues for metadata
                 extraction and enrichment;
    - [Ipc]      the validate-file and save-file handlers of the main process;
    - [Preload]  the drag tracker of the preload script.

    Conventions.  A JavaScript string is a [string] whose characters are
    UTF-16 code units below 256.  A JavaScript number is a rational ([Q]):
    sums, products and quotients are exact, where the source rounds them
    to double precision; what is stated of the ranking is stated with a
    margin, or of items that compare the same way in every component of
    the score, so that it holds of the rounded scores too.  A plain object used as a
    dictionary is a [gmap string _]; item ids are UUIDs, so the inherited
    key [__proto__] never occurs as an id.  File-system calls succeed unless
    the source itself tests for the failure (a missing file).  What the host
    supplies (path handling, SHA-256, the clock, fresh UUIDs, the local
    calendar) is a parameter of the definitions. *)

From Stdlib Require Import Ascii String QArith Qminmax.
From stdpp Require Import gmap strings list sorting.

Local Open Scope string_scope.

(** ** JavaScript strings *)

Module Js.

(** [String.prototype.toLowerCase] on code units below 256: A-Z and the
    Latin-1 capitals U+00C0..U+00DE (the sign U+00D7 apart) move up by 32. *)
Definition lowerChar (c : ascii) : ascii :=
  let n := N_of_ascii c in
  if ((65 <=? n) && (n <=? 90) ||
      (192 <=? n) && (n <=? 222) && negb (n =? 215))%N
  then ascii_of_N (n + 32) else c.

Fixpoint toLowerCase (s : string) : string :=
  match s with
  | EmptyString => EmptyString
  | String c s' => String (lowerChar c) (toLowerCase s')
  end.

(** The class [\s] of regular expressions, which is also what [trim]
    strips: TAB, LF, VT, FF, CR, SPACE and NBSP. *)
Definition isSpace (c : ascii) : bool :=
  let n := N_of_ascii c in
  ((9 <=? n) && (n <=? 13) || (n =? 32) || (n =? 160))%N.

Definition startsWithSpace (s : string) : bool :=
  match s with
  | EmptyString => false
  | String c _ => isSpace c
  end.

(** [s.split(/\s+/)]: the pieces between maximal runs of white space; a
    leading or trailing run yields an empty piece, and the empty string
    yields one empty piece. *)
Fixpoint split_ws (s : string) : list string :=
  match s with
  | EmptyString => [EmptyString]
  | String c s' =>
      match split_ws s' with
      | [] => [String c EmptyString]
      | t :: ts =>
          if isSpace c
          then (if startsWithSpace s' then t :: ts else EmptyString :: t :: ts)
          else String c t :: ts
      end
  end.

Fixpoint trimStart (s : string) : string :=
  match s with
  | EmptyString => EmptyString
  | String c s' => if isSpace c then trimStart s' else s
  end.

Fixpoint allSpace (s : string) : bool :=
  match s with
  | EmptyString => true
  | String c s' => isSpace c && allSpace s'
  end.

Fixpoint trimEnd (s : string) : string :=
  match s with
  | EmptyString => EmptyString
  | String c s' => if allSpace s then EmptyString else String c (trimEnd s')
  end.

Definition trim (s : string) : string := trimEnd (trimStart s).

Fixpoint startsWith (p s : string) : bool :=
  match p, s with
  | EmptyString, _ => true
  | String a p', String b s' => Ascii.eqb a b && startsWith p' s'
  | String _ _, EmptyString => false
  end.

Fixpoint endsWith (p s : string) : bool :=
  String.eqb p s ||
  match s with
  | EmptyString => false
  | String _ s' => endsWith p s'
  end.

Fixpoint includes (p s : string) : bool :=
  startsWith p s ||
  match s with
  | EmptyString => false
  | String _ s' => includes p s'
  end.

Fixpoint drop (n : nat) (s : string) : string :=
  match n, s with
  | O, _ => s
  | S n', String _ s' => drop n' s'
  | S _, EmptyString => EmptyString
  end.

Fixpoint take (n : nat) (s : string) : string :=
  match n, s with
  | S n', String c s' => String c (take n' s')
  | _, _ => EmptyString
  end.

(** [s.replace(p, '')] with a string pattern: the first occurrence goes. *)
Fixpoint removeFirst (p s : string) : string :=
  if startsWith p s then drop (String.length p) s
  else match s with
       | EmptyString => EmptyString
       | String c s' => String c (removeFirst p s')
       end.

(** Number of characters of [s] that satisfy [f]: [(s.match(/[..]/g) || []).length]. *)
Fixpoint countChars (f : ascii -> bool) (s : string) : nat :=
  match s with
  | EmptyString => 0
  | String c s' => (if f c then 1 else 0) + countChars f s'
  end.

(** Number of non-overlapping occurrences of a non-empty pattern,
    scanning from the left: [(s.match(/p/g) || []).length]. *)
Fixpoint countOccFrom (skip : nat) (p s : string) : nat :=
  match s with
  | EmptyString => 0
  | String _ s' =>
      match skip with
      | S k => countOccFrom k p s'
      | O => if startsWith p s
             then S (countOccFrom (Nat.pred (String.length p)) p s')
             else countOccFrom O p s'
      end
  end.

(** The text up to the first line feed: [s.split('\n')[0]]. *)
Fixpoint firstLine (s : string) : string :=
  match s with
  | EmptyString => EmptyString
  | String c s' => if (N_of_ascii c =? 10)%N then EmptyString else String c (firstLine s')
  end.

(** [\w] of regular expressions. *)
Definition isWordChar (c : ascii) : bool :=
  let n := N_of_ascii c in
  ((48 <=? n) && (n <=? 57) || (65 <=? n) && (n <=? 90) ||
   (97 <=? n) && (n <=? 122) || (n =? 95))%N.

(** The assertion [\b] between a character (if any) and the text that
    follows it. *)
Definition wordBoundary (prev : bool) (s : string) : bool :=
  xorb prev (match s with EmptyString => false | String c _ => isWordChar c end).

Fixpoint lastIsWord (s : string) : bool :=
  match s with
  | EmptyString => false
  | String c EmptyString => isWordChar c
  | String _ s' => lastIsWord s'
  end.

(** Length of the match of [\b(a1|a2|...)\b] at the head of [s], the
    alternatives tried from the left. *)
Fixpoint matchAlt (alts : list string) (prev : bool) (s : string) : option nat :=
  match alts with
  | [] => None
  | a :: alts' =>
      if wordBoundary prev s && startsWith a s &&
         wordBoundary (lastIsWord a) (drop (String.length a) s)
      then Some (String.length a)
      else matchAlt alts' prev s
  end.

(** [s.replace(/\b(a1|a2|...)\b/g, '')] for non-empty alternatives;
    [skip] counts the characters of the current match still to drop. *)
Fixpoint removeAllAlt (alts : list string) (prev : bool) (skip : nat) (s : string) : string :=
  match s with
  | EmptyString => EmptyString
  | String c s' =>
      match skip with
      | S k => removeAllAlt alts (isWordChar c) k s'
      | O =>
          match matchAlt alts prev s with
          | Some (S k) => removeAllAlt alts (isWordChar c) k s'
          | _ => String c (removeAllAlt alts (isWordChar c) O s')
          end
      end
  end.

(** The one-character string made of a double quote. *)
Definition dquote : string := String (ascii_of_nat 34) EmptyString.

End Js.

(** ** Results of fallible calls: a value, or the message of the thrown [Error] *)

Inductive Result (A : Type) : Type :=
| Ok (a : A)
| Err (msg : string).
Arguments Ok {A} a.
Arguments Err {A} msg.

(** ** A stable sort in descending order of a rational key

    [Array.prototype.sort] with the comparator [(a, b) => key(b) - key(a)]
    is stable, so its result is the only arrangement of the array that is
    in descending key order and keeps equal keys in their original order;
    insertion from the right computes that arrangement.  (The keys of the
    source are doubles: two keys that are equal here may differ there in
    the last place, and the other way round.) *)

Section SortDesc.
Context {A : Type} (key : A -> Q).

Fixpoint insertDesc (x : A) (l : list A) : list A :=
  match l with
  | [] => [x]
  | y :: l' => if Qle_bool (key y) (key x) then x :: y :: l'
               else y :: insertDesc x l'
  end.

Definition sortDesc (l : list A) : list A := foldr insertDesc [] l.
End SortDesc.

(** ** What the host supplies

    [path.extname], [path.basename], the SHA-256 hex digest of a byte
    string and [path.join(VAULT_DIR, name)] belong to Node, not to the
    engine; every definition below works for any of them. *)

Class Host := {
  extname : string -> string;
  basename : string -> string;
  sha256 : string -> string;
  vaultFile : string -> string;
}.

(** A date as the index files hold it, seen through
    [new Date(str).getTime()]: an instant in milliseconds, or [NaN]. *)
Inductive DateString :=
| DateAt (ms : Z)
| NotADate.

(** The four ranges that [parseSearchIntent] derives from the local
    calendar at the time of the call, each as [(start, end)] in
    milliseconds. *)
Record Calendar := {
  todayRange : Z * Z;
  yesterdayRange : Z * Z;
  lastWeekRange : Z * Z;
  lastMonthRange : Z * Z;
}.

(** ** The item model shared by both stores *)

Inductive ItemType := TText | TImage | TFile | TLink.

Inductive Category :=
| Ideas | Links | Code | Notes | Images | Documents | Videos | Csv.

#[global] Instance ItemType_eq_dec : EqDecision ItemType.
Proof. solve_decision. Defined.
#[global] Instance Category_eq_dec : EqDecision Category.
Proof. solve_decision. Defined.
#[global] Instance DateString_eq_dec : EqDecision DateString.
Proof. solve_decision. Defined.

Record Metadata := {
  meta_size : option nat;
  mimeType : option string;
  filename : option string;
  url : option string;
  pageTitle : option string;
  extractedText : option string;
  createdAt : option DateString;
  meta_source : option string;
}.

(** [item_path] and [timestamp] are the fields of the records written by
    earlier versions of the store (the "legacy" items of the source). *)
Record Item := {
  item_id : string;
  item_type : ItemType;
  title : string;
  category : Category;
  content : option string;
  hash : option string;
  storagePath : option string;
  searchableText : string;
  metadata : Metadata;
  item_path : option string;
  timestamp : option DateString;
}.

(** [x || y] on values that are absent, or strings (the empty one is falsy). *)
Definition orElse (x : option string) (y : string) : string :=
  match x with
  | Some s => if String.eqb s EmptyString then y else s
  | None => y
  end.

(** ** Validation and categorisation (the same text in both stores) *)

Section Validation.
Context {host : Host}.

Definition FILE_TYPE_MAP : list (string * Category) :=
  [ (".png", Images); (".jpg", Images); (".jpeg", Images); (".gif", Images);
    (".webp", Images); (".bmp", Images); (".svg", Images); (".ico", Images);
    (".pdf", Documents); (".doc", Documents); (".docx", Documents);
    (".txt", Documents); (".rtf", Documents); (".tex", Documents);
    (".mp4", Videos); (".mkv", Videos); (".webm", Videos);
    (".avi", Videos); (".mov", Videos);
    (".csv", Csv); (".tsv", Csv) ].

Definition AUDIO_TYPES : list string :=
  [".mp3"; ".wav"; ".flac"; ".aac"; ".wma"; ".m4a"; ".ogg"; ".opus"].
Definition EXECUTABLE_TYPES : list string :=
  [".exe"; ".msi"; ".bat"; ".cmd"; ".com"; ".scr"; ".vbs"; ".ps1";
   ".apk"; ".app"; ".deb"; ".rpm"].
Definition ARCHIVE_TYPES : list string :=
  [".zip"; ".rar"; ".7z"; ".tar"; ".gz"; ".bz2"; ".iso"; ".dmg"].
Definition SYSTEM_TYPES : list string :=
  [".sys"; ".dll"; ".so"; ".dylib"; ".icns"; ".jar"; ".class"; ".pyc"].

Definition REJECTED_TYPES : list string :=
  AUDIO_TYPES ++ EXECUTABLE_TYPES ++ ARCHIVE_TYPES ++ SYSTEM_TYPES.

(** [list.includes(ext)] *)
Definition listIncludes (l : list string) (x : string) : bool :=
  existsb (String.eqb x) l.

Fixpoint mapLookup {V} (m : list (string * V)) (k : string) : option V :=
  match m with
  | [] => None
  | (k', v) :: m' => if String.eqb k' k then Some v else mapLookup m' k
  end.

Definition isRejectedFile (filePath : string) : bool :=
  let ext := Js.toLowerCase (extname filePath) in
  listIncludes REJECTED_TYPES ext.

Definition getRejectionReason (filePath : string) : string :=
  let ext := Js.toLowerCase (extname filePath) in
  if String.eqb ext EmptyString then "File has no extension"
  else if listIncludes AUDIO_TYPES ext then "Audio files not supported"
  else if listIncludes EXECUTABLE_TYPES ext then "Executable files not allowed"
  else if listIncludes ARCHIVE_TYPES ext then "Archive files not supported"
  else if listIncludes (SYSTEM_TYPES ++ [".o"]) ext then "System files not supported"
  else "File type not supported".

Definition detectCategoryFromFile (filePath : string) : Category :=
  let ext := Js.toLowerCase (extname filePath) in
  default Documents (mapLookup FILE_TYPE_MAP ext).

Definition mimeTypes : list (string * string) :=
  [ (".png", "image/png"); (".jpg", "image/jpeg"); (".jpeg", "image/jpeg");
    (".gif", "image/gif"); (".webp", "image/webp"); (".bmp", "image/bmp");
    (".svg", "image/svg+xml"); (".pdf", "application/pdf");
    (".doc", "application/msword");
    (".docx", "application/vnd.openxmlformats-officedocument.wordprocessingml.document");
    (".txt", "text/plain"); (".csv", "text/csv"); (".mp4", "video/mp4");
    (".mkv", "video/x-matroska"); (".webm", "video/webm");
    (".avi", "video/x-msvideo"); (".mov", "video/quicktime") ].

Definition getMimeType (filePath : string) : string :=
  let ext := Js.toLowerCase (extname filePath) in
  default "application/octet-stream" (mapLookup mimeTypes ext).
End Validation.

(** [/^(https?:\/\/|www\.)\S+/i.test(text.trim())] *)
Definition nonSpaceAt (n : nat) (s : string) : bool :=
  match Js.drop n s with
  | EmptyString => false
  | String c _ => negb (Js.isSpace c)
  end.

Definition isURLContent (text : string) : bool :=
  let t := Js.trim text in
  let l := Js.toLowerCase t in
  Js.startsWith "http://" l && nonSpaceAt 7 t
  || Js.startsWith "https://" l && nonSpaceAt 8 t
  || Js.startsWith "www." l && nonSpaceAt 4 t.

Definition codeKeywords : list string :=
  [ "function "; "const "; "let "; "var "; "class "; "import "; "export ";
    "require("; "ipcmain."; "ipcrenderer."; "async "; "await "; "public ";
    "private "; "def "; "#include" ].

Definition detectCategoryFromText (text : string) : Category :=
  let trimmed := Js.trim text in
  if isURLContent trimmed then Links
  else
    let lower := Js.toLowerCase trimmed in
    if existsb (fun kw => Js.includes kw lower) codeKeywords then Code
    else
      let semiCount := Js.countChars (Ascii.eqb ";") trimmed in
      let braceCount :=
        Js.countChars (fun c => Ascii.eqb c "{" || Ascii.eqb c "}") trimmed in
      let arrowCount := Js.countOccFrom 0 "=>" trimmed in
      if (3 <=? semiCount + braceCount + arrowCount)%nat then Code
      else if (500 <? String.length trimmed)%nat then Notes
      else Ideas.

Definition generateTextTitle (text : string) : string :=
  let trimmed := Js.trim text in
  if isURLContent trimmed then
    "Link: " +:+ Js.take 50 trimmed +:+
    (if (50 <? String.length trimmed)%nat then "..." else EmptyString)
  else
    let firstLine := Js.trim (Js.firstLine trimmed) in
    if (50 <? String.length firstLine)%nat then Js.take 47 firstLine +:+ "..."
    else if String.eqb firstLine EmptyString then "Untitled" else firstLine.

(** [createTextItem] and [createLinkItem]; [uuid] is the value of
    [uuidv4()] and [now] the reading of the clock. *)
Definition createTextItem (uuid : string) (now : Z) (text : string) : Item :=
  {| item_id := uuid;
     item_type := TText;
     title := generateTextTitle text;
     category := detectCategoryFromText text;
     content := Some text;
     hash := None;
     storagePath := None;
     searchableText := Js.toLowerCase text;
     metadata := {| meta_size := None; mimeType := None; filename := None;
                    url := None; pageTitle := None; extractedText := None;
                    createdAt := Some (DateAt now);
                    meta_source := Some "overlay" |};
     item_path := None;
     timestamp := None |}.

Definition createLinkItem (uuid : string) (now : Z)
    (link : string) (linkTitle : option string) : Item :=
  let cleanUrl := Js.trim link in
  {| item_id := uuid;
     item_type := TLink;
     title := orElse linkTitle cleanUrl;
     category := Links;
     content := None;
     hash := None;
     storagePath := None;
     searchableText := Js.toLowerCase cleanUrl;
     metadata := {| meta_size := None; mimeType := None; filename := None;
                    url := Some cleanUrl; pageTitle := linkTitle;
                    extractedText := None;
                    createdAt := Some (DateAt now);
                    meta_source := Some "overlay" |};
     item_path := None;
     timestamp := None |}.

(** ** The JSON store: [electron/storage.cjs] *)

Module Json.

(** *** Bag-of-words embeddings *)

(** [embedding[word] = (embedding[word] || 0) + 1] on a plain object.
    The assignment to the key [__proto__] goes to the inherited setter
    and creates no entry.  (Under the key [constructor] JavaScript stores
    a string, not a count; only the key sets are ever read.) *)
Definition countWord (embedding : gmap string nat) (word : string) : gmap string nat :=
  if String.eqb word "__proto__" then embedding
  else <[word := S (default 0%nat (embedding !! word))]> embedding.

Definition words (text : string) : list string :=
  filter (fun w => 2 < String.length w)%nat (Js.split_ws (Js.toLowerCase text)).

Definition generateEmbedding (text : string) : gmap string nat :=
  foldl countWord ∅ (words text).

(** Jaccard similarity of the two key sets. *)
Definition semanticSimilarity (embedding1 embedding2 : gmap string nat) : Q :=
  let words1 := dom embedding1 in
  let words2 := dom embedding2 in
  let intersection := words1 ∩ words2 in
  let union := words1 ∪ words2 in
  if (size union =? 0)%nat then 0%Q
  else (Z.of_nat (size intersection) # Pos.of_nat (size union))%Q.

Definition computeItemEmbedding (item : Item) : gmap string nat :=
  let text :=
    match item_type item with
    | TText => orElse (content item) EmptyString
    | TLink =>
        title item +:+ " " +:+ orElse (url (metadata item)) EmptyString +:+ " " +:+
        orElse (pageTitle (metadata item)) EmptyString
    | _ =>
        title item +:+ " " +:+ orElse (filename (metadata item)) EmptyString +:+ " " +:+
        orElse (extractedText (metadata item)) EmptyString
    end in
  generateEmbedding text.

(** *** The persistent state *)

Record EmbMeta := {
  e_createdAt : option DateString;
  e_source : string;
  e_type : ItemType;
  e_category : Category;
  e_storagePath : option string;
}.

(** An entry of [embeddings.json] as [getItemEmbeddings] hands it out
    (an entry in the older flat shape is wrapped on load). *)
Record EmbEntry := {
  vector : gmap string nat;
  e_metadata : EmbMeta;
}.

(** The callbacks handed to [setImmediate], not yet run. *)
Inductive Task :=
| MetadataExtraction (item : Item) (sourceFilePath : string)
| LLMEnrichment (item : Item).

(** [files]: the regular files of the disk, path to bytes (the two index
    files apart); [items]: [items.json]; [embeddings]:
    [embeddings.json]; [pending]: the queue of the event loop. *)
Record Vault := {
  files : gmap string string;
  items : list Item;
  embeddings : gmap string EmbEntry;
  pending : list Task;
}.

Definition emptyVault : Vault :=
  {| files := ∅; items := []; embeddings := ∅; pending := [] |}.

(** *** Calls that read and write the vault and may throw *)

(** A call returns a value or throws, and leaves the vault in some
    state either way. *)
Definition M (A : Type) : Type := Vault -> Result A * Vault.

Definition ret {A} (a : A) : M A := fun st => (Ok a, st).

Definition bind {A B} (m : M A) (k : A -> M B) : M B :=
  fun st =>
    match m st with
    | (Ok a, st') => k a st'
    | (Err msg, st') => (Err msg, st')
    end.

Definition throw {A} (msg : string) : M A := fun st => (Err msg, st).

(** [try { m } catch (err) { console.error(...) }] *)
Definition tryCatch (m : M unit) : M unit :=
  fun st =>
    match m st with
    | (Ok r, st') => (Ok r, st')
    | (Err _, st') => (Ok tt, st')
    end.

Declare Scope vault_scope.
Delimit Scope vault_scope with vault.
Notation "x <- m ;; k" := (bind m (fun x => k))
  (at level 100, m at next level, right associativity) : vault_scope.
Notation "m ;;; k" := (bind m (fun _ => k))
  (at level 100, right associativity) : vault_scope.
Local Open Scope vault_scope.

Definition loadItems : M (list Item) := fun st => (Ok (items st), st).

Definition saveItems (l : list Item) : M unit :=
  fun st =>
    (Ok tt, {| files := files st; items := l;
               embeddings := embeddings st; pending := pending st |}).

Definition getItemEmbeddings : M (gmap string EmbEntry) :=
  fun st => (Ok (embeddings st), st).

Definition saveEmbeddingsFile (e : gmap string EmbEntry) : M unit :=
  fun st =>
    (Ok tt, {| files := files st; items := items st;
               embeddings := e; pending := pending st |}).

Definition setImmediate (t : Task) : M unit :=
  fun st =>
    (Ok tt, {| files := files st; items := items st;
               embeddings := embeddings st; pending := pending st ++ [t] |}).

Definition existsSync (p : string) : M bool :=
  fun st => (Ok (bool_decide (is_Some (files st !! p))), st).

Definition readFileSync (p : string) : M string :=
  fun st =>
    match files st !! p with
    | Some bytes => (Ok bytes, st)
    | None => (Err ("ENOENT: no such file or directory, open '" +:+ p +:+ "'"), st)
    end.

Definition copyFileSync (src dest : string) : M unit :=
  fun st =>
    match files st !! src with
    | Some bytes =>
        (Ok tt, {| files := <[dest := bytes]> (files st); items := items st;
                   embeddings := embeddings st; pending := pending st |})
    | None =>
        (Err ("ENOENT: no such file or directory, copyfile '" +:+ src +:+ "'"), st)
    end.

(** [fs.unlinkSync(p)]; [p] is [None] when the property read is
    [undefined], which [unlinkSync] refuses with a [TypeError]. *)
Definition unlinkSync (p : option string) : M unit :=
  fun st =>
    match p with
    | None => (Err "The path argument must be of type string", st)
    | Some p =>
        match files st !! p with
        | Some _ =>
            (Ok tt, {| files := delete p (files st); items := items st;
                       embeddings := embeddings st; pending := pending st |})
        | None =>
            (Err ("ENOENT: no such file or directory, unlink '" +:+ p +:+ "'"), st)
        end
    end.

Definition updateItemEmbedding (item : Item) : M unit :=
  embeddings <- getItemEmbeddings ;;
  saveEmbeddingsFile
    (<[item_id item :=
         {| vector := computeItemEmbedding item;
            e_metadata :=
              {| e_createdAt := createdAt (metadata item);
                 e_source := orElse (meta_source (metadata item)) "overlay";
                 e_type := item_type item;
                 e_category := category item;
                 e_storagePath := storagePath item |} |}]> embeddings).

Definition scheduleMetadataExtraction (item : Item) (sourceFilePath : string) : M unit :=
  setImmediate (MetadataExtraction item sourceFilePath).

Definition OLLAMA_ENABLED : bool := true.

Definition scheduleLLMEnrichment (item : Item) : M unit :=
  if OLLAMA_ENABLED then setImmediate (LLMEnrichment item) else ret tt.

Section Ingest.
Context {host : Host}.

Definition createFileItem (uuid : string) (now : Z) (filePath : string) : M Item :=
  if String.eqb (Js.trim filePath) EmptyString then
    throw "File path is required and must be a non-empty string"
  else
    present <- existsSync filePath ;;
    if negb present then throw ("File does not exist: " +:+ filePath)
    else if isRejectedFile filePath then
      throw ("File rejected: " +:+ getRejectionReason filePath)
    else
      let fileName := basename filePath in
      fileContent <- readFileSync filePath ;;
      let fileHash := sha256 fileContent in
      let category := detectCategoryFromFile filePath in
      let fileType := if decide (category = Images) then TImage else TFile in
      let vaultFilePath := vaultFile (fileHash +:+ extname fileName) in
      stored <- existsSync vaultFilePath ;;
      (if negb stored then copyFileSync filePath vaultFilePath else ret tt) ;;;
      let item :=
        {| item_id := uuid;
           item_type := fileType;
           title := fileName;
           category := category;
           content := None;
           hash := Some fileHash;
           storagePath := Some vaultFilePath;
           searchableText := Js.toLowerCase fileName;
           metadata :=
             {| meta_size := Some (String.length fileContent);
                mimeType := Some (getMimeType filePath);
                filename := Some fileName;
                url := None; pageTitle := None; extractedText := None;
                createdAt := Some (DateAt now);
                meta_source := Some "overlay" |};
           item_path := None;
           timestamp := None |} in
      scheduleMetadataExtraction item filePath ;;;
      updateItemEmbedding item ;;;
      ret item.

Definition addItem (item : Item) : M Item :=
  items <- loadItems ;;
  saveItems (items ++ [item]) ;;;
  updateItemEmbedding item ;;;
  scheduleLLMEnrichment item ;;;
  ret item.

Definition addTextItem (uuid : string) (now : Z) (text : string) : M Item :=
  addItem (createTextItem uuid now text).

Definition addFileItem (uuid : string) (now : Z) (filePath : string) : M Item :=
  item <- createFileItem uuid now filePath ;;
  addItem item.
End Ingest.

Definition deleteItem (id : string) : M unit :=
  items <- loadItems ;;
  let item := find (fun i => String.eqb (item_id i) id) items in
  match item with
  | Some it =>
      if decide (item_type it = TFile) then tryCatch (unlinkSync (item_path it))
      else ret tt
  | None => ret tt
  end ;;;
  saveItems (filter (fun i => item_id i ≠ id) items).

(** *** Search *)

Inductive ContentType := CImage | CNote | CFile | CLink.

#[global] Instance ContentType_eq_dec : EqDecision ContentType.
Proof. solve_decision. Defined.

Inductive TimePhrase := Today | Yesterday | LastWeek | LastMonth.

Definition phraseText (p : TimePhrase) : string :=
  match p with
  | Today => "today"
  | Yesterday => "yesterday"
  | LastWeek => "last week"
  | LastMonth => "last month"
  end.

Definition timeSignals (cal : Calendar) : list (TimePhrase * (Z * Z)) :=
  [ (Today, todayRange cal); (Yesterday, yesterdayRange cal);
    (LastWeek, lastWeekRange cal); (LastMonth, lastMonthRange cal) ].

Definition typeSignals : list (ContentType * list string) :=
  [ (CImage, ["image"; "picture"; "photo"; "screenshot"; "png"; "jpg"; "jpeg"]);
    (CNote, ["note"; "notes"; "text"; "idea"; "ideas"]);
    (CFile, ["file"; "document"; "pdf"; "doc"; "video"]);
    (CLink, ["link"; "url"; "website"; "http"]) ].

Definition commandWords : list string :=
  ["show"; "find"; "open"; "get"; "search"; "look for"].

Record Intent := {
  timeFilter : option (Z * Z);
  timePhrase : option TimePhrase;
  contentType : option ContentType;
  topicKeywords : option string;
  originalQuery : string;
}.

Definition parseSearchIntent (cal : Calendar) (query : string) : Intent :=
  let lowerQuery := Js.toLowerCase query in
  let hit :=
    find (fun '(phrase, _) => Js.includes (phraseText phrase) lowerQuery)
         (timeSignals cal) in
  let contentType :=
    find (fun '(_, keywords) =>
            existsb (fun keyword => Js.includes keyword lowerQuery) keywords)
         typeSignals in
  let topic1 :=
    foldl (fun acc '(phrase, _) => Js.removeFirst (phraseText phrase) acc)
          lowerQuery (timeSignals cal) in
  let topic2 :=
    foldl (fun acc '(_, keywords) =>
             foldl (fun acc' keyword => Js.removeFirst keyword acc') acc keywords)
          topic1 typeSignals in
  let topic3 := Js.trim (Js.removeAllAlt commandWords false 0 topic2) in
  {| timeFilter := snd <$> hit;
     timePhrase := fst <$> hit;
     contentType := fst <$> contentType;
     topicKeywords := if String.eqb topic3 EmptyString then None else Some topic3;
     originalQuery := query |}.

Definition getSearchIntent (cal : Calendar) (query : string) : Intent :=
  parseSearchIntent cal query.

(** [(item.metadata && item.metadata.createdAt) || item.timestamp || null] *)
Definition createdAtStr (item : Item) : option DateString :=
  match createdAt (metadata item) with
  | Some d => Some d
  | None => timestamp item
  end.

Definition passesTimeFilter (intent : Intent) (item : Item) : bool :=
  match timeFilter intent with
  | None => true
  | Some (start, finish) =>
      match createdAtStr item with
      | None => false
      | Some NotADate => false
      | Some (DateAt itemDate) =>
          negb ((itemDate <? start)%Z || (finish <? itemDate)%Z)
      end
  end.

Definition passesTypeFilter (intent : Intent) (item : Item) : bool :=
  let type := item_type item in
  let category := category item in
  match contentType intent with
  | None => true
  | Some CImage =>
      bool_decide (type = TImage) || bool_decide (category = Images)
  | Some CNote =>
      bool_decide (type = TText) || bool_decide (category = Notes)
      || bool_decide (category = Ideas)
  | Some CLink =>
      negb (bool_decide (type ≠ TLink) && bool_decide (category ≠ Links))
  | Some CFile =>
      negb (negb (bool_decide (type ∈ [TImage; TFile])) &&
            negb (bool_decide (category ∈ [Documents; Images; Videos; Csv])))
  end.

Record Scored := {
  s_item : Item;
  _searchScore : Q;
  _semanticScore : Q;
  _recencyScore : Q;
  _typeScore : Q;
}.

Definition recencyOf (now : Z) (item : Item) : Q :=
  match createdAtStr item with
  | Some (DateAt created) =>
      let ageInDays :=
        (inject_Z (now - created) / inject_Z (1000 * 60 * 60 * 24))%Q in
      Qmax 0 (1 - ageInDays / 30)%Q
  | _ => 0%Q
  end.

Definition typeScoreOf (intent : Intent) (item : Item) : Q :=
  match contentType intent with
  | Some CImage => if decide (item_type item = TImage) then 2%Q else 1%Q
  | Some CNote => if decide (item_type item = TText) then 2%Q else 1%Q
  | Some CLink => if decide (item_type item = TLink) then 2%Q else 1%Q
  | Some CFile => if decide (item_type item ∈ [TImage; TFile]) then 2%Q else 1%Q
  | None => 1%Q
  end.

Definition scoreItem (now : Z) (intent : Intent)
    (effectiveEmbeddings : gmap string EmbEntry)
    (queryEmbedding : gmap string nat) (item : Item) : Scored :=
  let entry := effectiveEmbeddings !! item_id item in
  let itemEmbedding := default ∅ (vector <$> entry) in
  let semanticScore := semanticSimilarity queryEmbedding itemEmbedding in
  let recencyScore := recencyOf now item in
  let typeScore := typeScoreOf intent item in
  let finalScore :=
    (semanticScore * (6 # 10) + recencyScore * (3 # 10) + typeScore * (1 # 10))%Q in
  {| s_item := item;
     _searchScore := finalScore;
     _semanticScore := semanticScore;
     _recencyScore := recencyScore;
     _typeScore := typeScore |}.

Definition backfillEntry (item : Item) : EmbEntry :=
  {| vector := computeItemEmbedding item;
     e_metadata :=
       {| e_createdAt := createdAtStr item;
          e_source := orElse (meta_source (metadata item)) "overlay";
          e_type := item_type item;
          e_category := category item;
          e_storagePath := storagePath item |} |}.

Definition backfill (items : list Item) : gmap string EmbEntry :=
  foldl (fun backfilled item => <[item_id item := backfillEntry item]> backfilled)
        ∅ items.

Definition contentTypeText (c : ContentType) : string :=
  match c with
  | CImage => "image" | CNote => "note" | CFile => "file" | CLink => "link"
  end.

Definition explain (intent : Intent) : string :=
  let period :=
    match timePhrase intent with
    | Some p => phraseText p
    | None => "recent period"
    end in
  match contentType intent, timeFilter intent, topicKeywords intent with
  | Some c, Some _, _ => "Showing " +:+ contentTypeText c +:+ "s from " +:+ period
  | Some c, None, _ => "Showing " +:+ contentTypeText c +:+ "s"
  | None, Some _, _ => "Showing items from " +:+ period
  | None, None, Some k =>
      "Showing results related to " +:+ Js.dquote +:+ k +:+ Js.dquote
  | None, None, None => "Showing all items"
  end.

Record SearchResult := {
  results : list Scored;
  explanation : string;
  intent : Intent;
  totalItems : nat;
  filteredCount : nat;
}.

(** The ranking of [smartSearch], once the intent, the items and the
    embeddings in force are known. *)
Definition rank (now : Z) (intent : Intent)
    (effectiveEmbeddings : gmap string EmbEntry) (query : string)
    (items : list Item) : list Scored :=
  let queryEmbedding :=
    generateEmbedding (default query (topicKeywords intent)) in
  let filteredItems :=
    List.filter (fun item => passesTimeFilter intent item && passesTypeFilter intent item)
                items in
  let scoredItems :=
    map (scoreItem now intent effectiveEmbeddings queryEmbedding) filteredItems in
  take 20 (sortDesc _searchScore scoredItems).

Definition smartSearch (cal : Calendar) (now : Z) (query : string) : M SearchResult :=
  let intent := getSearchIntent cal query in
  items <- loadItems ;;
  if (length items =? 0)%nat then
    ret {| results := []; explanation := "No items in vault"; intent := intent;
           totalItems := 0; filteredCount := 0 |}
  else
    embeddings <- getItemEmbeddings ;;
    effectiveEmbeddings <-
      (if (0 <? length items)%nat && (size embeddings =? 0)%nat then
         let backfilled := backfill items in
         saveEmbeddingsFile backfilled ;;;
         ret backfilled
       else ret embeddings) ;;
    let filteredItems :=
      List.filter (fun item => passesTimeFilter intent item && passesTypeFilter intent item)
                  items in
    ret {| results := rank now intent effectiveEmbeddings query items;
           explanation := explain intent;
           intent := intent;
           totalItems := length items;
           filteredCount := length filteredItems |}.

End Json.

(** ** The SQLite store (better-sqlite3 variant of the same engine) *)

Module Sqlite.

(** What [extractFileMetadata] brings back from sharp, pdf-parse and
    tesseract, as far as [saveItem] reads it; [x_written] are the
    thumbnail files it left in the vault. *)
Record Extracted := {
  x_thumbnail : option string;
  x_extractedText : string;
  x_caption : option string;
  x_written : list (string * string);
}.

Definition noExtraction : Extracted :=
  {| x_thumbnail := None; x_extractedText := EmptyString;
     x_caption := None; x_written := [] |}.

(** The embedding pipeline (a vector, or a failure), [Math.sqrt], and the
    extraction tool chain are the host's. *)
Class Engine := {
  embed : string -> option (list Q);
  sqrt : Q -> Q;
  extract : Item -> string -> Extracted;
}.

Record Row := {
  id : string;
  type : ItemType;
  r_title : string;
  r_content : option string;
  raw_path : option string;
  thumbnail_path : option string;
  embedding : option (list Q);
  mime_type : option string;
  r_hash : option string;
  created_at : DateString;
  updated_at : DateString;
  r_metadata : Metadata;
  r_extracted : Extracted;
}.

(** [rows]: the table [items] in rowid order; [files]: the disk. *)
Record Db := {
  rows : list Row;
  files : gmap string string;
}.

Section WithEngine.
Context {host : Host} {engine : Engine}.

Definition generateEmbedding (text : string) : option (list Q) :=
  if String.eqb (Js.trim text) EmptyString then None
  else embed (Js.trim text).

Definition cosineSimilarity (embedding1 embedding2 : option (list Q)) : Q :=
  match embedding1, embedding2 with
  | Some e1, Some e2 =>
      if negb (length e1 =? length e2)%nat then 0%Q
      else
        let '(dotProduct, norm1, norm2) :=
          foldl (fun '(dp, n1, n2) '(a, b) =>
                   (dp + a * b, n1 + a * a, n2 + b * b)%Q)
                (0%Q, 0%Q, 0%Q) (zip e1 e2) in
        let denominator := (sqrt norm1 * sqrt norm2)%Q in
        if Qeq_bool denominator 0 then 0%Q
        else (dotProduct / denominator)%Q
  | _, _ => 0%Q
  end.

Definition truthy (s : string) : bool := negb (String.eqb s EmptyString).

Definition buildSearchableText (item : Item) (extractedMetadata : Extracted) : string :=
  let parts : list string :=
    ((if truthy (title item) then [title item] else []) ++
    (match content item with Some c => if truthy c then [c] else [] | None => [] end) ++
    (match filename (metadata item) with
     | Some f => if truthy f then [f] else [] | None => [] end) ++
    (if truthy (x_extractedText extractedMetadata)
     then [x_extractedText extractedMetadata] else []) ++
    (match x_caption extractedMetadata with
     | Some c => if truthy c then [c] else [] | None => [] end) ++
    (match url (metadata item) with
     | Some u => if truthy u then [u] else [] | None => [] end))%list in
  Js.trim (String.concat " " parts).

(** [INSERT ... ON CONFLICT(id) DO UPDATE SET ...]: a row with the same
    id keeps its place, its [type] and its [created_at]. *)
Fixpoint upsert (r : Row) (table : list Row) : list Row :=
  match table with
  | [] => [r]
  | r' :: table' =>
      if String.eqb (id r') (id r)
      then {| id := id r'; type := type r'; r_title := r_title r;
              r_content := r_content r; raw_path := raw_path r;
              thumbnail_path := thumbnail_path r; embedding := embedding r;
              mime_type := mime_type r; r_hash := r_hash r;
              created_at := created_at r'; updated_at := updated_at r;
              r_metadata := r_metadata r; r_extracted := r_extracted r |}
           :: table'
      else r' :: upsert r table'
  end.

Definition writeAll (written : list (string * string))
    (fs : gmap string string) : gmap string string :=
  foldl (fun acc '(p, bytes) => <[p := bytes]> acc) fs written.

(** [saveItem]: the row it writes and the database after it. *)
Definition saveItem (uuid : string) (now : Z) (itemData : Item) (db : Db) : Row * Db :=
  let created := default (DateAt now) (createdAt (metadata itemData)) in
  let onDisk :=
    match storagePath itemData with
    | Some p => truthy p && bool_decide (is_Some (files db !! p))
    | None => false
    end in
  let extractedMetadata :=
    if onDisk then extract itemData (default EmptyString (storagePath itemData))
    else noExtraction in
  let currentMeta := metadata itemData in
  let meta :=
    if onDisk then
      {| meta_size := meta_size currentMeta; mimeType := mimeType currentMeta;
         filename :=
           Some (orElse (filename currentMeta)
                        (basename (default EmptyString (storagePath itemData))));
         url := url currentMeta; pageTitle := pageTitle currentMeta;
         extractedText := Some (x_extractedText extractedMetadata);
         createdAt := Some created;
         meta_source := Some (orElse (meta_source currentMeta) "overlay") |}
    else currentMeta in
  let searchableText := buildSearchableText itemData extractedMetadata in
  let vec :=
    if truthy searchableText then generateEmbedding searchableText else None in
  let row :=
    {| id := orElse (Some (item_id itemData)) uuid;
       type := item_type itemData;
       r_title := title itemData;
       r_content :=
         match content itemData with
         | Some c => if truthy c then Some c else None
         | None => None
         end;
       raw_path := storagePath itemData;
       thumbnail_path := if onDisk then x_thumbnail extractedMetadata else None;
       embedding := vec;
       mime_type := mimeType currentMeta;
       r_hash := hash itemData;
       created_at := created;
       updated_at := DateAt now;
       r_metadata := meta;
       r_extracted := extractedMetadata |} in
  (row, {| rows := upsert row (rows db);
           files := writeAll (x_written extractedMetadata) (files db) |}).

Definition deleteItem (key : string) (db : Db) : Db :=
  {| rows := filter (fun r => id r ≠ key) (rows db); files := files db |}.

(** [semanticSearch]: the rows it returns, best first. *)
Definition semanticSearch (query : string) (db : Db) : list Row :=
  match generateEmbedding query with
  | None => []
  | Some queryEmbedding =>
      let candidates := filter (fun r => is_Some (embedding r)) (rows db) in
      let similarity r := cosineSimilarity (Some queryEmbedding) (embedding r) in
      take 5 (sortDesc similarity candidates)
  end.

Definition createFileItem (uuid : string) (now : Z) (filePath : string) (db : Db)
    : Result Item * Db :=
  if String.eqb (Js.trim filePath) EmptyString then
    (Err "File path is required and must be a non-empty string", db)
  else
    match files db !! filePath with
    | None => (Err ("File does not exist: " +:+ filePath), db)
    | Some fileContent =>
        if isRejectedFile filePath then
          (Err ("File rejected: " +:+ getRejectionReason filePath), db)
        else
          let fileName := basename filePath in
          let fileHash := sha256 fileContent in
          let category := detectCategoryFromFile filePath in
          let fileType := if decide (category = Images) then TImage else TFile in
          let vaultFilePath := vaultFile (fileHash +:+ extname fileName) in
          let files' :=
            if bool_decide (is_Some (files db !! vaultFilePath)) then files db
            else <[vaultFilePath := fileContent]> (files db) in
          (Ok {| item_id := uuid;
                 item_type := fileType;
                 title := fileName;
                 category := category;
                 content := None;
                 hash := Some fileHash;
                 storagePath := Some vaultFilePath;
                 searchableText := Js.toLowerCase fileName;
                 metadata :=
                   {| meta_size := Some (String.length fileContent);
                      mimeType := Some (getMimeType filePath);
                      filename := Some fileName;
                      url := None; pageTitle := None; extractedText := None;
                      createdAt := Some (DateAt now);
                      meta_source := Some "overlay" |};
                 item_path := None;
                 timestamp := None |},
              {| rows := rows db; files := files' |})
    end.

Definition addItem (uuid : string) (now : Z) (item : Item) (db : Db) : Row * Db :=
  saveItem uuid now item db.

Definition addTextItem (uuid : string) (now : Z) (text : string) (db : Db) : Row * Db :=
  saveItem uuid now (createTextItem uuid now text) db.

Definition addFileItem (uuid : string) (now : Z) (filePath : string) (db : Db)
    : Result Row * Db :=
  match createFileItem uuid now filePath db with
  | (Ok item, db') => let '(row, db'') := saveItem uuid now item db' in (Ok row, db'')
  | (Err msg, db') => (Err msg, db')
  end.
End WithEngine.

End Sqlite.

(** ** The overlay controller: chord listener and state machine of the
    main process *)

Module Overlay.

(** The values of [overlayState]; ['error'] is only ever compared
    against, never assigned. *)
Inductive OverlayState := Hidden | Pressing | Latched | Saving | Failed.

#[global] Instance OverlayState_eq_dec : EqDecision OverlayState.
Proof. solve_decision. Defined.

Definition PRESS_THRESHOLD_MS : Z := 400.

(** The module-level variables of the main process.  [pressTimer] is the
    instant at which the pending [setTimeout] is due. *)
Record Controller := {
  overlayState : OverlayState;
  stateBeforePressing : option OverlayState;
  pressTimer : option Z;
  pressStartTime : option Z;
  altPhysicallyDown : bool;
  dPhysicallyDown : bool;
  isDraggingInOverlay : bool;
  overlayWindow : bool;
  overlayVisible : bool;
}.

Definition initial : Controller :=
  {| overlayState := Hidden; stateBeforePressing := None; pressTimer := None;
     pressStartTime := None; altPhysicallyDown := false;
     dPhysicallyDown := false; isDraggingInOverlay := false;
     overlayWindow := true; overlayVisible := false |}.

Definition setState (v : OverlayState) (c : Controller) : Controller :=
  {| overlayState := v; stateBeforePressing := stateBeforePressing c;
     pressTimer := pressTimer c; pressStartTime := pressStartTime c;
     altPhysicallyDown := altPhysicallyDown c;
     dPhysicallyDown := dPhysicallyDown c;
     isDraggingInOverlay := isDraggingInOverlay c;
     overlayWindow := overlayWindow c; overlayVisible := overlayVisible c |}.

Definition setBefore (v : option OverlayState) (c : Controller) : Controller :=
  {| overlayState := overlayState c; stateBeforePressing := v;
     pressTimer := pressTimer c; pressStartTime := pressStartTime c;
     altPhysicallyDown := altPhysicallyDown c;
     dPhysicallyDown := dPhysicallyDown c;
     isDraggingInOverlay := isDraggingInOverlay c;
     overlayWindow := overlayWindow c; overlayVisible := overlayVisible c |}.

Definition setTimer (v : option Z) (c : Controller) : Controller :=
  {| overlayState := overlayState c; stateBeforePressing := stateBeforePressing c;
     pressTimer := v; pressStartTime := pressStartTime c;
     altPhysicallyDown := altPhysicallyDown c;
     dPhysicallyDown := dPhysicallyDown c;
     isDraggingInOverlay := isDraggingInOverlay c;
     overlayWindow := overlayWindow c; overlayVisible := overlayVisible c |}.

Definition setPressStart (v : option Z) (c : Controller) : Controller :=
  {| overlayState := overlayState c; stateBeforePressing := stateBeforePressing c;
     pressTimer := pressTimer c; pressStartTime := v;
     altPhysicallyDown := altPhysicallyDown c;
     dPhysicallyDown := dPhysicallyDown c;
     isDraggingInOverlay := isDraggingInOverlay c;
     overlayWindow := overlayWindow c; overlayVisible := overlayVisible c |}.

Definition setAlt (v : bool) (c : Controller) : Controller :=
  {| overlayState := overlayState c; stateBeforePressing := stateBeforePressing c;
     pressTimer := pressTimer c; pressStartTime := pressStartTime c;
     altPhysicallyDown := v; dPhysicallyDown := dPhysicallyDown c;
     isDraggingInOverlay := isDraggingInOverlay c;
     overlayWindow := overlayWindow c; overlayVisible := overlayVisible c |}.

Definition setD (v : bool) (c : Controller) : Controller :=
  {| overlayState := overlayState c; stateBeforePressing := stateBeforePressing c;
     pressTimer := pressTimer c; pressStartTime := pressStartTime c;
     altPhysicallyDown := altPhysicallyDown c; dPhysicallyDown := v;
     isDraggingInOverlay := isDraggingInOverlay c;
     overlayWindow := overlayWindow c; overlayVisible := overlayVisible c |}.

Definition setDragging (v : bool) (c : Controller) : Controller :=
  {| overlayState := overlayState c; stateBeforePressing := stateBeforePressing c;
     pressTimer := pressTimer c; pressStartTime := pressStartTime c;
     altPhysicallyDown := altPhysicallyDown c;
     dPhysicallyDown := dPhysicallyDown c;
     isDraggingInOverlay := v;
     overlayWindow := overlayWindow c; overlayVisible := overlayVisible c |}.

Definition setVisible (v : bool) (c : Controller) : Controller :=
  {| overlayState := overlayState c; stateBeforePressing := stateBeforePressing c;
     pressTimer := pressTimer c; pressStartTime := pressStartTime c;
     altPhysicallyDown := altPhysicallyDown c;
     dPhysicallyDown := dPhysicallyDown c;
     isDraggingInOverlay := isDraggingInOverlay c;
     overlayWindow := overlayWindow c; overlayVisible := v |}.

Definition showOverlayWindow (c : Controller) : Controller :=
  if overlayWindow c && negb (overlayVisible c) then setVisible true c else c.

Definition hideOverlayWindow (c : Controller) : Controller :=
  if negb (isDraggingInOverlay c) && overlayWindow c && overlayVisible c
  then setVisible false c else c.

(** [setOverlayState(newState)] called at the instant [now]. *)
Definition setOverlayState (now : Z) (newState : OverlayState) (c : Controller)
    : Controller :=
  if decide (overlayState c = newState) then c
  else
    let previousState := overlayState c in
    let c := setTimer None (setState newState c) in
    match newState with
    | Hidden =>
        let c :=
          if negb (isDraggingInOverlay c) && overlayWindow c && overlayVisible c
          then hideOverlayWindow c else c in
        setBefore None c
    | Pressing =>
        let c :=
          if overlayWindow c && negb (overlayVisible c)
          then showOverlayWindow c else c in
        let c :=
          if bool_decide (previousState ≠ Pressing)
             && bool_decide (previousState ≠ Saving)
          then setBefore (Some previousState) c else c in
        setTimer (Some (now + PRESS_THRESHOLD_MS)%Z) c
    | Latched =>
        let c :=
          if overlayWindow c && negb (overlayVisible c)
          then showOverlayWindow c else c in
        setBefore None c
    | Saving =>
        if overlayWindow c && negb (overlayVisible c)
        then showOverlayWindow c else c
    | Failed => c
    end.

(** The callback of the hold timer. *)
Definition holdTimeout (now : Z) (c : Controller) : Controller :=
  setOverlayState now Latched (setTimer None c).

Definition isAltKey (keycode : Z) : bool :=
  ((keycode =? 56) || (keycode =? 3640))%Z.

Definition isDKey (keycode : Z) : bool := (keycode =? 32)%Z.

Definition isChorded (c : Controller) : bool :=
  altPhysicallyDown c && dPhysicallyDown c.

(** [!pressStartTime] *)
Definition unset (v : option Z) : bool :=
  match v with
  | None => true
  | Some n => (n =? 0)%Z
  end.

Definition handleAltDChord (now : Z) (c : Controller) : Controller :=
  if decide (overlayState c = Saving) then c
  else if isDraggingInOverlay c then setOverlayState now Latched c
  else if bool_decide (overlayState c = Hidden)
          && bool_decide (stateBeforePressing c = Some Failed)
  then setOverlayState now Pressing c
  else
    match overlayState c with
    | Hidden => setOverlayState now Pressing c
    | Latched => setOverlayState now Pressing c
    | _ => c
    end.

Definition handleAltDRelease (now : Z) (c : Controller) : Controller :=
  if decide (overlayState c = Saving) then c
  else
    match overlayState c with
    | Pressing =>
        match stateBeforePressing c with
        | Some Hidden => setOverlayState now Latched c
        | Some Latched => setOverlayState now Hidden c
        | _ => setOverlayState now Hidden c
        end
    | _ => c
    end.

Definition onKeyDown (now : Z) (keycode : Z) (c : Controller) : Controller :=
  if isAltKey keycode then
    let c :=
      if negb (altPhysicallyDown c) then
        let c := setAlt true c in
        if unset (pressStartTime c) && negb (dPhysicallyDown c)
        then setPressStart (Some now) c else c
      else c in
    if altPhysicallyDown c && dPhysicallyDown c then handleAltDChord now c else c
  else if isDKey keycode then
    let c :=
      if negb (dPhysicallyDown c) then
        let c := setD true c in
        if unset (pressStartTime c) && negb (altPhysicallyDown c)
        then setPressStart (Some now) c else c
      else c in
    if altPhysicallyDown c && dPhysicallyDown c then handleAltDChord now c else c
  else c.

Definition onKeyUp (now : Z) (keycode : Z) (c : Controller) : Controller :=
  let wasChordActive := isChorded c in
  if isAltKey keycode then
    let c := setAlt false c in
    let c := if wasChordActive then setPressStart None c else c in
    if wasChordActive then handleAltDRelease now c else c
  else if isDKey keycode then
    let c := setD false c in
    let c := if wasChordActive then setPressStart None c else c in
    if wasChordActive then handleAltDRelease now c else c
  else c.

(** What reaches the controller: the two events of the keyboard hook and
    the requests of the renderer that touch the state machine. *)
Inductive Event :=
| KeyDown (keycode : Z)
| KeyUp (keycode : Z)
| SaveRequested
| HideOverlay
| SetOverlayDragState (isDragging : bool).

Definition handle (now : Z) (ev : Event) (c : Controller) : Controller :=
  match ev with
  | KeyDown keycode => onKeyDown now keycode c
  | KeyUp keycode => onKeyUp now keycode c
  | SaveRequested => setOverlayState now Saving c
  | HideOverlay => setOverlayState now Hidden (setDragging false c)
  | SetOverlayDragState isDragging => setDragging isDragging c
  end.

(** Let time pass up to [now]: a hold timer that is due fires first. *)
Definition advance (now : Z) (c : Controller) : Controller :=
  match pressTimer c with
  | Some due => if (due <=? now)%Z then holdTimeout due c else c
  | None => c
  end.

Definition step (c : Controller) (timed : Z * Event) : Controller :=
  handle (fst timed) (snd timed) (advance (fst timed) c).

Definition run (trace : list (Z * Event)) (c : Controller) : Controller :=
  foldl step c trace.

(** Key codes of the hook: left Alt and D. *)
Definition ALT : Z := 56.
Definition KEY_D : Z := 32.

End Overlay.

(** ** Background work: the callbacks handed to [setImmediate]

    [scheduleMetadataExtraction] and [scheduleLLMEnrichment] queue a
    callback that awaits the extraction tools, or the local model, and
    then writes the item they return over the record of the same id.
    What the tools return is an argument of the definitions. *)

Module Background.

(** [items.findIndex(i => i.id === key)] *)
Definition findIndex (key : string) (l : list Item) : option nat :=
  fst <$> list_find (fun i => item_id i = key) l.

(** The end of both callbacks: [items[itemIndex] = updatedItem], the
    index saved and the embedding recomputed, when the id is still in the
    index. *)
Definition writeBack (updatedItem : Item) : Json.M unit :=
  Json.bind Json.loadItems (fun items =>
    match findIndex (item_id updatedItem) items with
    | Some itemIndex =>
        Json.bind (Json.saveItems (<[itemIndex := updatedItem]> items)) (fun _ =>
          Json.updateItemEmbedding updatedItem)
    | None => Json.ret tt
    end).

(** The thumbnails that [extractFileMetadata] leaves on the disk. *)
Definition writeFiles (written : list (string * string)) : Json.M unit :=
  fun st =>
    (Ok tt, {| Json.files := Sqlite.writeAll written (Json.files st);
               Json.items := Json.items st;
               Json.embeddings := Json.embeddings st;
               Json.pending := Json.pending st |}).

(** The callback of [scheduleMetadataExtraction], [extractFileMetadata]
    having written [written] and returned [updatedItem]. *)
Definition metadataExtracted (written : list (string * string)) (updatedItem : Item)
    : Json.M unit :=
  Json.tryCatch
    (Json.bind (writeFiles written) (fun _ => writeBack updatedItem)).

(** The callback of [scheduleLLMEnrichment] for [item], the model having
    returned [enriched] (which is [item] itself for a file or a link). *)
Definition llmEnriched (item enriched : Item) : Json.M unit :=
  Json.tryCatch
    (if bool_decide (item_id enriched = item_id item) then writeBack enriched
     else Json.ret tt).

Definition taskItem (t : Json.Task) : Item :=
  match t with
  | Json.MetadataExtraction item _ => item
  | Json.LLMEnrichment item => item
  end.

(** The callback of the queued task [t] runs to its end. *)
Definition complete (t : Json.Task) (written : list (string * string))
    (updatedItem : Item) : Json.M unit :=
  match t with
  | Json.MetadataExtraction _ _ => metadataExtracted written updatedItem
  | Json.LLMEnrichment item => llmEnriched item updatedItem
  end.

(** The event loop takes the callback off its queue. *)
Definition dequeue (rest : list Json.Task) (st : Json.Vault) : Json.Vault :=
  {| Json.files := Json.files st; Json.items := Json.items st;
     Json.embeddings := Json.embeddings st; Json.pending := rest |}.

End Background.

(** ** The request handlers of the main process

    [validate-file] and [save-file]: the overlay controller and the store
    together. *)

Module Ipc.

Record Validation := {
  valid : bool;
  reason : option string;
  v_category : option Category;
}.

Definition Main : Type := Overlay.Controller * Json.Vault.

Section Handlers.
Context {host : Host}.

Definition validateFile (filePath : string) : Validation :=
  if isRejectedFile filePath
  then {| valid := false; reason := Some (getRejectionReason filePath);
          v_category := None |}
  else {| valid := true; reason := None;
          v_category := Some (detectCategoryFromFile filePath) |}.

Definition saveFile (uuid : string) (now : Z) (filePath : string) (m : Main)
    : Result Item * Main :=
  if String.eqb (Js.trim filePath) EmptyString then
    (Err "Invalid file path: path must be a non-empty string", m)
  else
    let c := Overlay.setOverlayState now Overlay.Saving (fst m) in
    let '(saved, st) := Json.addFileItem uuid now filePath (snd m) in
    (saved, (c, st)).

End Handlers.

End Ipc.

(** ** The drag tracker of the preload script *)

Module Preload.

(** A file of a drag event, as far as [_captureDropPaths] reads it. *)
Record DroppedFile := {
  f_path : option string;
  f_webkitRelativePath : option string;
  f_name : option string;
}.

(** [files]: [e.dataTransfer.files]; [uriListPaths]: the paths decoded
    from the URI list of the event; [throws]: reading the event raises. *)
Record DragEvent := {
  dropped : list DroppedFile;
  uriListPaths : list string;
  throws : bool;
}.

Record Tracker := {
  _lastDroppedPaths : list string;
  _dragDepth : Z;
}.

Definition initial : Tracker := {| _lastDroppedPaths := []; _dragDepth := 0 |}.

(** A property that holds a non-empty string. *)
Definition truthy (v : option string) : option string :=
  match v with
  | Some s => if String.eqb s EmptyString then None else Some s
  | None => None
  end.

Definition pathOf (uris : list string) (i : nat) (file : DroppedFile) : option string :=
  match truthy (f_path file) with
  | Some p => Some p
  | None =>
      match truthy (uris !! i) with
      | Some p => Some p
      | None =>
          match truthy (f_webkitRelativePath file) with
          | Some p => Some p
          | None => truthy (f_name file)
          end
      end
  end.

Definition _captureDropPaths (e : DragEvent) (t : Tracker) : Tracker :=
  if throws e then {| _lastDroppedPaths := []; _dragDepth := _dragDepth t |}
  else
    let paths := omap id (imap (pathOf (uriListPaths e)) (dropped e)) in
    if (0 <? length paths)%nat
    then {| _lastDroppedPaths := paths; _dragDepth := _dragDepth t |}
    else t.

Definition _incrementDragDepth (t : Tracker) : Tracker :=
  {| _lastDroppedPaths := _lastDroppedPaths t; _dragDepth := _dragDepth t + 1 |}.

Definition _decrementDragDepth (t : Tracker) : Tracker :=
  let depth := (_dragDepth t - 1)%Z in
  {| _lastDroppedPaths := _lastDroppedPaths t;
     _dragDepth := if (depth <=? 0)%Z then 0 else depth |}.

(** The three capture-phase listeners on [document]. *)
Inductive Dom :=
| dragenter (e : DragEvent)
| dragleave
| drop (e : DragEvent).

Definition listen (t : Tracker) (ev : Dom) : Tracker :=
  match ev with
  | dragenter e => _captureDropPaths e (_incrementDragDepth t)
  | dragleave => _decrementDragDepth t
  | drop e =>
      let t := _captureDropPaths e t in
      {| _lastDroppedPaths := _lastDroppedPaths t; _dragDepth := 0 |}
  end.

(** [extractDroppedFilePaths] *)
Definition extractDroppedFilePaths (t : Tracker) : list string := _lastDroppedPaths t.

End Preload.

(** ** The ids of the items: [uuidv4]

    [createTextItem], [createLinkItem] and [createFileItem] call
    [uuidv4()] of the uuid package for the id of the item they build, and
    the stores rely on one property of it: no two calls return the same
    id.  [uuidv4 n] is the id that call number [n] of the process returns;
    a process is a store together with the number of calls made so far. *)

Module Ids.

Class UuidSource := {
  uuidv4 : nat -> string;
  uuidv4_distinct : forall m n, m <> n -> uuidv4 m <> uuidv4 n;
}.

Record Process (Store : Type) := {
  store : Store;
  drawn : nat;
}.
Arguments store {Store} _.
Arguments drawn {Store} _.
Arguments Build_Process {Store} _ _.

Section Draw.
Context {host : Host} {engine : Sqlite.Engine} {ids : UuidSource}.

(** A capture that builds its item with the id of the next call of
    [uuidv4]; the call is made where the item is built, after every check
    that throws. *)
Definition draw {Store A : Type} (call : string -> Store -> Result A * Store)
    (p : Process Store) : Result A * Process Store :=
  match call (uuidv4 (drawn p)) (store p) with
  | (Ok a, s) => (Ok a, {| store := s; drawn := S (drawn p) |})
  | (Err msg, s) => (Err msg, {| store := s; drawn := drawn p |})
  end.

(** [addFileItem(filePath)] of the JSON store. *)
Definition addFileItem (now : Z) (filePath : string)
    : Process Json.Vault -> Result Item * Process Json.Vault :=
  draw (fun uuid => Json.addFileItem uuid now filePath).

(** [addFileItem(filePath)] of the SQLite store. *)
Definition addFileItemSqlite (now : Z) (filePath : string)
    : Process Sqlite.Db -> Result Sqlite.Row * Process Sqlite.Db :=
  draw (fun uuid => Sqlite.addFileItem uuid now filePath).

End Draw.
End Ids.

(** ** A host to run the engine on

    POSIX path handling, a vault under [/vault], and, in place of SHA-256
    (which no definition inspects), the hexadecimal dump of the bytes. *)

Module Demo.

Fixpoint splitSlash (s : string) : list string :=
  match s with
  | EmptyString => [EmptyString]
  | String c s' =>
      match splitSlash s' with
      | [] => [String c EmptyString]
      | t :: ts =>
          if Ascii.eqb c "/" then EmptyString :: t :: ts else String c t :: ts
      end
  end.

(** The last non-empty component of the path. *)
Definition basename (p : string) : string :=
  default EmptyString
    (last (filter (fun t => t ≠ EmptyString) (splitSlash p))).

(** The suffix of [s] that starts at its last dot, if it has a dot. *)
Fixpoint fromLastDot (s : string) : option string :=
  match s with
  | EmptyString => None
  | String c s' =>
      match fromLastDot s' with
      | Some e => Some e
      | None => if Ascii.eqb c "." then Some s else None
      end
  end.

Definition extname (p : string) : string :=
  let name := basename p in
  match fromLastDot name with
  | None => EmptyString
  | Some e =>
      if String.eqb e name || String.eqb name ".." then EmptyString else e
  end.

Definition hexDigit (n : N) : ascii :=
  ascii_of_N (if (n <? 10)%N then 48 + n else 87 + n).

Fixpoint hexDump (bytes : string) : string :=
  match bytes with
  | EmptyString => EmptyString
  | String c s' =>
      let n := N_of_ascii c in
      String (hexDigit (n / 16)) (String (hexDigit (n mod 16)) (hexDump s'))
  end.

Definition host : Host :=
  Build_Host extname basename hexDump (fun name => "/vault/" +:+ name).

(** A calendar read at the instant [now]: the ranges reach back one,
    seven and thirty days; a day has 86400000 ms. *)
Definition calendarAt (now : Z) : Calendar :=
  let day := 86400000%Z in
  let midnight := (now - now mod day)%Z in
  {| todayRange := (midnight, now);
     yesterdayRange := (midnight - day, midnight - 1)%Z;
     lastWeekRange := (midnight - 7 * day, now)%Z;
     lastMonthRange := (midnight - 30 * day, now)%Z |}.

(** An engine whose embedding pipeline is unavailable, and one that
    answers with a two-dimensional vector. *)
Definition silentEngine : Sqlite.Engine :=
  Sqlite.Build_Engine (fun _ => None) (fun q => q) (fun _ _ => Sqlite.noExtraction).

Definition lengthEngine : Sqlite.Engine :=
  Sqlite.Build_Engine
    (fun text => Some [inject_Z (Z.of_nat (String.length text)); 1%Q])
    (fun q => q) (fun _ _ => Sqlite.noExtraction).

(** A disk with three user files, and the stores before any capture. *)
Definition disk : gmap string string :=
  <["/home/u/cat.png" := "PNGDATA"]>
    (<["/home/u/notes.xyz" := "hello"]>
       (<["/home/u/song.mp3" := "la"]> ∅)).

Definition vault0 : Json.Vault :=
  {| Json.files := disk; Json.items := []; Json.embeddings := ∅;
     Json.pending := [] |}.

Definition db0 : Sqlite.Db := {| Sqlite.rows := []; Sqlite.files := disk |}.

(** A vault written by a version of the store that kept no embeddings. *)
Definition legacyVault : Json.Vault :=
  {| Json.files := ∅;
     Json.items := [createTextItem "id-a" 0 "alpha beta"];
     Json.embeddings := ∅;
     Json.pending := [] |}.

Definition day : Z := 86400000.

(** Ids in place of UUIDs: call number [n] returns [n] times "i", then
    "-th". *)
Fixpoint tally (n : nat) : string :=
  match n with
  | O => "-th"
  | S n' => String "i" (tally n')
  end.

Definition uuids : Ids.UuidSource.
Proof.
  refine {| Ids.uuidv4 := tally |}.
  intros m n Hne Heq. apply Hne.
  assert (forall k, String.length (tally k) = (k + 3)%nat) as Hlen.
  { induction k as [|k IH]; simpl; congruence. }
  apply (f_equal String.length) in Heq. rewrite !Hlen in Heq. lia.
Defined.

End Demo.

Local Open Scope list_scope.

(** ** Vocabulary of the statements *)

(** [l] is in descending order of [key]. *)
Definition descendingBy {A} (key : A -> Q) (l : list A) : Prop :=
  StronglySorted (fun a b => (key b <= key a)%Q) l.

(** Elements of equal key stand in [l] in the order they have in [l0]. *)
Definition keepsTies {A} (key : A -> Q) (l0 l : list A) : Prop :=
  forall q, List.filter (fun a => Qeq_bool (key a) q) l
          = List.filter (fun a => Qeq_bool (key a) q) l0.

(** The ranking contract of the specification, for a result list [l]:
    descending similarity, ties by descending creation time, then by
    ascending id ([idLe] is the order on ids). *)
Definition rankedBySimilarity {A} (sim : A -> Q) (created : A -> Z)
    (idLe : A -> A -> Prop) (l : list A) : Prop :=
  forall i j a b, (i < j)%nat -> l !! i = Some a -> l !! j = Some b ->
    (sim b < sim a)%Q \/
    (sim a == sim b)%Q /\
      ((created b < created a)%Z \/ created a = created b /\ idLe a b).

(** The square of the cosine similarity of two bags of words, which
    orders pairs of bags as the cosine itself does (counts are not
    negative). *)
Definition dotProduct (a b : gmap string nat) : nat :=
  map_fold (fun w n acc => n * default 0 (b !! w) + acc)%nat 0%nat a.

Definition cosineSquared (a b : gmap string nat) : Q :=
  let d := Z.of_nat (dotProduct a b) in
  let n := Z.of_nat (dotProduct a a * dotProduct b b) in
  if (n =? 0)%Z then 0%Q else (d * d # Z.to_pos n)%Q.

(** The item that [createFileItem] builds for the file [filePath] holding
    [fileContent]. *)
Definition fileItemOf {host : Host} (uuid : string) (now : Z)
    (filePath fileContent : string) : Item :=
  let fileName := basename filePath in
  let category := detectCategoryFromFile filePath in
  {| item_id := uuid;
     item_type := if decide (category = Images) then TImage else TFile;
     title := fileName;
     category := category;
     content := None;
     hash := Some (sha256 fileContent);
     storagePath := Some (vaultFile (sha256 fileContent +:+ extname fileName));
     searchableText := Js.toLowerCase fileName;
     metadata :=
       {| meta_size := Some (String.length fileContent);
          mimeType := Some (getMimeType filePath);
          filename := Some fileName;
          url := None; pageTitle := None; extractedText := None;
          createdAt := Some (DateAt now);
          meta_source := Some "overlay" |};
     item_path := None;
     timestamp := None |}.

(** The embedding record that [updateItemEmbedding] writes for [item]. *)
Definition initialEmbedding (item : Item) : Json.EmbEntry :=
  {| Json.vector := Json.computeItemEmbedding item;
     Json.e_metadata :=
       {| Json.e_createdAt := createdAt (metadata item);
          Json.e_source := orElse (meta_source (metadata item)) "overlay";
          Json.e_type := item_type item;
          Json.e_category := category item;
          Json.e_storagePath := storagePath item |} |}.

(** What a capture leaves behind at the moment it returns: the item at the
    end of the index, its initial embedding under its id, and the
    enrichment [tasks] queued behind those already waiting, none of them
    run. *)
Definition captured (item : Item) (tasks : list Json.Task)
    (before after : Json.Vault) : Prop :=
  Json.items after = Json.items before ++ [item] /\
  Json.embeddings after !! item_id item = Some (initialEmbedding item) /\
  Json.pending after = Json.pending before ++ tasks.

(** The hybrid score of [smartSearch]: similarity, recency and type
    relevance weighted 0.6, 0.3 and 0.1. *)
Definition hybridScore (s : Json.Scored) : Q :=
  (Json._semanticScore s * (6 # 10) + Json._recencyScore s * (3 # 10)
   + Json._typeScore s * (1 # 10))%Q.

(** The items that [smartSearch] scores for [query]: those that pass the
    filters of the intent, each with its scores. *)
Definition candidates (cal : Calendar) (now : Z) (query : string)
    (effectiveEmbeddings : gmap string Json.EmbEntry) (items : list Item)
    : list Json.Scored :=
  let intent := Json.parseSearchIntent cal query in
  map (Json.scoreItem now intent effectiveEmbeddings
         (Json.generateEmbedding (default query (Json.topicKeywords intent))))
      (List.filter
         (fun item => Json.passesTimeFilter intent item
                      && Json.passesTypeFilter intent item) items).

(** A run of chord events: key-downs and key-ups only. *)
Definition keyboardOnly (trace : list (Z * Overlay.Event)) : Prop :=
  Forall (fun timed =>
            match snd timed with
            | Overlay.KeyDown _ | Overlay.KeyUp _ => True
            | _ => False
            end) trace.

(** Where a quick release takes the machine, by the state the press
    started from. *)
Definition afterQuickRelease (origin : Overlay.OverlayState) : Overlay.OverlayState :=
  match origin with
  | Overlay.Hidden => Overlay.Latched
  | _ => Overlay.Hidden
  end.

(** What every run of chord events preserves: no drag is in progress, and
    a hold timer is pending only while pressing. *)
Definition chordInvariant (c : Overlay.Controller) : Prop :=
  Overlay.isDraggingInOverlay c = false /\
  (Overlay.overlayState c ≠ Overlay.Pressing -> Overlay.pressTimer c = None).

(** The disk after [createFileItem] has stored the blob of [filePath]. *)
Definition stored {host : Host} (filePath fileContent : string)
    (fs : gmap string string) : gmap string string :=
  let blob := vaultFile (sha256 fileContent +:+ extname (basename filePath)) in
  if bool_decide (is_Some (fs !! blob)) then fs else <[blob := fileContent]> fs.

(** Every maximal run of characters other than white space in [s] has at
    most two characters, [run] characters of the first run being already
    read. *)
Fixpoint shortRunsFrom (run : nat) (s : string) : bool :=
  match s with
  | EmptyString => true
  | String c s' =>
      if Js.isSpace c then shortRunsFrom 0 s'
      else (run <? 2)%nat && shortRunsFrom (S run) s'
  end.

Definition shortRuns (s : string) : bool := shortRunsFrom 0 s.

(** ** Vocabulary of the further statements *)

(** What enrichment may change of an item: the extraction tools and the
    models assign [metadata] and [searchableText], nothing else. *)
Definition enriches (item updated : Item) : Prop :=
  item_id updated = item_id item /\
  item_type updated = item_type item /\
  title updated = title item /\
  category updated = category item /\
  content updated = content item /\
  hash updated = hash item /\
  storagePath updated = storagePath item /\
  item_path updated = item_path item /\
  timestamp updated = timestamp item.

Definition withFiles (fs : gmap string string) (st : Json.Vault) : Json.Vault :=
  {| Json.files := fs; Json.items := Json.items st;
     Json.embeddings := Json.embeddings st; Json.pending := Json.pending st |}.

(** The vaults a first run can come to: captures under ids not in the
    index, deletions, searches, background callbacks that run to their
    end in any order, and changes of the disk outside the vault
    directory. *)
Inductive built {host : Host} : Json.Vault -> Prop :=
| built_first fs :
    built {| Json.files := fs; Json.items := []; Json.embeddings := ∅;
             Json.pending := [] |}
| built_text uuid now text st :
    built st -> uuid ∉ item_id <$> Json.items st ->
    built (snd (Json.addTextItem uuid now text st))
| built_link uuid now link linkTitle st :
    built st -> uuid ∉ item_id <$> Json.items st ->
    built (snd (Json.addItem (createLinkItem uuid now link linkTitle) st))
| built_file uuid now filePath st :
    built st -> uuid ∉ item_id <$> Json.items st ->
    built (snd (Json.addFileItem uuid now filePath st))
| built_delete key st :
    built st -> built (snd (Json.deleteItem key st))
| built_search cal now query st :
    built st -> built (snd (Json.smartSearch cal now query st))
| built_callback before t after written updated st :
    built st -> Json.pending st = before ++ t :: after ->
    enriches (Background.taskItem t) updated ->
    built (snd (Background.complete t written updated
                  (Background.dequeue (before ++ after) st)))
| built_disk fs st :
    built st ->
    (forall name, fs !! vaultFile name = Json.files st !! vaultFile name) ->
    built (withFiles fs st).

(** Every item of the index has an embedding record. *)
Definition indexed (st : Json.Vault) : Prop :=
  Forall (fun i => is_Some (Json.embeddings st !! item_id i)) (Json.items st).

(** The record of [i] carries no [path], and if [i] is an image or a
    file its blob is in the vault directory of the disk [fs]. *)
Definition blobKept {host : Host} (fs : gmap string string) (i : Item) : Prop :=
  item_path i = None /\
  (item_type i = TImage \/ item_type i = TFile ->
   exists name, storagePath i = Some (vaultFile name) /\ is_Some (fs !! vaultFile name)).

(** What every event preserves in the overlay controller: the window
    exists; the hold timer is pending exactly while pressing; the window is
    shown in every state but hidden; ['error'] is never entered; a press
    remembers whether it started from hidden or from latched. *)
Definition wellFormed (c : Overlay.Controller) : Prop :=
  Overlay.overlayWindow c = true /\
  (Overlay.pressTimer c <> None <-> Overlay.overlayState c = Overlay.Pressing) /\
  (Overlay.overlayState c <> Overlay.Hidden -> Overlay.overlayVisible c = true) /\
  Overlay.overlayState c <> Overlay.Failed /\
  (Overlay.overlayState c = Overlay.Pressing ->
   Overlay.stateBeforePressing c = Some Overlay.Hidden \/
   Overlay.stateBeforePressing c = Some Overlay.Latched).

(** A run in which the renderer never asks to hide the overlay. *)
Definition noHideRequest (trace : list (Z * Overlay.Event)) : Prop :=
  Forall (fun timed => snd timed <> Overlay.HideOverlay) trace.

(** A run during which a drag stays in progress: no hide request, and no
    report that the drag ended. *)
Definition dragGoesOn (trace : list (Z * Overlay.Event)) : Prop :=
  Forall (fun timed =>
            snd timed <> Overlay.HideOverlay /\
            snd timed <> Overlay.SetOverlayDragState false) trace.

(** A vault built on the demo host: an image is captured, then a note. *)
Definition demoBuilt : Json.Vault :=
  snd (Json.addTextItem "id-2" 9 "alpha beta"
         (snd (Json.addFileItem (host := Demo.host) "id-1" 5 "/home/u/cat.png"
                 Demo.vault0))).

(** The item is not dated after the instant [now]. *)
Definition notFromTheFuture (now : Z) (item : Item) : Prop :=
  match Json.createdAtStr item with
  | Some (DateAt created) => (created <= now)%Z
  | _ => True
  end.

(** The paths that [_captureDropPaths] extracts from the event of a
    listener; [dragleave] captures nothing. *)
Definition carried (ev : Preload.Dom) : list string :=
  match ev with
  | Preload.dragenter e | Preload.drop e =>
      omap id (imap (Preload.pathOf (Preload.uriListPaths e)) (Preload.dropped e))
  | Preload.dragleave => []
  end.

(** Reading the event of the listener does not raise. *)
Definition readable (ev : Preload.Dom) : Prop :=
  match ev with
  | Preload.dragenter e | Preload.drop e => Preload.throws e = false
  | Preload.dragleave => True
  end.

(** The number of [dragenter] events of a run. *)
Definition entered (events : list Preload.Dom) : Z :=
  Z.of_nat
    (length
       (List.filter
          (fun ev => match ev with Preload.dragenter _ => true | _ => false end)
          events)).

(** ** Vocabulary of the statements on both stores *)

(** [a] stands before [b] in [l]. *)
Definition precedes {A} (a b : A) (l : list A) : Prop :=
  exists l1 l2 l3, l = l1 ++ a :: l2 ++ b :: l3.

(** [l] is in descending order of [key] up to [margin]: no element stands
    behind one whose key is lower by more than [margin]. *)
Definition descendingUpTo {A} (margin : Q) (key : A -> Q) (l : list A) : Prop :=
  forall i j a b, (i < j)%nat -> l !! i = Some a -> l !! j = Some b ->
    (key b <= key a + margin)%Q.

(** One millionth.  The source computes the hybrid score in double
    precision; for every date that JavaScript can represent the score stays
    below 2 * 10^6 in absolute value, and what the roundings of its few
    operations lose stays below 10^-8. *)
Definition roundingMargin : Q := 1 # 1000000.

(** The similarity that [smartSearch] gives [item] for [query]. *)
Definition similarityOf (cal : Calendar) (query : string)
    (effectiveEmbeddings : gmap string Json.EmbEntry) (item : Item) : Q :=
  Json.semanticSimilarity
    (Json.generateEmbedding
       (default query (Json.topicKeywords (Json.parseSearchIntent cal query))))
    (default ∅ (Json.vector <$> effectiveEmbeddings !! item_id item)).

(** The hybrid score that [smartSearch] gives [item] for [query]. *)
Definition hybridOf (cal : Calendar) (now : Z) (query : string)
    (effectiveEmbeddings : gmap string Json.EmbEntry) (item : Item) : Q :=
  (similarityOf cal query effectiveEmbeddings item * (6 # 10)
   + Json.recencyOf now item * (3 # 10)
   + Json.typeScoreOf (Json.parseSearchIntent cal query) item * (1 # 10))%Q.

(** The items that pass the filters of the intent of [query], in the order
    of the item index. *)
Definition passing (cal : Calendar) (query : string) (items : list Item) : list Item :=
  List.filter
    (fun item => Json.passesTimeFilter (Json.parseSearchIntent cal query) item
                 && Json.passesTypeFilter (Json.parseSearchIntent cal query) item)
    items.

(** What [saveItem] gets from [extractFileMetadata] for [item]: the
    extraction runs, inside the call, when the blob of the item is on the
    disk. *)
Definition extractionOf {engine : Sqlite.Engine} (item : Item) (db : Sqlite.Db)
    : Sqlite.Extracted :=
  match storagePath item with
  | Some p =>
      if Sqlite.truthy p && bool_decide (is_Some (Sqlite.files db !! p))
      then Sqlite.extract item p else Sqlite.noExtraction
  | None => Sqlite.noExtraction
  end.

(** What a capture of the SQLite store leaves behind at the moment it
    returns [row]: the table has a row under the id of [row] with the
    title, the storage path, the hash and the embedding of the capture;
    the metadata extraction is done; the embedding is what the pipeline
    answered for the searchable text, which may be nothing. *)
Definition saved {host : Host} {engine : Sqlite.Engine}
    (item : Item) (row : Sqlite.Row) (before after : Sqlite.Db) : Prop :=
  (exists r, r ∈ Sqlite.rows after /\
     Sqlite.id r = Sqlite.id row /\
     Sqlite.r_title r = title item /\
     Sqlite.raw_path r = storagePath item /\
     Sqlite.r_hash r = hash item /\
     Sqlite.embedding r = Sqlite.embedding row) /\
  Sqlite.r_extracted row = extractionOf item before /\
  Sqlite.embedding row
  = Sqlite.generateEmbedding (Sqlite.buildSearchableText item (Sqlite.r_extracted row)).

(** The key-downs that the keyboard repeats while [keycode] is held:
    [count] of them, the first at [from], one every [every] ms. *)
Definition autoRepeat (keycode from every : Z) (count : nat)
    : list (Z * Overlay.Event) :=
  map (fun i => ((from + every * Z.of_nat i)%Z, Overlay.KeyDown keycode)) (seq 0 count).

(** Membership in a list that is written out. *)
Ltac in_list := repeat first [apply list_elem_of_here | apply list_elem_of_further].

(** * Properties *)

(** ** The stable descending sort *)

Section SortDescFacts.
Context {A : Type} (key : A -> Q).

Lemma insertDesc_perm x l : insertDesc key x l ≡ₚ x :: l.
Proof.
  induction l as [|y l IH]; simpl; [done|].
  destruct (Qle_bool (key y) (key x)); [done|].
  rewrite IH. apply Permutation_swap.
Qed.

Lemma sortDesc_perm l : sortDesc key l ≡ₚ l.
Proof.
  induction l as [|x l IH]; simpl; [done|].
  rewrite insertDesc_perm. by f_equiv.
Qed.

Lemma insertDesc_descending x l :
  descendingBy key l -> descendingBy key (insertDesc key x l).
Proof.
  unfold descendingBy. induction 1 as [|y l Hs IH Hall]; simpl.
  - repeat constructor.
  - destruct (Qle_bool (key y) (key x)) eqn:Hle.
    + apply Qle_bool_iff in Hle. constructor.
      * by constructor.
      * constructor; [done|].
        eapply Forall_impl; [exact Hall|].
        intros z Hz. simpl in *. eapply Qle_trans; [exact Hz|exact Hle].
    + constructor; [done|].
      rewrite insertDesc_perm. constructor; [|done].
      destruct (Qlt_le_dec (key y) (key x)) as [Hlt|Hge]; [|done].
      exfalso. apply Qlt_le_weak, Qle_bool_iff in Hlt. congruence.
Qed.

Lemma sortDesc_descending l : descendingBy key (sortDesc key l).
Proof.
  induction l as [|x l IH]; simpl.
  - constructor.
  - by apply insertDesc_descending.
Qed.

Lemma insertDesc_ties x l q :
  List.filter (fun a => Qeq_bool (key a) q) (insertDesc key x l)
  = List.filter (fun a => Qeq_bool (key a) q) (x :: l).
Proof.
  induction l as [|y l IH]; [done|]. simpl.
  destruct (Qle_bool (key y) (key x)) eqn:Hle; [done|].
  simpl in *. rewrite IH.
  destruct (Qeq_bool (key x) q) eqn:Hx; [|done].
  destruct (Qeq_bool (key y) q) eqn:Hy; [|done].
  apply Qeq_bool_iff in Hx, Hy.
  assert (Qle_bool (key y) (key x) = true); [|congruence].
  apply Qle_bool_iff. rewrite Hx, Hy. apply Qle_refl.
Qed.

Lemma sortDesc_ties l : keepsTies key l (sortDesc key l).
Proof.
  intros q. induction l as [|x l IH]; [done|]. simpl.
  rewrite insertDesc_ties. simpl. by rewrite IH.
Qed.
End SortDescFacts.

(** The sort keeps an element before every later element that does not
    have a greater key, whatever stands between them. *)
Section SortDescOrder.
Context {A : Type} (key : A -> Q).

Lemma precedes_cons (x a b : A) l : precedes a b l -> precedes a b (x :: l).
Proof. intros (l1 & l2 & l3 & ->). by exists (x :: l1), l2, l3. Qed.

Lemma precedes_head (a b : A) l : b ∈ l -> precedes a b (a :: l).
Proof.
  intros Hb. apply list_elem_of_split in Hb as (l2 & l3 & ->). by exists [], l2, l3.
Qed.

Lemma insertDesc_precedes x a b l :
  precedes a b l -> precedes a b (insertDesc key x l).
Proof.
  intros (l1 & l2 & l3 & ->).
  induction l1 as [|y l1 IH]; simpl.
  - destruct (Qle_bool (key a) (key x)).
    + by exists [x], l2, l3.
    + induction l2 as [|z l2 IH2]; simpl.
      * destruct (Qle_bool (key b) (key x)).
        -- by exists [], [x], l3.
        -- by exists [], [], (insertDesc key x l3).
      * destruct (Qle_bool (key z) (key x)).
        -- by exists [], (x :: z :: l2), l3.
        -- destruct IH2 as (m1 & m2 & m3 & Heq).
           destruct m1 as [|w m1]; simpl in Heq.
           ++ injection Heq as Heq. exists [], (z :: m2), m3. simpl. by rewrite Heq.
           ++ injection Heq as <- Heq.
              exists [], (z :: m1 ++ a :: m2), m3. simpl. rewrite Heq.
              by rewrite <- app_assoc.
  - destruct (Qle_bool (key y) (key x)).
    + by exists (x :: y :: l1), l2, l3.
    + by apply precedes_cons.
Qed.

Lemma insertDesc_before a b l :
  b ∈ l -> (key b <= key a)%Q -> precedes a b (insertDesc key a l).
Proof.
  intros Hb Hle. induction l as [|y l IH]; simpl.
  - by apply elem_of_nil in Hb.
  - destruct (Qle_bool (key y) (key a)) eqn:Hy.
    + by apply precedes_head.
    + apply precedes_cons, IH. apply elem_of_cons in Hb as [->|Hb]; [|done].
      apply Qle_bool_iff in Hle. congruence.
Qed.

Lemma sortDesc_precedes a b l :
  precedes a b l -> (key b <= key a)%Q -> precedes a b (sortDesc key l).
Proof.
  intros (l1 & l2 & l3 & ->) Hle. induction l1 as [|x l1 IH]; simpl.
  - apply insertDesc_before; [|done].
    rewrite sortDesc_perm. apply elem_of_app. right. apply list_elem_of_here.
  - by apply insertDesc_precedes.
Qed.

Lemma descendingBy_upTo margin l :
  (0 <= margin)%Q -> descendingBy key l -> descendingUpTo margin key l.
Proof.
  intros Hmargin Hsorted. unfold descendingBy in Hsorted.
  induction Hsorted as [|x l _ IH Hall]; intros i j a b Hij Ha Hb.
  - by rewrite lookup_nil in Ha.
  - destruct j as [|j]; [lia|]. simpl in Hb. destruct i as [|i]; simpl in Ha.
    + injection Ha as ->. rewrite Forall_forall in Hall.
      apply list_elem_of_lookup_2 in Hb. specialize (Hall _ Hb). simpl in Hall.
      rewrite <- (Qplus_0_r (key b)). by apply Qplus_le_compat.
    + apply (IH i j); [lia|done..].
Qed.

(** The sort reads its elements through their keys only. *)
Lemma sortDesc_fmap {B} (f : A -> B) (key' : B -> Q) l :
  (forall x, key' (f x) = key x) ->
  sortDesc key' (f <$> l) = f <$> sortDesc key l.
Proof.
  intros Hkey. induction l as [|x l IH]; [done|].
  rewrite fmap_cons. simpl. rewrite IH.
  generalize (sortDesc key l). intros s.
  induction s as [|y s IHs]; [done|].
  rewrite fmap_cons. simpl. rewrite !Hkey.
  destruct (Qle_bool (key y) (key x)); [done|]. by rewrite IHs.
Qed.
End SortDescOrder.

Lemma precedes_fmap {A B} (f : A -> B) a b (l : list A) :
  precedes a b l -> precedes (f a) (f b) (f <$> l).
Proof.
  intros (l1 & l2 & l3 & ->). exists (f <$> l1), (f <$> l2), (f <$> l3).
  by rewrite fmap_app, fmap_cons, fmap_app, fmap_cons.
Qed.

Lemma filter_fmap_row {A} (f : A -> A) (P : A -> Prop) `{!forall x, Decision (P x)}
    (l : list A) :
  (forall x, P (f x) <-> P x) -> filter P (f <$> l) = f <$> filter P l.
Proof.
  intros HP. induction l as [|x l IH]; [done|]. rewrite fmap_cons.
  destruct (decide (P x)) as [Hx|Hx].
  - rewrite (filter_cons_True P (f x)) by (by apply HP).
    rewrite (filter_cons_True P x) by done. by rewrite fmap_cons, IH.
  - rewrite (filter_cons_False P (f x)) by (by rewrite HP).
    by rewrite (filter_cons_False P x).
Qed.

Lemma fmap_map_id {A B} (f : A -> B) (g : B -> A) (l : list A) :
  (forall x, g (f x) = x) -> g <$> map f l = l.
Proof.
  intros Hgf. induction l as [|x l IH]; [done|].
  cbn [map fmap list_fmap]. rewrite Hgf. f_equal. exact IH.
Qed.

(** ** Lists and strings *)

Lemma filter_all {A} (P : A -> Prop) `{!forall x, Decision (P x)} (l : list A) :
  Forall P l -> filter P l = l.
Proof.
  induction 1 as [|x l Hx _ IH]; [done|].
  rewrite filter_cons_True by done. by rewrite IH.
Qed.

Lemma filter_none {A} (P : A -> Prop) `{!forall x, Decision (P x)} (l : list A) :
  Forall (fun x => ~ P x) l -> filter P l = [].
Proof.
  induction 1 as [|x l Hx _ IH]; [done|].
  by rewrite filter_cons_False.
Qed.

Lemma find_id_absent (key : string) (l : list Item) :
  Forall (fun i => item_id i ≠ key) l ->
  find (fun i => String.eqb (item_id i) key) l = None.
Proof.
  induction 1 as [|x l Hx _ IH]; [done|]. simpl.
  apply String.eqb_neq in Hx. by rewrite Hx.
Qed.

(** ** Words of at most two characters *)

Lemma split_ws_shape s :
  exists t ts, Js.split_ws s = t :: ts /\
               (Js.startsWithSpace s = true -> t = EmptyString).
Proof.
  induction s as [|c s (t & ts & Heq & Hsp)]; simpl.
  - by eexists _, _.
  - rewrite Heq. destruct (Js.isSpace c) eqn:Hc.
    + destruct (Js.startsWithSpace s) eqn:Hs; eexists _, _; (split; [done|]); auto.
    + eexists _, _. split; [done|]. done.
Qed.

Lemma shortRunsFrom_tokens s k :
  (k <= 2)%nat ->
  shortRunsFrom k s = true <->
  exists t ts, Js.split_ws s = t :: ts /\ (k + String.length t <= 2)%nat /\
               Forall (fun w => (String.length w <= 2)%nat) ts.
Proof.
  revert k. induction s as [|c s IH]; intros k Hk; simpl.
  - split; [|done]. intros _. eexists _, _. split; [done|]. simpl. split; [lia|done].
  - destruct (split_ws_shape s) as (t & ts & Heq & Hsp). rewrite Heq.
    destruct (Js.isSpace c) eqn:Hc.
    + rewrite (IH 0%nat) by lia. rewrite Heq. split.
      * intros (t' & ts' & [= <- <-] & Ht & Hts).
        destruct (Js.startsWithSpace s) eqn:Hs.
        -- rewrite (Hsp eq_refl) in *. eexists _, _. split; [done|]. simpl. split; [lia|done].
        -- eexists _, _. split; [done|]. simpl. split; [lia|]. constructor; [lia|done].
      * destruct (Js.startsWithSpace s) eqn:Hs.
        -- intros (t' & ts' & [= <- <-] & Ht & Hts). eexists _, _. split; [done|].
           rewrite (Hsp eq_refl). simpl. split; [lia|done].
        -- intros (t' & ts' & [= <- <-] & Ht & Hts). inversion Hts; subst.
           eexists _, _. split; [done|]. split; [lia|done].
    + rewrite andb_true_iff, Nat.ltb_lt. split.
      * intros [Hlt Hrest]. apply IH in Hrest; [|lia]. rewrite Heq in Hrest.
        destruct Hrest as (t' & ts' & [= <- <-] & Ht & Hts).
        eexists _, _. split; [done|]. simpl. split; [lia|done].
      * intros (t' & ts' & [= <- <-] & Ht & Hts). simpl in Ht. split; [lia|].
        apply IH; [lia|]. rewrite Heq. eexists _, _. split; [done|]. split; [lia|done].
Qed.

Lemma shortRuns_tokens s :
  shortRuns s = true <->
  Forall (fun w => (String.length w <= 2)%nat) (Js.split_ws s).
Proof.
  unfold shortRuns. rewrite shortRunsFrom_tokens by lia. split.
  - intros (t & ts & -> & Ht & Hts). constructor; [simpl in Ht; lia|done].
  - intros Hall. destruct (split_ws_shape s) as (t & ts & Heq & _).
    rewrite Heq in Hall. inversion Hall; subst.
    eexists _, _. split; [done|]. simpl. split; [lia|done].
Qed.

Lemma shortRunsFrom_mono s j k :
  (j <= k)%nat -> shortRunsFrom k s = true -> shortRunsFrom j s = true.
Proof.
  revert j k. induction s as [|c s IH]; intros j k Hjk; simpl; [done|].
  destruct (Js.isSpace c); [done|].
  rewrite !andb_true_iff, !Nat.ltb_lt. intros [Hk Hrest].
  split; [lia|]. apply (IH (S j) (S k)); [lia|done].
Qed.

Lemma shortRunsFrom_prefix p s k :
  Js.startsWith p s = true -> shortRunsFrom k s = true -> shortRunsFrom k p = true.
Proof.
  revert s k. induction p as [|a p IH]; intros s k; [done|].
  destruct s as [|b s]; simpl; [done|].
  rewrite andb_true_iff. intros [Hab Hp]. apply Ascii.eqb_eq in Hab as ->.
  destruct (Js.isSpace b); [by apply IH|].
  rewrite !andb_true_iff. intros [Hk Hs]. split; [done|]. by apply (IH s).
Qed.

Lemma shortRuns_includes p s :
  shortRuns s = true -> Js.includes p s = true -> shortRuns p = true.
Proof.
  unfold shortRuns. induction s as [|c s IH]; simpl.
  - intros _. rewrite orb_false_r. destruct p; [done|done].
  - intros Hs. rewrite orb_true_iff. intros [Hpre|Hinc].
    + by apply (shortRunsFrom_prefix p (String c s)).
    + apply IH; [|done]. destruct (Js.isSpace c); [done|].
      simpl in Hs. apply (shortRunsFrom_mono s 0 1); [lia|done].
Qed.

Lemma removeFirst_absent p s :
  Js.includes p s = false -> Js.removeFirst p s = s.
Proof.
  induction s as [|c s IH]; simpl.
  - destruct (Js.startsWith p EmptyString); [|done]. by destruct (String.length p).
  - rewrite orb_false_iff. intros [-> Hinc]. by rewrite IH.
Qed.

Lemma matchAlt_absent alts prev s :
  Forall (fun a => Js.startsWith a s = false) alts -> Js.matchAlt alts prev s = None.
Proof.
  induction 1 as [|a alts Ha _ IH]; simpl; [done|].
  rewrite Ha. by rewrite andb_false_r.
Qed.

Lemma removeAllAlt_absent alts prev s :
  Forall (fun a => Js.includes a s = false) alts ->
  Js.removeAllAlt alts prev 0 s = s.
Proof.
  revert prev. induction s as [|c s IH]; intros prev Hall; simpl; [done|].
  rewrite matchAlt_absent.
  - rewrite IH; [done|]. eapply Forall_impl; [exact Hall|].
    intros a. simpl. rewrite orb_false_iff. tauto.
  - eapply Forall_impl; [exact Hall|].
    intros a. simpl. rewrite orb_false_iff. tauto.
Qed.

Lemma isSpace_lowerChar c : Js.isSpace (Js.lowerChar c) = Js.isSpace c.
Proof. destruct c as [[] [] [] [] [] [] [] []]; reflexivity. Qed.

Lemma shortRunsFrom_toLowerCase s k :
  shortRunsFrom k (Js.toLowerCase s) = shortRunsFrom k s.
Proof.
  revert k. induction s as [|c s IH]; intros k; simpl; [done|].
  rewrite isSpace_lowerChar. by rewrite !IH.
Qed.

Lemma shortRuns_trimStart s :
  shortRuns s = true -> shortRuns (Js.trimStart s) = true.
Proof.
  unfold shortRuns. induction s as [|c s IH]; simpl; [done|].
  destruct (Js.isSpace c) eqn:Hc; [done|]. simpl. by rewrite Hc.
Qed.

Lemma shortRunsFrom_trimEnd s k :
  shortRunsFrom k s = true -> shortRunsFrom k (Js.trimEnd s) = true.
Proof.
  revert k. induction s as [|c s IH]; intros k; [done|].
  cbn [Js.trimEnd]. destruct (Js.allSpace (String c s)); [done|].
  simpl. destruct (Js.isSpace c); [apply IH|].
  rewrite !andb_true_iff. intros [? ?]. split; [done|]. by apply IH.
Qed.

Lemma shortRuns_trim s : shortRuns s = true -> shortRuns (Js.trim s) = true.
Proof.
  intros Hs. unfold Js.trim. apply shortRunsFrom_trimEnd. by apply shortRuns_trimStart.
Qed.

Lemma topic_of_short_query cal query :
  shortRuns (Js.toLowerCase query) = true ->
  shortRuns
    (Js.toLowerCase
       (default query (Json.topicKeywords (Json.parseSearchIntent cal query)))) = true.
Proof.
  intros Hshort.
  assert (forall p, shortRuns p = false -> Js.includes p (Js.toLowerCase query) = false)
    as Habsent.
  { intros p Hp. destruct (Js.includes p (Js.toLowerCase query)) eqn:Hinc; [|done].
    rewrite (shortRuns_includes p _ Hshort Hinc) in Hp. done. }
  unfold Json.parseSearchIntent. cbn [Json.topicKeywords].
  unfold Json.timeSignals, Json.typeSignals. cbn [foldl Json.phraseText].
  repeat (rewrite (removeFirst_absent _ (Js.toLowerCase query))
            by (apply Habsent; reflexivity)).
  rewrite removeAllAlt_absent.
  2:{ unfold Json.commandWords. repeat constructor; apply Habsent; reflexivity. }
  destruct (String.eqb _ _); cbn [default]; [done|].
  unfold shortRuns. rewrite shortRunsFrom_toLowerCase.
  apply shortRuns_trim. done.
Qed.

(** ** Bag-of-words embeddings *)

Lemma countWord_dom (ws : list string) (e : gmap string nat) (w : string) :
  w ∈ dom (foldl Json.countWord e ws) -> w ∈ dom e \/ w ∈ ws.
Proof.
  revert e. induction ws as [|w' ws IH]; intros e Hw; simpl in *; [by left|].
  apply IH in Hw as [Hw|Hw]; [|right; by constructor].
  unfold Json.countWord in Hw.
  destruct (String.eqb w' "__proto__"); [by left|].
  rewrite dom_insert_L in Hw. apply elem_of_union in Hw as [Hw|Hw]; [|by left].
  apply elem_of_singleton in Hw as ->. right. constructor.
Qed.

Lemma generateEmbedding_keys (text w : string) :
  w ∈ dom (Json.generateEmbedding text) ->
  w ∈ Js.split_ws (Js.toLowerCase text) /\ (2 < String.length w)%nat.
Proof.
  intros Hw. apply countWord_dom in Hw as [Hw|Hw]; [set_solver|].
  unfold Json.words in Hw. apply list_elem_of_filter in Hw. tauto.
Qed.

Lemma semanticSimilarity_empty_l (e : gmap string nat) :
  (Json.semanticSimilarity ∅ e == 0)%Q.
Proof.
  unfold Json.semanticSimilarity. rewrite dom_empty_L.
  destruct (_ =? _)%nat; [done|].
  rewrite (left_absorb_L ∅ (∩)), size_empty. done.
Qed.

Lemma generateEmbedding_short (text : string) :
  Forall (fun w => (String.length w <= 2)%nat) (Js.split_ws (Js.toLowerCase text)) ->
  Json.generateEmbedding text = ∅.
Proof.
  intros Hshort. unfold Json.generateEmbedding, Json.words.
  rewrite filter_none; [done|].
  eapply Forall_impl; [exact Hshort|]. simpl. lia.
Qed.

(** ** Deleting *)

Lemma Json_deleteItem_items (key : string) (st : Json.Vault) :
  Json.items (snd (Json.deleteItem key st))
  = filter (fun i => item_id i ≠ key) (Json.items st) /\
  Json.embeddings (snd (Json.deleteItem key st)) = Json.embeddings st /\
  Json.pending (snd (Json.deleteItem key st)) = Json.pending st /\
  fst (Json.deleteItem key st) = Ok tt.
Proof.
  unfold Json.deleteItem, Json.bind, Json.loadItems, Json.saveItems. simpl.
  destruct (find _ _) as [it|]; [|done].
  destruct (decide _); [|done].
  unfold Json.tryCatch, Json.unlinkSync.
  destruct (item_path it) as [p|]; [|done].
  by destruct (Json.files st !! p).
Qed.

(** C9.  Deleting an id that no item of the index carries raises nothing
    and leaves the index, and the whole vault, as it was; the same holds
    of the SQLite store. *)
Theorem C9_delete_absent_is_noop (key : string) (st : Json.Vault) (db : Sqlite.Db) :
  Forall (fun i => item_id i ≠ key) (Json.items st) ->
  Forall (fun r => Sqlite.id r ≠ key) (Sqlite.rows db) ->
  Json.deleteItem key st = (Ok tt, st) /\ Sqlite.deleteItem key db = db.
Proof.
  intros Hst Hdb. split.
  - unfold Json.deleteItem, Json.bind, Json.loadItems, Json.saveItems. simpl.
    rewrite find_id_absent by done. simpl.
    rewrite filter_all by done. by destruct st.
  - unfold Sqlite.deleteItem. rewrite filter_all by done. by destruct db.
Qed.

Lemma C9_witness :
  Json.deleteItem "id-z" Demo.legacyVault = (Ok tt, Demo.legacyVault) /\
  Sqlite.deleteItem "id-z" Demo.db0 = Demo.db0.
Proof.
  apply (C9_delete_absent_is_noop "id-z" Demo.legacyVault Demo.db0).
  - repeat constructor. vm_compute. discriminate.
  - constructor.
Defined.

(** C1, as the specification states it, fails: after an image is captured
    and then deleted from the JSON store, its embedding record and its blob
    are still there although no other item shares the hash; in the SQLite
    store the blob stays as well. *)
Lemma C1_counterexample :
  match Json.addFileItem (host := Demo.host) "id-1" 5 "/home/u/cat.png" Demo.vault0 with
  | (Ok item, st1) =>
      match Json.deleteItem (item_id item) st1 with
      | (_, st2) =>
          Json.items st2 = [] /\
          Json.embeddings st2 !! item_id item <> None /\
          storagePath item = Some "/vault/504e4744415441.png" /\
          Json.files st2 !! "/vault/504e4744415441.png" = Some "PNGDATA"
      end
  | (Err _, _) => False
  end /\
  match Sqlite.addFileItem (host := Demo.host) (engine := Demo.lengthEngine)
          "id-1" 5 "/home/u/cat.png" Demo.db0 with
  | (Ok row, db1) =>
      let db2 := Sqlite.deleteItem (Sqlite.id row) db1 in
      Sqlite.rows db2 = [] /\
      Sqlite.raw_path row = Some "/vault/504e4744415441.png" /\
      Sqlite.files db2 !! "/vault/504e4744415441.png" = Some "PNGDATA"
  | (Err _, _) => False
  end.
Proof. vm_compute. repeat split; discriminate. Qed.

(** C1, amended.  After [deleteItem(id)] no item of the index carries the
    id and every other item is kept.  The JSON store leaves the embedding
    index as it was (a record keyed by the id survives); in the SQLite
    store the embedding is a column of the deleted row and goes with it,
    and the files of the vault are not touched. *)
Theorem C1_delete_removes_the_record (key : string) (st : Json.Vault) (db : Sqlite.Db) :
  (fst (Json.deleteItem key st) = Ok tt /\
   Forall (fun i => item_id i ≠ key) (Json.items (snd (Json.deleteItem key st))) /\
   (forall i, item_id i ≠ key ->
      i ∈ Json.items (snd (Json.deleteItem key st)) <-> i ∈ Json.items st) /\
   Json.embeddings (snd (Json.deleteItem key st)) = Json.embeddings st) /\
  (Forall (fun r => Sqlite.id r ≠ key) (Sqlite.rows (Sqlite.deleteItem key db)) /\
   (forall r, Sqlite.id r ≠ key ->
      r ∈ Sqlite.rows (Sqlite.deleteItem key db) <-> r ∈ Sqlite.rows db) /\
   Sqlite.files (Sqlite.deleteItem key db) = Sqlite.files db).
Proof.
  destruct (Json_deleteItem_items key st) as (Hitems & Hemb & _ & Hok).
  split; [rewrite Hitems, Hemb, Hok|unfold Sqlite.deleteItem; simpl].
  - repeat split; try done.
    + apply Forall_forall. intros i Hi. by apply list_elem_of_filter in Hi as [? _].
    + intros Hi. by apply list_elem_of_filter in Hi as [_ ?].
    + intros Hi. by apply list_elem_of_filter.
  - repeat split; try done.
    + apply Forall_forall. intros r Hr. by apply list_elem_of_filter in Hr as [? _].
    + intros Hr. by apply list_elem_of_filter in Hr as [_ ?].
    + intros Hr. by apply list_elem_of_filter.
Qed.

(** ** Capturing *)

Lemma Json_addItem_spec (item : Item) (st : Json.Vault) :
  Json.addItem item st =
  (Ok item,
   {| Json.files := Json.files st;
      Json.items := Json.items st ++ [item];
      Json.embeddings := <[item_id item := initialEmbedding item]> (Json.embeddings st);
      Json.pending := Json.pending st ++ [Json.LLMEnrichment item] |}).
Proof. reflexivity. Qed.

Lemma Json_addItem_captured (item : Item) (st : Json.Vault) :
  fst (Json.addItem item st) = Ok item /\
  captured item [Json.LLMEnrichment item] st (snd (Json.addItem item st)).
Proof.
  rewrite Json_addItem_spec. split; [done|]. split; [done|]. split; [|done].
  simpl. apply lookup_insert_eq.
Qed.

Section FileCapture.
Context {host : Host}.

Lemma Json_createFileItem_accepts uuid now filePath fileContent st :
  Json.files st !! filePath = Some fileContent ->
  Js.trim filePath ≠ EmptyString ->
  isRejectedFile filePath = false ->
  Json.createFileItem uuid now filePath st =
  (Ok (fileItemOf uuid now filePath fileContent),
   {| Json.files := stored filePath fileContent (Json.files st);
      Json.items := Json.items st;
      Json.embeddings :=
        <[uuid := initialEmbedding (fileItemOf uuid now filePath fileContent)]>
          (Json.embeddings st);
      Json.pending :=
        Json.pending st ++
        [Json.MetadataExtraction (fileItemOf uuid now filePath fileContent) filePath] |}).
Proof.
  intros Hfile Hblank Hrej. unfold Json.createFileItem.
  apply String.eqb_neq in Hblank. rewrite Hblank. cbv beta iota.
  assert (bool_decide (is_Some (Json.files st !! filePath)) = true) as Hex.
  { apply bool_decide_eq_true. rewrite Hfile. eauto. }
  unfold Json.bind at 1. unfold Json.existsSync at 1. cbv beta iota.
  rewrite Hex. cbn [negb]. cbv beta iota. rewrite Hrej. cbv beta iota.
  unfold Json.bind at 1. unfold Json.readFileSync. cbv beta iota.
  rewrite Hfile. cbv beta iota.
  unfold Json.bind at 1. unfold Json.existsSync at 1. cbv beta iota.
  unfold stored. fold (fileItemOf uuid now filePath fileContent). cbv zeta.
  clear Hex.
  destruct (bool_decide (is_Some (Json.files st !! vaultFile _))) eqn:Hblob;
    cbn [negb]; cbv beta iota.
  - reflexivity.
  - unfold Json.bind at 1. unfold Json.copyFileSync. cbv beta iota.
    rewrite Hfile. reflexivity.
Qed.

Lemma Json_createFileItem_rejects uuid now filePath fileContent st :
  Json.files st !! filePath = Some fileContent ->
  Js.trim filePath ≠ EmptyString ->
  isRejectedFile filePath = true ->
  Json.createFileItem uuid now filePath st =
  (Err ("File rejected: " +:+ getRejectionReason filePath), st).
Proof.
  intros Hfile Hblank Hrej. unfold Json.createFileItem.
  apply String.eqb_neq in Hblank. rewrite Hblank. cbv beta iota.
  assert (bool_decide (is_Some (Json.files st !! filePath)) = true) as Hex.
  { apply bool_decide_eq_true. rewrite Hfile. eauto. }
  unfold Json.bind at 1. unfold Json.existsSync at 1. cbv beta iota.
  rewrite Hex. cbn [negb]. cbv beta iota. by rewrite Hrej.
Qed.

Lemma Json_createFileItem_fails uuid now filePath st :
  Json.files st !! filePath = None \/ Js.trim filePath = EmptyString ->
  exists msg, Json.createFileItem uuid now filePath st = (Err msg, st).
Proof.
  intros Hbad. unfold Json.createFileItem.
  destruct (String.eqb (Js.trim filePath) EmptyString) eqn:Hblank.
  { by eexists. }
  destruct Hbad as [Hnone|Hbad]; [|apply String.eqb_neq in Hblank; done].
  assert (bool_decide (is_Some (Json.files st !! filePath)) = false) as Hex.
  { apply bool_decide_eq_false. rewrite Hnone. by intros [??]. }
  unfold Json.bind at 1. unfold Json.existsSync at 1. cbv beta iota.
  rewrite Hex. cbn [negb]. by eexists.
Qed.

Lemma stored_keeps filePath fileContent fs p bytes :
  fs !! p = Some bytes -> stored filePath fileContent fs !! p = Some bytes.
Proof.
  intros Hp. unfold stored. case_bool_decide as Hblob; [done|].
  rewrite lookup_insert_ne; [done|]. intros <-. apply Hblob. eauto.
Qed.

Lemma stored_idemp filePath fileContent fs :
  stored filePath fileContent (stored filePath fileContent fs)
  = stored filePath fileContent fs.
Proof.
  unfold stored at 1. rewrite bool_decide_true; [done|].
  unfold stored. case_bool_decide as Hblob; [done|].
  rewrite lookup_insert_eq. eauto.
Qed.

Lemma stored_has_blob filePath fileContent fs :
  is_Some (stored filePath fileContent fs
           !! vaultFile (sha256 fileContent +:+ extname (basename filePath))).
Proof.
  unfold stored. case_bool_decide as Hblob; [done|].
  rewrite lookup_insert_eq. eauto.
Qed.

Lemma stored_dom filePath fileContent fs :
  dom (stored filePath fileContent fs)
  = dom fs ∪ {[vaultFile (sha256 fileContent +:+ extname (basename filePath))]}.
Proof.
  unfold stored. case_bool_decide as Hblob.
  - apply elem_of_dom in Hblob. symmetry. rewrite (comm_L (∪)).
    apply subseteq_union_1_L. by apply singleton_subseteq_l.
  - by rewrite dom_insert_L, (comm_L (∪)).
Qed.

Lemma rejected_not_allowed (ext : string) :
  listIncludes REJECTED_TYPES ext = true -> mapLookup FILE_TYPE_MAP ext = None.
Proof.
  unfold listIncludes. rewrite existsb_exists. intros (x & Hin & Heq).
  apply String.eqb_eq in Heq as <-.
  repeat (destruct Hin as [<-|Hin]; [reflexivity|]). destruct Hin.
Qed.

(** C4, amended.  For a file that exists: if its lower-cased extension
    is on the reject list, [addFileItem] throws "File rejected: <reason>"
    and leaves the content store, the item index and the embedding index
    as they were, and such an extension is never on the allow list; any
    other extension, on the allow list or not, is accepted, with the
    category of the allow list or else "documents". *)
Theorem C4_rejection_follows_the_reject_list uuid now filePath fileContent st :
  Json.files st !! filePath = Some fileContent ->
  Js.trim filePath ≠ EmptyString ->
  if isRejectedFile filePath then
    Json.addFileItem uuid now filePath st
      = (Err ("File rejected: " +:+ getRejectionReason filePath), st) /\
    mapLookup FILE_TYPE_MAP (Js.toLowerCase (extname filePath)) = None
  else
    exists item st',
      Json.addFileItem uuid now filePath st = (Ok item, st') /\
      category item
        = default Documents
            (mapLookup FILE_TYPE_MAP (Js.toLowerCase (extname filePath))) /\
      Json.items st' = Json.items st ++ [item].
Proof.
  intros Hfile Hblank. destruct (isRejectedFile filePath) eqn:Hrej.
  - split; [|by apply rejected_not_allowed].
    unfold Json.addFileItem, Json.bind.
    by rewrite (Json_createFileItem_rejects _ _ _ fileContent).
  - eexists _, _. unfold Json.addFileItem, Json.bind.
    rewrite (Json_createFileItem_accepts _ _ _ fileContent) by done.
    rewrite Json_addItem_spec. done.
Qed.

(** On the JSON store: when [addTextItem], [addItem] of a link, or
    [addFileItem] returns an item, that item is in the item index and its
    initial embedding is in the embedding index under its id, while the
    enrichment tasks of the item are still in the queue. *)
Lemma Json_capture_is_indexed uuid now st :
  (forall text,
     let item := createTextItem uuid now text in
     fst (Json.addTextItem uuid now text st) = Ok item /\
     captured item [Json.LLMEnrichment item] st
              (snd (Json.addTextItem uuid now text st))) /\
  (forall link linkTitle,
     let item := createLinkItem uuid now link linkTitle in
     fst (Json.addItem item st) = Ok item /\
     captured item [Json.LLMEnrichment item] st (snd (Json.addItem item st))) /\
  (forall filePath item st',
     Json.addFileItem uuid now filePath st = (Ok item, st') ->
     item_id item = uuid /\
     captured item
       [Json.MetadataExtraction item filePath; Json.LLMEnrichment item] st st').
Proof.
  split; [|split].
  - intros text item. apply Json_addItem_captured.
  - intros link linkTitle item. apply Json_addItem_captured.
  - intros filePath item st' Hadd.
    unfold Json.addFileItem, Json.bind in Hadd.
    destruct (Json.files st !! filePath) as [fileContent|] eqn:Hfile; cycle 1.
    { destruct (Json_createFileItem_fails uuid now filePath st) as [msg Hmsg];
        [by left|]. by rewrite Hmsg in Hadd. }
    destruct (String.eqb (Js.trim filePath) EmptyString) eqn:Hblank.
    { apply String.eqb_eq in Hblank.
      destruct (Json_createFileItem_fails uuid now filePath st) as [msg Hmsg];
        [by right|]. by rewrite Hmsg in Hadd. }
    apply String.eqb_neq in Hblank.
    destruct (isRejectedFile filePath) eqn:Hrej.
    { by rewrite (Json_createFileItem_rejects _ _ _ fileContent) in Hadd. }
    rewrite (Json_createFileItem_accepts _ _ _ fileContent) in Hadd by done.
    rewrite Json_addItem_spec in Hadd. injection Hadd as <- <-.
    split; [done|]. split; [done|]. split.
    + simpl. apply lookup_insert_eq.
    + simpl. by rewrite <- app_assoc.
Qed.
End FileCapture.

Lemma C4_witness :
  Json.addFileItem (host := Demo.host) "id-1" 5 "/home/u/song.mp3" Demo.vault0
    = (Err "File rejected: Audio files not supported", Demo.vault0) /\
  mapLookup FILE_TYPE_MAP ".mp3" = None.
Proof.
  exact (C4_rejection_follows_the_reject_list (host := Demo.host)
           "id-1" 5 "/home/u/song.mp3" "la" Demo.vault0
           eq_refl ltac:(vm_compute; discriminate)).
Defined.

(** C4, as the specification states it, fails: [.xyz] is neither on the
    reject list nor on the allow list, yet the file is captured (as a
    document) and the three stores change. *)
Lemma C4_counterexample :
  isRejectedFile (host := Demo.host) "/home/u/notes.xyz" = false /\
  mapLookup FILE_TYPE_MAP
    (Js.toLowerCase (extname (Host := Demo.host) "/home/u/notes.xyz")) = None /\
  match Json.addFileItem (host := Demo.host) "id-1" 5 "/home/u/notes.xyz" Demo.vault0 with
  | (Ok item, st') =>
      category item = Documents /\
      Json.items st' = [item] /\
      Json.embeddings st' !! "id-1" <> None /\
      Json.files st' !! "/vault/68656c6c6f.xyz" = Some "hello" /\
      Json.files Demo.vault0 !! "/vault/68656c6c6f.xyz" = None
  | (Err _, _) => False
  end.
Proof. vm_compute. repeat split; discriminate. Qed.

(** ** Searching *)

Lemma backfill_covers (l : list Item) (m : gmap string Json.EmbEntry) (k : string) :
  is_Some (m !! k) \/ k ∈ map item_id l ->
  is_Some
    (foldl (fun backfilled item => <[item_id item := Json.backfillEntry item]> backfilled)
           m l !! k).
Proof.
  revert m. induction l as [|i l IH]; intros m [Hm|Hk]; simpl.
  - done.
  - by apply elem_of_nil in Hk.
  - apply IH. left. destruct (decide (item_id i = k)) as [->|Hne].
    + rewrite lookup_insert_eq. eauto.
    + by rewrite lookup_insert_ne.
  - apply IH. simpl in Hk. apply elem_of_cons in Hk as [->|Hk]; [left|by right].
    rewrite lookup_insert_eq. eauto.
Qed.

Lemma Json_smartSearch_spec cal now query st :
  let eff :=
    if bool_decide (Json.items st ≠ [] /\ Json.embeddings st = ∅)
    then Json.backfill (Json.items st) else Json.embeddings st in
  exists r,
    Json.smartSearch cal now query st
    = (Ok r, {| Json.files := Json.files st; Json.items := Json.items st;
                Json.embeddings := eff; Json.pending := Json.pending st |}) /\
    Json.results r
    = Json.rank now (Json.parseSearchIntent cal query) eff query (Json.items st).
Proof.
  destruct st as [fs its emb pend].
  cbn [Json.items Json.embeddings Json.files Json.pending].
  destruct its as [|i its].
  - rewrite bool_decide_false by (by intros [? _]).
    eexists. split; reflexivity.
  - destruct (decide (emb = ∅)) as [->|Hne].
    + rewrite bool_decide_true by done.
      eexists. split; reflexivity.
    + rewrite bool_decide_false by (by intros [_ ?]).
      unfold Json.smartSearch, Json.bind, Json.loadItems, Json.getItemEmbeddings.
      cbn [Json.items Json.embeddings Json.files Json.pending length Nat.eqb
           Nat.ltb Nat.leb andb].
      destruct (size emb =? 0)%nat eqn:Hsz.
      { apply Nat.eqb_eq, map_size_empty_iff in Hsz. done. }
      eexists. split; reflexivity.
Qed.

(** C3, as the specification states it, fails: on a vault that holds an
    item and no embedding, a search writes an embedding record. *)
Lemma C3_counterexample :
  Json.embeddings Demo.legacyVault = ∅ /\
  Json.embeddings
    (snd (Json.smartSearch (Demo.calendarAt 1000) 1000 "alpha" Demo.legacyVault))
    !! "id-a" <> None.
Proof. vm_compute. split; [reflexivity|discriminate]. Qed.

(** C3, amended.  [smartSearch] returns a result and leaves the files, the
    item index and the task queue as they were.  It leaves the embedding
    index as it was unless the index is empty while items exist; in that
    case it writes the backfill, which has a record for every item. *)
Theorem C3_search_writes_only_the_backfill cal now query st :
  (exists r, fst (Json.smartSearch cal now query st) = Ok r) /\
  Json.files (snd (Json.smartSearch cal now query st)) = Json.files st /\
  Json.items (snd (Json.smartSearch cal now query st)) = Json.items st /\
  Json.pending (snd (Json.smartSearch cal now query st)) = Json.pending st /\
  Json.embeddings (snd (Json.smartSearch cal now query st))
  = (if bool_decide (Json.items st ≠ [] /\ Json.embeddings st = ∅)
     then Json.backfill (Json.items st) else Json.embeddings st) /\
  Forall (fun i => is_Some (Json.backfill (Json.items st) !! item_id i))
         (Json.items st).
Proof.
  destruct (Json_smartSearch_spec cal now query st) as (r & -> & _). simpl.
  repeat split; eauto.
  apply Forall_forall. intros i Hi. apply backfill_covers. right.
  by apply list_elem_of_fmap_2.
Qed.


Lemma candidates_scores cal now query eff items :
  Forall (fun s =>
            Json._searchScore s = hybridScore s /\
            Json._recencyScore s = Json.recencyOf now (Json.s_item s) /\
            Json._semanticScore s
            = Json.semanticSimilarity
                (Json.generateEmbedding
                   (default query
                      (Json.topicKeywords (Json.parseSearchIntent cal query))))
                (default ∅ (Json.vector <$> eff !! item_id (Json.s_item s))))
         (candidates cal now query eff items).
Proof.
  unfold candidates. apply Forall_forall. intros s Hs.
  apply list_elem_of_fmap in Hs as (item & -> & _). done.
Qed.


(** ** The overlay state machine *)

Section OverlayFacts.
Import Overlay.
Local Open Scope Z_scope.

Lemma setOverlayState_invariant now newState c :
  chordInvariant c -> chordInvariant (setOverlayState now newState c).
Proof.
  intros [Hdrag Htimer]. unfold setOverlayState.
  destruct (decide (overlayState c = newState)) as [|Hne]; [done|].
  destruct c as [os sbp pt pst alt d drag win vis]. simpl in *. subst drag.
  destruct newState, win, vis, os; simpl; split; try done.
Qed.

Lemma step_invariant c timed :
  match snd timed with KeyDown _ | KeyUp _ => True | _ => False end ->
  chordInvariant c -> chordInvariant (step c timed).
Proof.
  destruct timed as [now ev]. simpl. intros Hkey Hinv.
  assert (chordInvariant (advance now c)) as Hadv.
  { unfold advance. destruct (pressTimer c) as [due|] eqn:Hdue; [|done].
    destruct (due <=? now); [|done].
    apply setOverlayState_invariant. destruct Hinv as [Hdrag _].
    split; [by destruct c|]. by destruct c. }
  unfold step. simpl. revert Hadv. generalize (advance now c). clear c Hinv.
  intros c Hinv.
  assert (forall c', chordInvariant c' -> chordInvariant (handleAltDChord now c'))
    as Hchord.
  { intros c' Hc'. unfold handleAltDChord.
    repeat (case_match; try done); by apply setOverlayState_invariant. }
  assert (forall c', chordInvariant c' -> chordInvariant (handleAltDRelease now c'))
    as Hrelease.
  { intros c' Hc'. unfold handleAltDRelease.
    repeat (case_match; try done); by apply setOverlayState_invariant. }
  assert (forall f : Controller -> Controller,
            (forall c', isDraggingInOverlay (f c') = isDraggingInOverlay c'
                        /\ overlayState (f c') = overlayState c'
                        /\ pressTimer (f c') = pressTimer c') ->
            forall c', chordInvariant c' -> chordInvariant (f c')) as Hframe.
  { intros f Hf c' [Hd Ht]. destruct (Hf c') as (Hd' & Hs' & Ht').
    split; [by rewrite Hd'|by rewrite Hs', Ht']. }
  destruct ev as [keycode|keycode| | |]; try done; simpl.
  - unfold onKeyDown.
    repeat (case_match; try done);
      repeat first [ apply Hchord
                   | apply (Hframe (setPressStart _)); [by intros []|]
                   | apply (Hframe (setAlt _)); [by intros []|]
                   | apply (Hframe (setD _)); [by intros []|] ]; done.
  - unfold onKeyUp.
    repeat (case_match; try done);
      repeat first [ apply Hrelease
                   | apply (Hframe (setPressStart _)); [by intros []|]
                   | apply (Hframe (setAlt _)); [by intros []|]
                   | apply (Hframe (setD _)); [by intros []|] ]; done.
Qed.

Lemma run_invariant trace c :
  keyboardOnly trace -> chordInvariant c -> chordInvariant (run trace c).
Proof.
  unfold run. intros Hkeys. revert c.
  induction Hkeys as [|timed trace Hkey _ IH]; intros c Hinv; simpl; [done|].
  apply IH. by apply step_invariant.
Qed.

Lemma initial_invariant : chordInvariant initial.
Proof. by split. Qed.

(** One press of the chord followed by the release of one of its keys,
    from any controller that meets the invariant. *)
Lemma press_release_cycle (c : Controller) (origin : OverlayState) (t1 t2 kd ku : Z) :
  chordInvariant c ->
  overlayState c = origin ->
  origin = Hidden \/ origin = Latched ->
  isChorded c = false ->
  isChorded (step c (t1, KeyDown kd)) = true ->
  isAltKey ku || isDKey ku = true ->
  t1 <= t2 ->
  let pressed := step c (t1, KeyDown kd) in
  let released := step pressed (t2, KeyUp ku) in
  overlayState pressed = Pressing /\
  stateBeforePressing pressed = Some origin /\
  pressTimer pressed = Some (t1 + PRESS_THRESHOLD_MS) /\
  (t2 < t1 + PRESS_THRESHOLD_MS ->
   overlayState released = afterQuickRelease origin) /\
  (t1 + PRESS_THRESHOLD_MS <= t2 ->
   overlayState (advance t2 pressed) = Latched /\
   overlayState released = Latched).
Proof.
  intros [Hdrag Htimer] Horigin Hor Hchord Hdown Hup Hle pressed released.
  assert (pressTimer c = None) as Hnone.
  { apply Htimer. rewrite Horigin. by destruct Hor as [-> | ->]. }
  clear Htimer.
  destruct c as [os sbp pt pst alt d drag win vis]. simpl in *. subst.
  assert (Hpressed : pressed =
    {| overlayState := Pressing; stateBeforePressing := Some origin;
       pressTimer := Some (t1 + PRESS_THRESHOLD_MS);
       pressStartTime := pst;
       altPhysicallyDown := true; dPhysicallyDown := true;
       isDraggingInOverlay := false; overlayWindow := win;
       overlayVisible := win || vis |}).
  { subst pressed. unfold step, advance, handle, onKeyDown, isChorded in *.
    simpl in *.
    destruct (isAltKey kd), (isDKey kd), alt, d, win, vis, Hor as [-> | ->];
      simpl in *; try discriminate; try reflexivity.
    all: try (destruct (unset pst); simpl in *; try discriminate; try reflexivity).
    all: try (destruct sbp as [[]|]; simpl in *; try discriminate; try reflexivity). }
  clearbody pressed. subst pressed. subst released.
  cbn [overlayState stateBeforePressing pressTimer].
  split; [done|]. split; [done|]. split; [done|].
  unfold step, advance, handle, onKeyUp, isChorded, PRESS_THRESHOLD_MS in *.
  cbn [fst snd pressTimer altPhysicallyDown dPhysicallyDown andb].
  split.
  - intros Hlt. destruct (Z.leb_spec (t1 + 400) t2) as [?|_]; [lia|].
    destruct (isAltKey ku), (isDKey ku), Hor as [-> | ->], win, vis;
      try discriminate; reflexivity.
  - intros Hge. destruct (Z.leb_spec (t1 + 400) t2) as [_|?]; [|lia].
    destruct (isAltKey ku), (isDKey ku), Hor as [-> | ->], win, vis;
      try discriminate; split; reflexivity.
Qed.

(** A press and its release with no key event between them.  After any
    run of chord events that leaves the machine hidden or latched with
    the chord inactive: the key-down that completes the chord puts the
    machine in pressing and arms the 400 ms hold timer; if a chord key is
    released before the timer is due the machine goes to latched when the
    press started from hidden and to hidden when it started from latched;
    if the timer is due first the machine is latched when it fires, and
    the release leaves it latched. *)
Lemma tap_toggles_hold_latches
    (trace : list (Z * Event)) (origin : OverlayState) (t1 t2 kd ku : Z) :
  keyboardOnly trace ->
  overlayState (run trace initial) = origin ->
  origin = Hidden \/ origin = Latched ->
  isChorded (run trace initial) = false ->
  isChorded (run (trace ++ [(t1, KeyDown kd)]) initial) = true ->
  isAltKey ku || isDKey ku = true ->
  t1 <= t2 ->
  let pressed := run (trace ++ [(t1, KeyDown kd)]) initial in
  let released := run (trace ++ [(t1, KeyDown kd); (t2, KeyUp ku)]) initial in
  overlayState pressed = Pressing /\
  pressTimer pressed = Some (t1 + PRESS_THRESHOLD_MS) /\
  (t2 < t1 + PRESS_THRESHOLD_MS ->
   overlayState released = afterQuickRelease origin) /\
  (t1 + PRESS_THRESHOLD_MS <= t2 ->
   overlayState (advance t2 pressed) = Latched /\
   overlayState released = Latched).
Proof.
  intros Hkeys Horigin Hor Hchord Hdown Hup Hle.
  unfold run in *. rewrite !foldl_app in *. simpl in *.
  destruct (press_release_cycle (foldl step initial trace) origin t1 t2 kd ku)
    as (H1 & _ & H3 & H4 & H5); try done.
  apply run_invariant; [done|apply initial_invariant].
Qed.
End OverlayFacts.

Example tap_from_hidden_latches :
  let press := [(0, Overlay.KeyDown Overlay.ALT); (10, Overlay.KeyDown Overlay.KEY_D)]%Z in
  Overlay.overlayState (Overlay.run press Overlay.initial) = Overlay.Pressing /\
  Overlay.pressTimer (Overlay.run press Overlay.initial) = Some 410%Z /\
  ((100 < 10 + Overlay.PRESS_THRESHOLD_MS)%Z ->
   Overlay.overlayState
     (Overlay.run (press ++ [(100, Overlay.KeyUp Overlay.KEY_D)]%Z) Overlay.initial)
   = Overlay.Latched) /\
  ((10 + Overlay.PRESS_THRESHOLD_MS <= 100)%Z ->
   Overlay.overlayState (Overlay.advance 100 (Overlay.run press Overlay.initial))
   = Overlay.Latched /\
   Overlay.overlayState
     (Overlay.run (press ++ [(100, Overlay.KeyUp Overlay.KEY_D)]%Z) Overlay.initial)
   = Overlay.Latched).
Proof.
  apply (tap_toggles_hold_latches
           [(0, Overlay.KeyDown Overlay.ALT)]%Z Overlay.Hidden
           10 100 Overlay.KEY_D Overlay.KEY_D).
  - repeat constructor.
  - reflexivity.
  - by left.
  - reflexivity.
  - reflexivity.
  - reflexivity.
  - lia.
Qed.

(** The scenario of the specification, on a keyboard that does not repeat
    the key-down of a held key: the chord held for two seconds and
    released leaves the overlay latched; a brief press and release then
    hides it. *)
Example hold_then_tap :
  let hold := [(0, Overlay.KeyDown Overlay.ALT); (10, Overlay.KeyDown Overlay.KEY_D);
               (2010, Overlay.KeyUp Overlay.KEY_D)]%Z in
  let tap := [(3000, Overlay.KeyDown Overlay.KEY_D);
              (3100, Overlay.KeyUp Overlay.KEY_D)]%Z in
  Overlay.overlayState (Overlay.run hold Overlay.initial) = Overlay.Latched /\
  Overlay.overlayVisible (Overlay.run hold Overlay.initial) = true /\
  Overlay.overlayState (Overlay.run (hold ++ tap) Overlay.initial) = Overlay.Hidden /\
  Overlay.overlayVisible (Overlay.run (hold ++ tap) Overlay.initial) = false.
Proof. vm_compute. done. Qed.

(** C6, on a run the keyboard really produces.  The chord is held for two
    seconds and released, and while D is held the keyboard repeats its
    key-down every 50 ms from 510 ms on.  The hold timer has taken the
    machine to latched by then; the first repeated key-down, though the
    chord never became inactive, takes it back to pressing, and so does
    the first one after each later time-out; the release at 2010 ms finds
    the machine pressing, entered from latched, and hides the overlay.
    The specification, and the comments of [handleAltDRelease] ("latched +
    chord release -> no transition (overlay remains latched)"), have the
    overlay stay latched, which is what the run without the repeated
    key-downs does. *)
Lemma C6_hold_with_key_repeat :
  let press := [(0, Overlay.KeyDown Overlay.ALT); (10, Overlay.KeyDown Overlay.KEY_D)]%Z in
  let repeats := autoRepeat Overlay.KEY_D 510 50 30 in
  let release := [(2010, Overlay.KeyUp Overlay.KEY_D)]%Z in
  keyboardOnly (press ++ repeats ++ release) /\
  last repeats = Some (1960, Overlay.KeyDown Overlay.KEY_D)%Z /\
  Overlay.overlayState (Overlay.run press Overlay.initial) = Overlay.Pressing /\
  Overlay.overlayState (Overlay.advance 510 (Overlay.run press Overlay.initial))
  = Overlay.Latched /\
  Overlay.overlayState (Overlay.run (press ++ take 1 repeats) Overlay.initial)
  = Overlay.Pressing /\
  Overlay.overlayState (Overlay.run (press ++ repeats ++ release) Overlay.initial)
  = Overlay.Hidden /\
  Overlay.overlayVisible (Overlay.run (press ++ repeats ++ release) Overlay.initial)
  = false /\
  Overlay.overlayState (Overlay.run (press ++ release) Overlay.initial) = Overlay.Latched.
Proof. vm_compute. repeat split; try reflexivity. repeat constructor. Qed.

(** C8, as the specification states it, fails: a key-up of D is acted on
    at once (the machine is latched right after it), and a key-down of D
    20 ms later is a new press; the run then ends hidden, whereas the run
    in which the chord was never released ends latched. *)
Lemma C8_counterexample :
  let press := [(0, Overlay.KeyDown Overlay.ALT); (10, Overlay.KeyDown Overlay.KEY_D)]%Z in
  let bounce := [(100, Overlay.KeyUp Overlay.KEY_D); (120, Overlay.KeyDown Overlay.KEY_D)]%Z in
  let release := [(130, Overlay.KeyUp Overlay.KEY_D)]%Z in
  Overlay.overlayState
    (Overlay.run (press ++ [(100, Overlay.KeyUp Overlay.KEY_D)]%Z) Overlay.initial)
  = Overlay.Latched /\
  Overlay.overlayState (Overlay.run (press ++ bounce ++ release) Overlay.initial)
  = Overlay.Hidden /\
  Overlay.overlayState (Overlay.run (press ++ release) Overlay.initial)
  = Overlay.Latched.
Proof. vm_compute. done. Qed.

(** A key-down repeated by the keyboard while the chord is held past the
    threshold takes the latched machine back to pressing. *)
Example repeat_while_latched :
  let press := [(0, Overlay.KeyDown Overlay.ALT); (10, Overlay.KeyDown Overlay.KEY_D)]%Z in
  Overlay.overlayState (Overlay.advance 500 (Overlay.run press Overlay.initial))
  = Overlay.Latched /\
  Overlay.overlayState
    (Overlay.run (press ++ [(500, Overlay.KeyDown Overlay.KEY_D)]%Z) Overlay.initial)
  = Overlay.Pressing.
Proof. vm_compute. done. Qed.

Section Debounce.
Import Overlay.
Local Open Scope Z_scope.

Lemma handleAltDChord_keys now c :
  altPhysicallyDown (handleAltDChord now c) = altPhysicallyDown c /\
  dPhysicallyDown (handleAltDChord now c) = dPhysicallyDown c /\
  pressStartTime (handleAltDChord now c) = pressStartTime c.
Proof.
  destruct c as [os sbp pt pst alt d drag win vis]. unfold handleAltDChord.
  simpl. destruct os, drag, win, vis, sbp as [[]|]; done.
Qed.

Lemma advance_keys now c :
  altPhysicallyDown (advance now c) = altPhysicallyDown c /\
  dPhysicallyDown (advance now c) = dPhysicallyDown c /\
  pressStartTime (advance now c) = pressStartTime c.
Proof.
  destruct c as [os sbp pt pst alt d drag win vis]. unfold advance. simpl.
  destruct pt as [due|]; [|done]. destruct (due <=? now); [|done].
  destruct os, win, vis; done.
Qed.

Lemma repeated_key_down_keeps_keys k c t :
  (isAltKey k = true -> altPhysicallyDown c = true) ->
  (isDKey k = true -> dPhysicallyDown c = true) ->
  let c1 := step c (t, KeyDown k) in
  altPhysicallyDown c1 = altPhysicallyDown c /\
  dPhysicallyDown c1 = dPhysicallyDown c /\
  pressStartTime c1 = pressStartTime c.
Proof.
  intros Halt Hd. cbv zeta. unfold step. cbn [fst snd handle].
  destruct (advance_keys t c) as (Ha & Hb & Hc).
  rewrite <- Ha, <- Hb, <- Hc. rewrite <- Ha in Halt. rewrite <- Hb in Hd.
  clear Ha Hb Hc. generalize dependent (advance t c). clear c.
  intros [os sbp pt pst alt d drag win vis] Halt Hd.
  cbn [altPhysicallyDown dPhysicallyDown pressStartTime] in *.
  unfold onKeyDown.
  cbn [altPhysicallyDown dPhysicallyDown pressStartTime].
  destruct (isAltKey k).
  - rewrite (Halt eq_refl). cbn [negb andb].
    destruct d; [|done].
    apply (handleAltDChord_keys t
             {| overlayState := os; stateBeforePressing := sbp; pressTimer := pt;
                pressStartTime := pst; altPhysicallyDown := true;
                dPhysicallyDown := true; isDraggingInOverlay := drag;
                overlayWindow := win; overlayVisible := vis |}).
  - destruct (isDKey k); [|done].
    rewrite (Hd eq_refl). cbn [negb andb].
    destruct alt; [|done].
    apply (handleAltDChord_keys t
             {| overlayState := os; stateBeforePressing := sbp; pressTimer := pt;
                pressStartTime := pst; altPhysicallyDown := true;
                dPhysicallyDown := true; isDraggingInOverlay := drag;
                overlayWindow := win; overlayVisible := vis |}).
Qed.

(** C8, amended.  There is no debounce window.  While the machine is
    pressing, the key-up of a chord key is acted on at once, whether a
    drag is in progress or not: the chord is broken, the hold timer is
    cancelled and the machine moves to latched or hidden according to
    where the press started.  While no drag is in progress, a key-down of
    the same key that follows, however soon, is a new press from that
    state, and a key-down of a key that is already down changes nothing
    while the machine is pressing.  While a drag is in progress, either of
    these key-downs puts the machine in latched with no timer (the
    context-aware open).  In every state a key-down of a key that is
    already down leaves the recorded key state and the press start time
    as they are. *)
Theorem C8_key_up_is_not_debounced
    (c : Controller) (origin : OverlayState) (due t t' k : Z) :
  isAltKey k || isDKey k = true ->
  isChorded c = true ->
  overlayState c = Pressing ->
  stateBeforePressing c = Some origin ->
  origin = Hidden \/ origin = Latched ->
  pressTimer c = Some due ->
  t < due ->
  t <= t' ->
  let up := step c (t, KeyUp k) in
  let down := step up (t', KeyDown k) in
  let again := step c (t, KeyDown k) in
  (isChorded up = false /\
   overlayState up = afterQuickRelease origin /\
   pressTimer up = None) /\
  (if isDraggingInOverlay c then
     (isChorded down = true /\
      overlayState down = Latched /\
      pressTimer down = None) /\
     (isChorded again = true /\
      overlayState again = Latched /\
      pressTimer again = None)
   else
     (isChorded down = true /\
      overlayState down = Pressing /\
      stateBeforePressing down = Some (afterQuickRelease origin) /\
      pressTimer down = Some (t' + PRESS_THRESHOLD_MS)) /\
     again = c) /\
  (forall c0 t0,
     (isAltKey k = true -> altPhysicallyDown c0 = true) ->
     (isDKey k = true -> dPhysicallyDown c0 = true) ->
     let c1 := step c0 (t0, KeyDown k) in
     altPhysicallyDown c1 = altPhysicallyDown c0 /\
     dPhysicallyDown c1 = dPhysicallyDown c0 /\
     pressStartTime c1 = pressStartTime c0).
Proof.
  intros Hk Hchord Hstate Hbefore Hor Hdue Hlt Hle up down again.
  destruct c as [os sbp pt pst alt d drag win vis]. simpl in *. subst.
  unfold isChorded in Hchord. simpl in Hchord.
  apply andb_prop in Hchord as [-> ->].
  subst down up again.
  unfold step, advance, handle, onKeyUp, onKeyDown, isChorded, PRESS_THRESHOLD_MS.
  cbn [fst snd pressTimer altPhysicallyDown dPhysicallyDown andb negb].
  destruct (Z.leb_spec due t) as [?|_]; [lia|].
  split; [|split].
  - destruct (isAltKey k), (isDKey k), Hor as [-> | ->], drag, win, vis;
      try discriminate; done.
  - destruct drag.
    + destruct (isAltKey k), (isDKey k), Hor as [-> | ->], win, vis;
        try discriminate; simpl; done.
    + split.
      * destruct (isAltKey k), (isDKey k), Hor as [-> | ->], win, vis;
          try discriminate; simpl; done.
      * destruct (isAltKey k), (isDKey k); try discriminate; reflexivity.
  - apply repeated_key_down_keeps_keys.
Qed.
End Debounce.

Lemma C8_witness :
  let c := Overlay.run [(0, Overlay.KeyDown Overlay.ALT);
                        (10, Overlay.KeyDown Overlay.KEY_D)]%Z Overlay.initial in
  let dragging := Overlay.setDragging true c in
  (Overlay.isChorded (Overlay.step c (100%Z, Overlay.KeyUp Overlay.KEY_D)) = false /\
   Overlay.overlayState (Overlay.step c (100%Z, Overlay.KeyUp Overlay.KEY_D))
   = Overlay.Latched /\
   Overlay.pressTimer (Overlay.step c (100%Z, Overlay.KeyUp Overlay.KEY_D)) = None) /\
  (Overlay.isChorded (Overlay.step dragging (100%Z, Overlay.KeyUp Overlay.KEY_D)) = false /\
   Overlay.overlayState (Overlay.step dragging (100%Z, Overlay.KeyUp Overlay.KEY_D))
   = Overlay.Latched /\
   Overlay.pressTimer (Overlay.step dragging (100%Z, Overlay.KeyUp Overlay.KEY_D)) = None).
Proof.
  split.
  - refine (proj1 (C8_key_up_is_not_debounced
                     (Overlay.run [(0, Overlay.KeyDown Overlay.ALT);
                                   (10, Overlay.KeyDown Overlay.KEY_D)]%Z Overlay.initial)
                     Overlay.Hidden 410 100 120 Overlay.KEY_D _ _ _ _ _ _ _ _)).
    + reflexivity.
    + reflexivity.
    + reflexivity.
    + reflexivity.
    + by left.
    + reflexivity.
    + lia.
    + lia.
  - refine (proj1 (C8_key_up_is_not_debounced
                     (Overlay.setDragging true
                        (Overlay.run [(0, Overlay.KeyDown Overlay.ALT);
                                      (10, Overlay.KeyDown Overlay.KEY_D)]%Z Overlay.initial))
                     Overlay.Hidden 410 100 120 Overlay.KEY_D _ _ _ _ _ _ _ _)).
    + reflexivity.
    + reflexivity.
    + reflexivity.
    + reflexivity.
    + by left.
    + reflexivity.
    + lia.
    + lia.
Defined.

(** C10.  [generateEmbedding] keeps no token of at most two characters
    (tokens are the white-space separated pieces of the lower-cased text);
    hence a text all of whose tokens have one or two characters has the
    empty embedding, whose similarity to every embedding is 0, and
    [smartSearch] gives every item it returns for such a query the
    similarity 0. *)
Theorem C10_short_words_never_match (text : string) :
  (forall w, (String.length w <= 2)%nat -> Json.generateEmbedding text !! w = None) /\
  (Forall (fun w => (String.length w <= 2)%nat) (Js.split_ws (Js.toLowerCase text)) ->
   Json.generateEmbedding text = ∅ /\
   (forall e, (Json.semanticSimilarity (Json.generateEmbedding text) e == 0)%Q) /\
   forall cal now st r,
     fst (Json.smartSearch cal now text st) = Ok r ->
     Forall (fun s => (Json._semanticScore s == 0)%Q) (Json.results r)).
Proof.
  split.
  - intros w Hw. apply not_elem_of_dom. intros Hin.
    apply generateEmbedding_keys in Hin. lia.
  - intros Hshort. rewrite (generateEmbedding_short text Hshort).
    split; [done|]. split; [apply semanticSimilarity_empty_l|].
    intros cal now st r Hrun.
    destruct (Json_smartSearch_spec cal now text st) as (r' & Hspec & Hres).
    rewrite Hspec in Hrun. injection Hrun as <-. rewrite Hres.
    unfold Json.rank. apply Forall_take. rewrite sortDesc_perm.
    eapply Forall_impl; [apply (candidates_scores cal now text)|].
    intros s (_ & _ & ->).
    rewrite generateEmbedding_short; [apply semanticSimilarity_empty_l|].
    apply shortRuns_tokens, topic_of_short_query, shortRuns_tokens, Hshort.
Qed.

Lemma C10_witness :
  Json.generateEmbedding "Go to it or be" = ∅ /\
  (forall e, (Json.semanticSimilarity (Json.generateEmbedding "Go to it or be") e == 0)%Q) /\
  forall cal now st r,
    fst (Json.smartSearch cal now "Go to it or be" st) = Ok r ->
    Forall (fun s => (Json._semanticScore s == 0)%Q) (Json.results r).
Proof.
  apply (C10_short_words_never_match "Go to it or be").
  vm_compute. repeat constructor.
Defined.

(** ** The SQLite store on the same captures *)

Section SqliteCapture.
Context {host : Host} {engine : Sqlite.Engine}.

Lemma Sqlite_createFileItem_accepts uuid now filePath fileContent db :
  Sqlite.files db !! filePath = Some fileContent ->
  Js.trim filePath ≠ EmptyString ->
  isRejectedFile filePath = false ->
  Sqlite.createFileItem uuid now filePath db
  = (Ok (fileItemOf uuid now filePath fileContent),
     {| Sqlite.rows := Sqlite.rows db;
        Sqlite.files := stored filePath fileContent (Sqlite.files db) |}).
Proof.
  intros Hfile Hblank Hrej. unfold Sqlite.createFileItem.
  apply String.eqb_neq in Hblank. rewrite Hblank, Hfile, Hrej. reflexivity.
Qed.

(** [createFileItem] of the SQLite store, twice on the same file: the same
    hash and storage path, and no write the second time. *)
Lemma Sqlite_createFileItem_twice id1 id2 t1 t2 filePath fileContent db :
  Sqlite.files db !! filePath = Some fileContent ->
  Js.trim filePath ≠ EmptyString ->
  isRejectedFile filePath = false ->
  exists item1 item2 db1,
    Sqlite.createFileItem id1 t1 filePath db = (Ok item1, db1) /\
    Sqlite.createFileItem id2 t2 filePath db1 = (Ok item2, db1) /\
    hash item1 = Some (sha256 fileContent) /\
    hash item2 = hash item1 /\
    storagePath item2 = storagePath item1.
Proof.
  intros Hfile Hblank Hrej.
  exists (fileItemOf id1 t1 filePath fileContent),
         (fileItemOf id2 t2 filePath fileContent),
         {| Sqlite.rows := Sqlite.rows db;
            Sqlite.files := stored filePath fileContent (Sqlite.files db) |}.
  split; [by apply Sqlite_createFileItem_accepts|].
  split; [|done].
  rewrite (Sqlite_createFileItem_accepts id2 t2 _ fileContent); try done.
  - cbn [Sqlite.rows Sqlite.files]. by rewrite stored_idemp.
  - cbn [Sqlite.files]. by apply stored_keeps.
Qed.

Lemma upsert_fresh (r : Sqlite.Row) (table : list Sqlite.Row) :
  Forall (fun r' => Sqlite.id r' ≠ Sqlite.id r) table ->
  Sqlite.upsert r table = table ++ [r].
Proof.
  induction 1 as [|r' table Hne _ IH]; [done|]. simpl.
  apply String.eqb_neq in Hne. by rewrite Hne, IH.
Qed.

(** [saveItem] of an item with a fresh id appends one row, whose embedding
    column holds what the embedding pipeline returned for the searchable
    text: a vector, or nothing. *)
Lemma Sqlite_saveItem_row uuid now item db :
  item_id item ≠ EmptyString ->
  Forall (fun r => Sqlite.id r ≠ item_id item) (Sqlite.rows db) ->
  let row := fst (Sqlite.saveItem uuid now item db) in
  let db' := snd (Sqlite.saveItem uuid now item db) in
  Sqlite.id row = item_id item /\
  Sqlite.rows db' = Sqlite.rows db ++ [row] /\
  (storagePath item = None ->
   let text := Sqlite.buildSearchableText item Sqlite.noExtraction in
   Sqlite.embedding row
   = if Sqlite.truthy text then Sqlite.generateEmbedding text else None).
Proof.
  intros Hid Hfresh. cbv zeta. unfold Sqlite.saveItem. cbv zeta.
  cbn [fst snd Sqlite.id Sqlite.rows Sqlite.embedding].
  assert (orElse (Some (item_id item)) uuid = item_id item) as Hkey.
  { unfold orElse. apply String.eqb_neq in Hid. by rewrite Hid. }
  split; [done|]. split.
  - apply upsert_fresh. cbn [Sqlite.id]. by rewrite Hkey.
  - by intros ->.
Qed.
End SqliteCapture.

(** ** Captures in both stores *)

Lemma writeAll_keeps (written : list (string * string)) (fs : gmap string string)
    (p : string) :
  is_Some (fs !! p) -> is_Some (Sqlite.writeAll written fs !! p).
Proof.
  unfold Sqlite.writeAll. revert fs.
  induction written as [|[q bytes] written IH]; intros fs Hp; simpl; [done|].
  apply IH. apply lookup_insert_is_Some'. by right.
Qed.

Lemma orElse_same (uuid : string) : orElse (Some uuid) uuid = uuid.
Proof. unfold orElse. by destruct (String.eqb uuid EmptyString). Qed.

Lemma upsert_written (r : Sqlite.Row) (table : list Sqlite.Row) :
  exists new,
    new ∈ Sqlite.upsert r table /\
    Sqlite.id new = Sqlite.id r /\
    Sqlite.r_title new = Sqlite.r_title r /\
    Sqlite.raw_path new = Sqlite.raw_path r /\
    Sqlite.r_hash new = Sqlite.r_hash r /\
    Sqlite.embedding new = Sqlite.embedding r.
Proof.
  induction table as [|r' table IH]; simpl.
  - exists r. split; [apply list_elem_of_here|done].
  - destruct (String.eqb_spec (Sqlite.id r') (Sqlite.id r)) as [Heq|Hne].
    + eexists. split; [apply list_elem_of_here|]. by rewrite Heq.
    + destruct IH as (new & Hin & Hrest).
      exists new. split; [by apply list_elem_of_further|done].
Qed.

Lemma upsert_columns (r : Sqlite.Row) (table : list Sqlite.Row) :
  (exists new, new ∈ Sqlite.upsert r table /\
     Sqlite.id new = Sqlite.id r /\
     Sqlite.r_hash new = Sqlite.r_hash r /\
     Sqlite.raw_path new = Sqlite.raw_path r) /\
  (forall old, old ∈ table ->
     exists new, new ∈ Sqlite.upsert r table /\
       Sqlite.id new = Sqlite.id old /\
       (Sqlite.id old ≠ Sqlite.id r -> Sqlite.r_hash new = Sqlite.r_hash old) /\
       (Sqlite.id old ≠ Sqlite.id r -> Sqlite.raw_path new = Sqlite.raw_path old)).
Proof.
  induction table as [|r' table [IHnew IHold]]; simpl.
  - split.
    + exists r. split; [apply list_elem_of_here|done].
    + intros old Hold. by apply elem_of_nil in Hold.
  - destruct (String.eqb_spec (Sqlite.id r') (Sqlite.id r)) as [Heq|Hne].
    + split.
      * eexists. split; [apply list_elem_of_here|]. by rewrite Heq.
      * intros old Hold. apply elem_of_cons in Hold as [->|Hold].
        -- eexists. split; [apply list_elem_of_here|]. cbn. split; [done|].
           split; intros Hne; by destruct Hne.
        -- exists old. split; [by apply list_elem_of_further|done].
    + split.
      * destruct IHnew as (new & Hin & Hrest).
        exists new. split; [by apply list_elem_of_further|done].
      * intros old Hold. apply elem_of_cons in Hold as [->|Hold].
        -- exists r'. split; [apply list_elem_of_here|done].
        -- destruct (IHold old Hold) as (new & Hin & Hrest).
           exists new. split; [by apply list_elem_of_further|done].
Qed.

Section BothStores.
Context {host : Host} {engine : Sqlite.Engine} {ids : Ids.UuidSource}.

Lemma saveItem_columns uuid now (item : Item) (db : Sqlite.Db) :
  let row := fst (Sqlite.saveItem uuid now item db) in
  let db' := snd (Sqlite.saveItem uuid now item db) in
  Sqlite.id row = orElse (Some (item_id item)) uuid /\
  Sqlite.r_hash row = hash item /\
  Sqlite.raw_path row = storagePath item /\
  (exists r, r ∈ Sqlite.rows db' /\ Sqlite.id r = Sqlite.id row /\
     Sqlite.r_hash r = hash item /\ Sqlite.raw_path r = storagePath item) /\
  (forall old, old ∈ Sqlite.rows db ->
     exists new, new ∈ Sqlite.rows db' /\
       Sqlite.id new = Sqlite.id old /\
       (Sqlite.id old ≠ Sqlite.id row -> Sqlite.r_hash new = Sqlite.r_hash old) /\
       (Sqlite.id old ≠ Sqlite.id row -> Sqlite.raw_path new = Sqlite.raw_path old)).
Proof.
  cbv zeta. unfold Sqlite.saveItem. cbv zeta.
  cbn [fst snd Sqlite.rows Sqlite.id Sqlite.r_hash Sqlite.raw_path].
  split; [done|]. split; [done|]. split; [done|].
  match goal with |- context [Sqlite.upsert ?row _] =>
    destruct (upsert_columns row (Sqlite.rows db)) as [Hnew Hold]
  end.
  split; [exact Hnew|exact Hold].
Qed.

Lemma Sqlite_saveItem_saved uuid now item db :
  Sqlite.id (fst (Sqlite.saveItem uuid now item db))
  = orElse (Some (item_id item)) uuid /\
  saved item (fst (Sqlite.saveItem uuid now item db)) db
        (snd (Sqlite.saveItem uuid now item db)).
Proof.
  split; [done|]. unfold saved, Sqlite.saveItem. cbv zeta.
  cbn [fst snd Sqlite.rows Sqlite.id Sqlite.embedding Sqlite.r_extracted].
  split; [|split].
  - match goal with |- context [Sqlite.upsert ?row _] =>
      destruct (upsert_written row (Sqlite.rows db)) as (new & Hin & Hrest)
    end.
    exists new. split; [exact Hin|]. exact Hrest.
  - unfold extractionOf. destruct (storagePath item) as [p|]; [|done]. simpl.
    by destruct (Sqlite.truthy p && bool_decide (is_Some (Sqlite.files db !! p))).
  - match goal with |- (if Sqlite.truthy ?t then _ else _) = _ =>
      generalize t; intros text
    end.
    unfold Sqlite.truthy. destruct (String.eqb_spec text EmptyString) as [->|_]; done.
Qed.

(** C5, amended.  On the JSON store, when [addTextItem], [addItem] of a
    link, or [addFileItem] returns an item, that item is in the item index
    and its initial embedding is in the embedding index under its id,
    while the enrichment tasks of the item are still in the queue.  On the
    SQLite store, when [addTextItem], [addItem] of a link, or
    [addFileItem] returns a row, the table has a row under that id with
    the title, the storage path and the hash of the capture; the metadata
    extraction has run inside the call (when the blob is on the disk); and
    the embedding of the row is what the embedding pipeline answered for
    the searchable text: a vector, or nothing when the text is blank or
    the pipeline fails, in which case the column stays NULL. *)
Theorem C5_capture_is_indexed_on_return uuid now :
  (forall st,
     (forall text,
        let item := createTextItem uuid now text in
        fst (Json.addTextItem uuid now text st) = Ok item /\
        captured item [Json.LLMEnrichment item] st
                 (snd (Json.addTextItem uuid now text st))) /\
     (forall link linkTitle,
        let item := createLinkItem uuid now link linkTitle in
        fst (Json.addItem item st) = Ok item /\
        captured item [Json.LLMEnrichment item] st (snd (Json.addItem item st))) /\
     (forall filePath item st',
        Json.addFileItem uuid now filePath st = (Ok item, st') ->
        item_id item = uuid /\
        captured item
          [Json.MetadataExtraction item filePath; Json.LLMEnrichment item] st st')) /\
  (forall db,
     (forall text,
        let item := createTextItem uuid now text in
        let row := fst (Sqlite.addTextItem uuid now text db) in
        Sqlite.id row = uuid /\
        saved item row db (snd (Sqlite.addTextItem uuid now text db))) /\
     (forall link linkTitle,
        let item := createLinkItem uuid now link linkTitle in
        let row := fst (Sqlite.addItem uuid now item db) in
        Sqlite.id row = uuid /\
        saved item row db (snd (Sqlite.addItem uuid now item db))) /\
     (forall filePath row db'',
        Sqlite.addFileItem uuid now filePath db = (Ok row, db'') ->
        exists item db',
          Sqlite.createFileItem uuid now filePath db = (Ok item, db') /\
          item_id item = uuid /\
          Sqlite.id row = uuid /\
          saved item row db' db'')).
Proof.
  split.
  - intros st. apply Json_capture_is_indexed.
  - intros db. split; [|split].
    + intros text. cbv zeta. unfold Sqlite.addTextItem.
      destruct (Sqlite_saveItem_saved uuid now (createTextItem uuid now text) db)
        as [Hid Hsaved].
      split; [|exact Hsaved]. rewrite Hid. apply orElse_same.
    + intros link linkTitle. cbv zeta. unfold Sqlite.addItem.
      destruct (Sqlite_saveItem_saved uuid now (createLinkItem uuid now link linkTitle) db)
        as [Hid Hsaved].
      split; [|exact Hsaved]. rewrite Hid. apply orElse_same.
    + intros filePath row db'' Hadd. unfold Sqlite.addFileItem in Hadd.
      destruct (Sqlite.createFileItem uuid now filePath db) as [[item|msg] db'] eqn:Hcreate;
        [|done].
      assert (item_id item = uuid) as Hitem.
      { unfold Sqlite.createFileItem in Hcreate.
        repeat case_match; try done; by injection Hcreate as <- _. }
      destruct (Sqlite_saveItem_saved uuid now item db') as [Hid Hsaved].
      destruct (Sqlite.saveItem uuid now item db') as [row' db3].
      injection Hadd as <- <-. exists item, db'.
      split; [done|]. split; [done|]. split; [|exact Hsaved].
      cbn [fst] in Hid. rewrite Hid, Hitem. apply orElse_same.
Qed.
Lemma stored_present filePath fileContent fs bytes :
  fs !! vaultFile (sha256 fileContent +:+ extname (basename filePath)) = Some bytes ->
  stored filePath fileContent fs = fs.
Proof.
  intros Hblob. unfold stored. rewrite bool_decide_true; [done|]. rewrite Hblob. eauto.
Qed.

Lemma stored_fresh filePath fileContent fs :
  fs !! vaultFile (sha256 fileContent +:+ extname (basename filePath)) = None ->
  stored filePath fileContent fs
  !! vaultFile (sha256 fileContent +:+ extname (basename filePath)) = Some fileContent.
Proof.
  intros Hblob. unfold stored. rewrite bool_decide_false.
  - apply lookup_insert_eq.
  - rewrite Hblob. by intros [??].
Qed.

Lemma Json_addFileItem_accepts uuid now filePath fileContent st :
  Json.files st !! filePath = Some fileContent ->
  Js.trim filePath ≠ EmptyString ->
  isRejectedFile filePath = false ->
  exists st',
    Json.addFileItem uuid now filePath st
    = (Ok (fileItemOf uuid now filePath fileContent), st') /\
    Json.files st' = stored filePath fileContent (Json.files st) /\
    Json.items st' = Json.items st ++ [fileItemOf uuid now filePath fileContent].
Proof.
  intros Hfile Hblank Hrej. eexists. unfold Json.addFileItem, Json.bind.
  rewrite (Json_createFileItem_accepts _ _ _ fileContent) by done.
  rewrite Json_addItem_spec. done.
Qed.

Lemma Sqlite_addFileItem_accepts uuid now filePath fileContent db :
  Sqlite.files db !! filePath = Some fileContent ->
  Js.trim filePath ≠ EmptyString ->
  isRejectedFile filePath = false ->
  let item := fileItemOf uuid now filePath fileContent in
  let db' := {| Sqlite.rows := Sqlite.rows db;
                Sqlite.files := stored filePath fileContent (Sqlite.files db) |} in
  Sqlite.addFileItem uuid now filePath db
  = (Ok (fst (Sqlite.saveItem uuid now item db')), snd (Sqlite.saveItem uuid now item db')).
Proof.
  intros Hfile Hblank Hrej. cbv zeta. unfold Sqlite.addFileItem.
  rewrite (Sqlite_createFileItem_accepts _ _ _ fileContent) by done.
  by destruct (Sqlite.saveItem _ _ _ _).
Qed.


End BothStores.

(** C5, as the specification states it, fails on the SQLite store: with
    the embedding pipeline out of order the capture of a note returns,
    the row is in the table, and it has no embedding. *)
Lemma C5_counterexample :
  let '(row, db) :=
    Sqlite.addTextItem (host := Demo.host) (engine := Demo.silentEngine)
      "id-a" 0 "alpha beta" Demo.db0 in
  Sqlite.rows db = [row] /\
  Sqlite.id row = "id-a" /\
  Sqlite.r_content row = Some "alpha beta" /\
  Sqlite.embedding row = None.
Proof. vm_compute. done. Qed.

Lemma C5_witness :
  (item_id (fileItemOf (host := Demo.host) "id-1" 5 "/home/u/cat.png" "PNGDATA") = "id-1" /\
   captured (fileItemOf (host := Demo.host) "id-1" 5 "/home/u/cat.png" "PNGDATA")
     [Json.MetadataExtraction
        (fileItemOf (host := Demo.host) "id-1" 5 "/home/u/cat.png" "PNGDATA")
        "/home/u/cat.png";
      Json.LLMEnrichment
        (fileItemOf (host := Demo.host) "id-1" 5 "/home/u/cat.png" "PNGDATA")]
     Demo.vault0
     (snd (Json.addFileItem (host := Demo.host) "id-1" 5 "/home/u/cat.png" Demo.vault0))) /\
  (Sqlite.id
     (fst (Sqlite.addTextItem (host := Demo.host) (engine := Demo.lengthEngine)
             "id-2" 9 "alpha beta" Demo.db0)) = "id-2" /\
   saved (host := Demo.host) (engine := Demo.lengthEngine)
     (createTextItem "id-2" 9 "alpha beta")
     (fst (Sqlite.addTextItem (host := Demo.host) (engine := Demo.lengthEngine)
             "id-2" 9 "alpha beta" Demo.db0))
     Demo.db0
     (snd (Sqlite.addTextItem (host := Demo.host) (engine := Demo.lengthEngine)
             "id-2" 9 "alpha beta" Demo.db0))).
Proof.
  split.
  - apply (proj1 (C5_capture_is_indexed_on_return
                    (host := Demo.host) (engine := Demo.lengthEngine) "id-1" 5)
                 Demo.vault0).
    vm_compute. reflexivity.
  - apply (proj2 (C5_capture_is_indexed_on_return
                    (host := Demo.host) (engine := Demo.lengthEngine) "id-2" 9)
                 Demo.db0).
Defined.



(** With the embedding pipeline out of order the SQLite store still saves
    the text, without an embedding; with a pipeline that answers, the row
    carries the vector. *)
Example Sqlite_embedding_follows_the_pipeline :
  Sqlite.embedding
    (fst (Sqlite.addTextItem (host := Demo.host) (engine := Demo.silentEngine)
            "id-a" 0 "alpha beta" Demo.db0)) = None /\
  length
    (Sqlite.rows
       (snd (Sqlite.addTextItem (host := Demo.host) (engine := Demo.silentEngine)
               "id-a" 0 "alpha beta" Demo.db0))) = 1%nat /\
  Sqlite.embedding
    (fst (Sqlite.addTextItem (host := Demo.host) (engine := Demo.lengthEngine)
            "id-a" 0 "alpha beta" Demo.db0)) <> None.
Proof. vm_compute. repeat split. discriminate. Qed.

(** Deleting a captured document (type "file") from the JSON store: the
    record has no [path] field, [unlinkSync] throws, the error is caught,
    and the blob stays. *)
Example delete_file_item_keeps_blob :
  match Json.addFileItem (host := Demo.host) "id-1" 5 "/home/u/notes.xyz" Demo.vault0 with
  | (Ok item, st1) =>
      item_type item = TFile /\
      item_path item = None /\
      fst (Json.deleteItem "id-1" st1) = Ok tt /\
      Json.items (snd (Json.deleteItem "id-1" st1)) = [] /\
      Json.files (snd (Json.deleteItem "id-1" st1)) = Json.files st1
  | (Err _, _) => False
  end.
Proof. vm_compute. done. Qed.

(** A record of an earlier version of the store, which carries [path]: its
    file is unlinked. *)
Example delete_legacy_file_item_unlinks :
  let legacy :=
    {| item_id := "old-1"; item_type := TFile; title := "song.mp3";
       category := Documents; content := None; hash := None;
       storagePath := None; searchableText := "song.mp3";
       metadata := {| meta_size := None; mimeType := None; filename := None;
                      url := None; pageTitle := None; extractedText := None;
                      createdAt := None; meta_source := None |};
       item_path := Some "/home/u/song.mp3";
       timestamp := Some (DateAt 0) |} in
  let st := {| Json.files := Demo.disk; Json.items := [legacy];
               Json.embeddings := ∅; Json.pending := [] |} in
  Json.files (snd (Json.deleteItem "old-1" st)) !! "/home/u/song.mp3" = None /\
  Json.files st !! "/home/u/song.mp3" = Some "la".
Proof. vm_compute. done. Qed.

(** * Further properties *)

(** ** Further properties of the bag-of-words embeddings *)

Lemma inter_sub_union (X Y : gset string) : X ∩ Y ⊆ X ∪ Y.
Proof.
  intros x Hx. apply elem_of_intersection in Hx as [Hx _].
  apply elem_of_union. by left.
Qed.

Lemma union_empty_inv (X Y : gset string) : size (X ∪ Y) = 0%nat -> X = ∅ /\ Y = ∅.
Proof.
  intros Hsz. apply size_empty_inv in Hsz.
  split; apply set_eq; intros x; split; intros Hx;
    try (by apply elem_of_empty in Hx);
    apply (Hsz x); apply elem_of_union; auto.
Qed.

Lemma semanticSimilarity_range (a b : gmap string nat) :
  (0 <= Json.semanticSimilarity a b)%Q /\ (Json.semanticSimilarity a b <= 1)%Q.
Proof.
  unfold Json.semanticSimilarity.
  destruct (size (dom a ∪ dom b) =? 0)%nat eqn:Hz; [done|].
  apply Nat.eqb_neq in Hz.
  pose proof (subseteq_size _ _ (inter_sub_union (dom a) (dom b))) as Hle.
  unfold Qle. simpl. split; [lia|].
  rewrite Z.mul_1_r, Z.mul_1_l.
  rewrite <- (positive_nat_Z (Pos.of_nat _)), Nat2Pos.id by done. lia.
Qed.

(** X1.  The similarity of two bags of words does not depend on the
    order of its arguments and lies between 0 and 1. *)
Theorem semanticSimilarity_symmetric_bounded (a b : gmap string nat) :
  Json.semanticSimilarity a b = Json.semanticSimilarity b a /\
  (0 <= Json.semanticSimilarity a b)%Q /\
  (Json.semanticSimilarity a b <= 1)%Q.
Proof.
  split; [|apply semanticSimilarity_range].
  unfold Json.semanticSimilarity.
  assert (dom a ∩ dom b = dom b ∩ dom a) as ->.
  { apply set_eq. intros x. rewrite !elem_of_intersection. tauto. }
  assert (dom a ∪ dom b = dom b ∪ dom a) as ->.
  { apply set_eq. intros x. rewrite !elem_of_union. tauto. }
  done.
Qed.

Lemma semanticSimilarity_positive (a b : gmap string nat) :
  (0 < Json.semanticSimilarity a b)%Q <-> exists w, w ∈ dom a /\ w ∈ dom b.
Proof.
  unfold Json.semanticSimilarity.
  destruct (size (dom a ∪ dom b) =? 0)%nat eqn:Hz.
  - apply Nat.eqb_eq, union_empty_inv in Hz as [Ha Hb]. split; [done|].
    intros (w & Hw & _). rewrite Ha in Hw. by apply elem_of_empty in Hw.
  - unfold Qlt. simpl. rewrite Z.mul_1_r. split.
    + intros Hpos. assert (size (dom a ∩ dom b) ≠ 0)%nat as Hsz by lia.
      apply size_non_empty_iff in Hsz. apply set_choose in Hsz as [w Hw].
      exists w. by apply elem_of_intersection in Hw.
    + intros (w & Ha & Hb).
      assert (size (dom a ∩ dom b) ≠ 0)%nat; [|lia].
      apply size_non_empty_iff. intros Hempty.
      apply (not_elem_of_empty (C := gset string) w). apply Hempty.
      by apply elem_of_intersection.
Qed.

(** X2.  The similarity of two bags is positive exactly when they
    have a word in common, and it is 1 exactly when they hold the same
    words and at least one: how often a word occurs plays no part. *)
Theorem semanticSimilarity_extremes (a b : gmap string nat) :
  ((0 < Json.semanticSimilarity a b)%Q <-> exists w, w ∈ dom a /\ w ∈ dom b) /\
  ((Json.semanticSimilarity a b == 1)%Q <-> dom a = dom b /\ dom a ≠ ∅).
Proof.
  split; [apply semanticSimilarity_positive|].
  unfold Json.semanticSimilarity.
  destruct (size (dom a ∪ dom b) =? 0)%nat eqn:Hz.
  - apply Nat.eqb_eq, union_empty_inv in Hz as [Ha Hb]. split; [done|].
    intros [_ Hne]. done.
  - apply Nat.eqb_neq in Hz. unfold Qeq. simpl.
    rewrite Z.mul_1_r, Z.mul_1_l.
    rewrite <- (positive_nat_Z (Pos.of_nat _)), Nat2Pos.id by done.
    rewrite Nat2Z.inj_iff. split.
    + intros Hsz.
      assert (dom a ∩ dom b = dom a ∪ dom b) as Heq.
      { apply set_subseteq_size_eq; [apply inter_sub_union|lia]. }
      assert (forall x, x ∈ dom a <-> x ∈ dom b) as Hab.
      { intros x. split; intros Hx.
        - assert (x ∈ dom a ∩ dom b) as Hi
            by (rewrite Heq; apply elem_of_union; by left).
          by apply elem_of_intersection in Hi as [_ ?].
        - assert (x ∈ dom a ∩ dom b) as Hi
            by (rewrite Heq; apply elem_of_union; by right).
          by apply elem_of_intersection in Hi as [? _]. }
      split; [by apply set_eq|].
      intros Hempty. apply Hz.
      assert (dom a ∪ dom b = ∅) as ->; [|apply size_empty].
      apply set_eq. intros x. rewrite elem_of_union, <- Hab, Hempty.
      split; [tauto|]. intros Hx. by apply elem_of_empty in Hx.
    + intros [Hab _]. rewrite Hab. f_equal.
      apply set_eq. intros x. rewrite elem_of_intersection, elem_of_union. tauto.
Qed.

Lemma lowerChar_idemp c : Js.lowerChar (Js.lowerChar c) = Js.lowerChar c.
Proof. destruct c as [[] [] [] [] [] [] [] []]; reflexivity. Qed.

Lemma toLowerCase_idemp s : Js.toLowerCase (Js.toLowerCase s) = Js.toLowerCase s.
Proof. induction s as [|c s IH]; simpl; [done|]. by rewrite lowerChar_idemp, IH. Qed.

Lemma countWord_dom_exact (ws : list string) (e : gmap string nat) (w : string) :
  w ∈ dom (foldl Json.countWord e ws) <->
  w ∈ dom e \/ (w ∈ ws /\ w ≠ "__proto__").
Proof.
  revert e. induction ws as [|w' ws IH]; intros e; simpl.
  - split; [by left|]. intros [?|[Hw _]]; [done|]. by apply elem_of_nil in Hw.
  - rewrite IH. unfold Json.countWord.
    destruct (String.eqb w' "__proto__") eqn:Hp.
    + apply String.eqb_eq in Hp as ->. rewrite elem_of_cons. split.
      * intros [?|[? ?]]; [by left|right; auto].
      * intros [?|[[->|?] ?]]; [by left|done|right; auto].
    + apply String.eqb_neq in Hp. rewrite dom_insert_L, elem_of_union,
        elem_of_singleton, elem_of_cons. split.
      * intros [[->|?]|[? ?]]; [right; auto|by left|right; auto].
      * intros [?|[[->|?] ?]]; [left; by right|left; by left|right; auto].
Qed.

(** X3.  The words of an embedding are the white-space separated
    pieces of the lower-cased text that have more than two characters,
    [__proto__] apart; the embedding of a text is that of the text in
    lower case. *)
Theorem generateEmbedding_keys_exact (text w : string) :
  (w ∈ dom (Json.generateEmbedding text) <->
   w ∈ Js.split_ws (Js.toLowerCase text) /\ (2 < String.length w)%nat /\
   w ≠ "__proto__") /\
  Json.generateEmbedding (Js.toLowerCase text) = Json.generateEmbedding text.
Proof.
  split.
  - unfold Json.generateEmbedding. rewrite countWord_dom_exact.
    unfold Json.words. rewrite list_elem_of_filter, dom_empty_L. split.
    + intros [Hw|[[? ?] ?]]; [by apply elem_of_empty in Hw|done].
    + intros (? & ? & ?). right. done.
  - unfold Json.generateEmbedding, Json.words. by rewrite toLowerCase_idemp.
Qed.

(** ** Titles and categories of captured text *)

Lemma append_length (a b : string) :
  String.length (a +:+ b) = (String.length a + String.length b)%nat.
Proof. induction a as [|c a IH]; simpl; [done|]. by rewrite IH. Qed.

Lemma take_length_le (n : nat) (s : string) : (String.length (Js.take n s) <= n)%nat.
Proof.
  revert s. induction n as [|n IH]; intros [|c s]; simpl; try lia.
  specialize (IH s). lia.
Qed.

Lemma take_length_exact (n : nat) (s : string) :
  (n <= String.length s)%nat -> String.length (Js.take n s) = n.
Proof.
  revert s. induction n as [|n IH]; intros [|c s]; simpl; try lia.
  intros Hle. rewrite IH; lia.
Qed.

Lemma allSpace_trimEnd (s : string) :
  Js.allSpace s = false -> Js.allSpace (Js.trimEnd s) = false.
Proof.
  induction s as [|c s IH]; [done|]. intros Hs.
  cbn [Js.trimEnd]. rewrite Hs. cbn [Js.allSpace] in *.
  destruct (Js.isSpace c); [|done]. simpl in *. by apply IH.
Qed.

Lemma trimEnd_idemp (s : string) : Js.trimEnd (Js.trimEnd s) = Js.trimEnd s.
Proof.
  induction s as [|c s IH]; [done|].
  cbn [Js.trimEnd]. destruct (Js.allSpace (String c s)) eqn:Hs; [done|].
  cbn [Js.trimEnd]. rewrite IH.
  assert (Js.allSpace (String c (Js.trimEnd s)) = false) as ->; [|done].
  cbn [Js.allSpace] in *. destruct (Js.isSpace c); [|done]. simpl in *.
  by apply allSpace_trimEnd.
Qed.

Lemma trimStart_head (s : string) :
  Js.startsWithSpace (Js.trimStart s) = false.
Proof. induction s as [|c s IH]; [done|]. simpl. by destruct (Js.isSpace c) eqn:Hc; simpl. Qed.

Lemma trimStart_fixed (s : string) :
  Js.startsWithSpace s = false -> Js.trimStart s = s.
Proof. destruct s as [|c s]; [done|]. simpl. by intros ->. Qed.

Lemma trimEnd_head (s : string) :
  Js.startsWithSpace s = false -> Js.startsWithSpace (Js.trimEnd s) = false.
Proof.
  destruct s as [|c s]; [done|]. cbn [Js.trimEnd].
  by destruct (Js.allSpace (String c s)).
Qed.

Lemma trim_idemp (s : string) : Js.trim (Js.trim s) = Js.trim s.
Proof.
  unfold Js.trim.
  rewrite (trimStart_fixed (Js.trimEnd _)); [apply trimEnd_idemp|].
  apply trimEnd_head, trimStart_head.
Qed.

Lemma isURLContent_trim (text : string) : isURLContent (Js.trim text) = isURLContent text.
Proof. unfold isURLContent. by rewrite trim_idemp. Qed.

(** X4.  A generated title is never empty and has at most 50
    characters, or 59 for a text that is a URL, whose title starts with
    "Link: ". *)
Theorem generateTextTitle_bounds (text : string) :
  generateTextTitle text <> EmptyString /\
  (String.length (generateTextTitle text)
   <= if isURLContent text then 59 else 50)%nat /\
  (isURLContent text = true ->
   Js.startsWith "Link: " (generateTextTitle text) = true).
Proof.
  unfold generateTextTitle. rewrite isURLContent_trim.
  destruct (isURLContent text).
  - split; [done|]. split; [|done].
    rewrite !append_length. pose proof (take_length_le 50 (Js.trim text)).
    destruct (50 <? String.length (Js.trim text))%nat; cbn [String.length]; lia.
  - split; [|split; [|done]].
    + destruct (50 <? _)%nat.
      * destruct (Js.trim (Js.firstLine (Js.trim text))) as [|c s]; done.
      * destruct (String.eqb_spec (Js.trim (Js.firstLine (Js.trim text))) EmptyString);
          done.
    + destruct (Nat.ltb_spec 50 (String.length (Js.trim (Js.firstLine (Js.trim text))))).
      * rewrite append_length, take_length_exact by lia. simpl. lia.
      * destruct (String.eqb _ EmptyString); simpl; lia.
Qed.

(** X5.  A text is filed under links, code, notes or ideas; under
    links exactly when it is a URL; and white space around the text
    changes neither the category nor the title. *)
Theorem detectCategoryFromText_range (text : string) :
  detectCategoryFromText text ∈ [Links; Code; Notes; Ideas] /\
  (detectCategoryFromText text = Links <-> isURLContent text = true) /\
  detectCategoryFromText (Js.trim text) = detectCategoryFromText text /\
  generateTextTitle (Js.trim text) = generateTextTitle text.
Proof.
  split; [|split; [|split]].
  - unfold detectCategoryFromText. repeat case_match; set_solver.
  - unfold detectCategoryFromText. rewrite isURLContent_trim.
    destruct (isURLContent text); [done|].
    split; [|done]. repeat case_match; done.
  - unfold detectCategoryFromText. by rewrite !trim_idemp.
  - unfold generateTextTitle. by rewrite !trim_idemp.
Qed.

Section Lowercase.
Context {host : Host}.

(** X6.  The searchable text of every item the store creates, from
    text, from a link or from a file, is in lower case. *)
Theorem searchableText_is_lower_case (uuid : string) (now : Z) :
  (forall text,
     Js.toLowerCase (searchableText (createTextItem uuid now text))
     = searchableText (createTextItem uuid now text)) /\
  (forall link linkTitle,
     Js.toLowerCase (searchableText (createLinkItem uuid now link linkTitle))
     = searchableText (createLinkItem uuid now link linkTitle)) /\
  (forall filePath st item st',
     Json.createFileItem uuid now filePath st = (Ok item, st') ->
     Js.toLowerCase (searchableText item) = searchableText item).
Proof.
  split; [|split].
  - intros text. simpl. apply toLowerCase_idemp.
  - intros link linkTitle. simpl. apply toLowerCase_idemp.
  - intros filePath st item st' Hcreate.
    destruct (Json.files st !! filePath) as [fileContent|] eqn:Hfile.
    + destruct (decide (Js.trim filePath = EmptyString)) as [Hblank|Hblank].
      { destruct (Json_createFileItem_fails uuid now filePath st (or_intror Hblank))
          as [msg Hmsg]. congruence. }
      destruct (isRejectedFile filePath) eqn:Hrej.
      { rewrite (Json_createFileItem_rejects _ _ _ _ _ Hfile Hblank Hrej) in Hcreate.
        congruence. }
      rewrite (Json_createFileItem_accepts _ _ _ _ _ Hfile Hblank Hrej) in Hcreate.
      injection Hcreate as <- _. simpl. apply toLowerCase_idemp.
    + destruct (Json_createFileItem_fails uuid now filePath st (or_introl Hfile))
        as [msg Hmsg]. congruence.
Qed.
End Lowercase.

(** ** The index under captures, deletions and background callbacks *)

Lemma updateItemEmbedding_spec (item : Item) (st : Json.Vault) :
  Json.updateItemEmbedding item st =
  (Ok tt,
   {| Json.files := Json.files st; Json.items := Json.items st;
      Json.embeddings := <[item_id item := initialEmbedding item]> (Json.embeddings st);
      Json.pending := Json.pending st |}).
Proof. reflexivity. Qed.

Lemma findIndex_None (key : string) (l : list Item) :
  Background.findIndex key l = None <-> key ∉ item_id <$> l.
Proof.
  unfold Background.findIndex. rewrite fmap_None, list_find_None, Forall_forall.
  rewrite list_elem_of_fmap. split.
  - intros Hl (i & -> & Hi). by apply (Hl i).
  - intros Hl i Hi Heq. apply Hl. by exists i.
Qed.

Lemma findIndex_Some (key : string) (l : list Item) (idx : nat) :
  Background.findIndex key l = Some idx ->
  exists i, l !! idx = Some i /\ item_id i = key.
Proof.
  unfold Background.findIndex. rewrite fmap_Some. intros ([j i] & Hfind & ->).
  apply list_find_Some in Hfind as (Hi & Hid & _). by exists i.
Qed.

Lemma writeBack_spec (updatedItem : Item) (st : Json.Vault) :
  Background.writeBack updatedItem st =
  (Ok tt,
   match Background.findIndex (item_id updatedItem) (Json.items st) with
   | Some itemIndex =>
       {| Json.files := Json.files st;
          Json.items := <[itemIndex := updatedItem]> (Json.items st);
          Json.embeddings :=
            <[item_id updatedItem := initialEmbedding updatedItem]> (Json.embeddings st);
          Json.pending := Json.pending st |}
   | None => st
   end).
Proof.
  unfold Background.writeBack, Json.bind, Json.loadItems. cbv beta iota.
  by destruct (Background.findIndex _ _).
Qed.

Lemma deleteItem_absent (key : string) (st : Json.Vault) :
  key ∉ item_id <$> Json.items st -> Json.deleteItem key st = (Ok tt, st).
Proof.
  intros Hkey.
  assert (Forall (fun i => item_id i ≠ key) (Json.items st)) as Hall.
  { apply Forall_forall. intros i Hi Heq. apply Hkey.
    apply list_elem_of_fmap. by exists i. }
  unfold Json.deleteItem, Json.bind, Json.loadItems, Json.saveItems. simpl.
  rewrite find_id_absent by done. simpl.
  rewrite filter_all by done. by destruct st.
Qed.

Lemma filter_other_ids (key : string) (l : list Item) :
  key ∉ item_id <$> filter (fun i => item_id i ≠ key) l.
Proof.
  rewrite list_elem_of_fmap. intros (i & -> & Hi).
  by apply list_elem_of_filter in Hi as [? _].
Qed.

(** Deleting the same id a second time changes nothing, in either store. *)
Lemma deleteItem_idempotent (key : string) (st : Json.Vault) (db : Sqlite.Db) :
  Json.deleteItem key (snd (Json.deleteItem key st))
  = (Ok tt, snd (Json.deleteItem key st)) /\
  Sqlite.deleteItem key (Sqlite.deleteItem key db) = Sqlite.deleteItem key db.
Proof.
  split.
  - apply deleteItem_absent.
    destruct (Json_deleteItem_items key st) as (-> & _). apply filter_other_ids.
  - unfold Sqlite.deleteItem. simpl. f_equal.
    apply filter_all, Forall_forall. intros r Hr.
    by apply list_elem_of_filter in Hr as [? _].
Qed.

Lemma complete_absent (t : Json.Task) (written : list (string * string))
    (updated : Item) (st : Json.Vault) :
  item_id updated ∉ item_id <$> Json.items st ->
  Background.complete t written updated st
  = (Ok tt,
     withFiles
       match t with
       | Json.MetadataExtraction _ _ => Sqlite.writeAll written (Json.files st)
       | Json.LLMEnrichment _ => Json.files st
       end st).
Proof.
  intros Habsent. apply findIndex_None in Habsent.
  destruct t as [item src|item]; unfold Background.complete.
  - unfold Background.metadataExtracted, Json.tryCatch, Json.bind,
      Background.writeFiles. cbv beta iota.
    rewrite writeBack_spec. cbn [Json.items]. by rewrite Habsent.
  - unfold Background.llmEnriched, Json.tryCatch.
    destruct (bool_decide _); [|by destruct st].
    rewrite writeBack_spec, Habsent. by destruct st.
Qed.

Lemma complete_present (t : Json.Task) (written : list (string * string))
    (updated : Item) (st : Json.Vault) (idx : nat) :
  Background.findIndex (item_id updated) (Json.items st) = Some idx ->
  item_id updated = item_id (Background.taskItem t) ->
  Background.complete t written updated st
  = (Ok tt,
     {| Json.files :=
          match t with
          | Json.MetadataExtraction _ _ => Sqlite.writeAll written (Json.files st)
          | Json.LLMEnrichment _ => Json.files st
          end;
        Json.items := <[idx := updated]> (Json.items st);
        Json.embeddings :=
          <[item_id updated := initialEmbedding updated]> (Json.embeddings st);
        Json.pending := Json.pending st |}).
Proof.
  intros Hidx Hid. destruct t as [item src|item]; unfold Background.complete.
  - unfold Background.metadataExtracted, Json.tryCatch, Json.bind,
      Background.writeFiles. cbv beta iota.
    rewrite writeBack_spec. cbn [Json.items]. by rewrite Hidx.
  - unfold Background.llmEnriched, Json.tryCatch. simpl in Hid.
    rewrite bool_decide_true by done.
    by rewrite writeBack_spec, Hidx.
Qed.

(** X7.  A background callback that finishes after its item has
    left the index does not bring the item back: the index, the
    embeddings and the queue stay as they are, and no file goes. *)
Theorem callback_after_delete (t : Json.Task) (written : list (string * string))
    (updated : Item) (st : Json.Vault) :
  item_id updated ∉ item_id <$> Json.items st ->
  fst (Background.complete t written updated st) = Ok tt /\
  Json.items (snd (Background.complete t written updated st)) = Json.items st /\
  Json.embeddings (snd (Background.complete t written updated st))
  = Json.embeddings st /\
  Json.pending (snd (Background.complete t written updated st)) = Json.pending st /\
  dom (Json.files st) ⊆ dom (Json.files (snd (Background.complete t written updated st))).
Proof.
  intros Habsent. rewrite complete_absent by done. cbn [fst snd].
  repeat split; try done. simpl.
  intros p Hp. apply elem_of_dom in Hp. apply elem_of_dom.
  destruct t; [by apply writeAll_keeps|done].
Qed.

(** X8.  A background callback whose item is still in the index
    puts the enriched item in the place of the record of that id: ids and
    order are kept, records of other ids are untouched, and the
    embedding of the id is recomputed from the enriched item. *)
Theorem callback_replaces_in_place (t : Json.Task) (written : list (string * string))
    (updated : Item) (st : Json.Vault) :
  item_id updated ∈ item_id <$> Json.items st ->
  item_id updated = item_id (Background.taskItem t) ->
  let st' := snd (Background.complete t written updated st) in
  item_id <$> Json.items st' = item_id <$> Json.items st /\
  updated ∈ Json.items st' /\
  (forall i, item_id i ≠ item_id updated -> i ∈ Json.items st' <-> i ∈ Json.items st) /\
  Json.embeddings st' = <[item_id updated := initialEmbedding updated]> (Json.embeddings st) /\
  Json.pending st' = Json.pending st.
Proof.
  intros Hin Hid.
  destruct (Background.findIndex (item_id updated) (Json.items st)) as [idx|] eqn:Hidx;
    [|by apply findIndex_None in Hidx].
  destruct (findIndex_Some _ _ _ Hidx) as (old & Hold & Hsame).
  rewrite (complete_present _ _ _ _ idx) by done.
  cbn [snd Json.items Json.embeddings Json.pending].
  split; [|split; [|split; [|done]]].
  - rewrite list_fmap_insert. apply list_insert_id.
    rewrite list_lookup_fmap, Hold. simpl. by rewrite Hsame.
  - apply list_elem_of_lookup. exists idx. apply list_lookup_insert_eq.
    by apply lookup_lt_Some in Hold.
  - intros i Hi. rewrite !list_elem_of_lookup. split.
    + intros [j Hj]. destruct (decide (j = idx)) as [->|Hne].
      * rewrite list_lookup_insert_eq in Hj by (by apply lookup_lt_Some in Hold).
        congruence.
      * rewrite list_lookup_insert_ne in Hj by done. by exists j.
    + intros [j Hj]. exists j. rewrite list_lookup_insert_ne; [done|].
      intros <-. congruence.
Qed.

Lemma callback_after_delete_witness :
  let item := createTextItem "id-a" 0 "alpha beta" in
  let st := snd (Json.deleteItem "id-a" (snd (Json.addItem item Json.emptyVault))) in
  fst (Background.complete (Json.LLMEnrichment item) [] item st) = Ok tt /\
  Json.items (snd (Background.complete (Json.LLMEnrichment item) [] item st))
  = Json.items st /\
  Json.embeddings (snd (Background.complete (Json.LLMEnrichment item) [] item st))
  = Json.embeddings st /\
  Json.pending (snd (Background.complete (Json.LLMEnrichment item) [] item st))
  = Json.pending st /\
  dom (Json.files st)
  ⊆ dom (Json.files (snd (Background.complete (Json.LLMEnrichment item) [] item st))).
Proof.
  apply (callback_after_delete
           (Json.LLMEnrichment (createTextItem "id-a" 0 "alpha beta")) []
           (createTextItem "id-a" 0 "alpha beta")
           (snd (Json.deleteItem "id-a"
                   (snd (Json.addItem (createTextItem "id-a" 0 "alpha beta")
                           Json.emptyVault))))).
  vm_compute. intros Hin. inversion Hin.
Defined.

Lemma callback_replaces_in_place_witness :
  let item := createTextItem "id-a" 0 "alpha beta" in
  let st := snd (Json.addItem item Json.emptyVault) in
  let st' := snd (Background.complete (Json.LLMEnrichment item) [] item st) in
  item_id <$> Json.items st' = item_id <$> Json.items st /\
  item ∈ Json.items st' /\
  (forall i, item_id i ≠ item_id item -> i ∈ Json.items st' <-> i ∈ Json.items st) /\
  Json.embeddings st'
  = <[item_id item := initialEmbedding item]> (Json.embeddings st) /\
  Json.pending st' = Json.pending st.
Proof.
  apply (callback_replaces_in_place
           (Json.LLMEnrichment (createTextItem "id-a" 0 "alpha beta")) []
           (createTextItem "id-a" 0 "alpha beta")
           (snd (Json.addItem (createTextItem "id-a" 0 "alpha beta") Json.emptyVault))).
  - rewrite Json_addItem_spec. simpl. apply list_elem_of_here.
  - reflexivity.
Defined.

(** ** Vaults built by captures, deletions, searches and callbacks *)

Lemma vault_eq (a b : Json.Vault) :
  Json.files a = Json.files b -> Json.items a = Json.items b ->
  Json.embeddings a = Json.embeddings b -> Json.pending a = Json.pending b ->
  a = b.
Proof. destruct a, b. simpl. by intros -> -> -> ->. Qed.

Lemma deleteItem_keeps_files (key : string) (st : Json.Vault) :
  Forall (fun i => item_path i = None) (Json.items st) ->
  Json.files (snd (Json.deleteItem key st)) = Json.files st.
Proof.
  intros Hpaths.
  unfold Json.deleteItem, Json.bind, Json.loadItems, Json.saveItems. simpl.
  destruct (find _ _) as [it|] eqn:Hfind; [|done].
  destruct (decide _); [|done].
  apply find_some in Hfind as [Hin _]. apply list_elem_of_In in Hin.
  rewrite Forall_forall in Hpaths. unfold Json.tryCatch, Json.unlinkSync.
  by rewrite (Hpaths it Hin).
Qed.

Lemma NoDup_ids_filter (P : Item -> Prop) `{!forall i, Decision (P i)} (l : list Item) :
  NoDup (item_id <$> l) -> NoDup (item_id <$> filter P l).
Proof.
  intros Hl. eapply sublist_NoDup; [done|].
  apply fmap_sublist, sublist_filter.
Qed.

Lemma Forall_filter_keeps {A} (P Q : A -> Prop) `{!forall x, Decision (P x)} (l : list A) :
  Forall Q l -> Forall Q (filter P l).
Proof.
  rewrite !Forall_forall. intros Hl x Hx. apply Hl.
  by apply list_elem_of_filter in Hx as [_ ?].
Qed.

Lemma indexed_no_backfill (st : Json.Vault) :
  indexed st ->
  bool_decide (Json.items st ≠ [] /\ Json.embeddings st = ∅) = false.
Proof.
  intros Hidx. apply bool_decide_eq_false. intros [Hne Hempty].
  unfold indexed in Hidx. destruct (Json.items st) as [|i l]; [done|].
  apply Forall_cons in Hidx as [[e He] _]. rewrite Hempty in He.
  by rewrite lookup_empty in He.
Qed.

Section Built.
Context {host : Host}.

Lemma blobKept_mono (fs fs' : gmap string string) (i : Item) :
  (forall name, is_Some (fs !! vaultFile name) -> is_Some (fs' !! vaultFile name)) ->
  blobKept fs i -> blobKept fs' i.
Proof.
  intros Hmono [Hpath Hblob]. split; [done|]. intros Htype.
  destruct (Hblob Htype) as (name & Hsp & Hon). exists name. split; [done|].
  by apply Hmono.
Qed.

Lemma blobKept_enriches (fs : gmap string string) (item updated : Item) :
  enriches item updated -> blobKept fs item -> blobKept fs updated.
Proof.
  intros (_ & Htype & _ & _ & _ & _ & Hsp & Hpath & _) [Hnone Hblob].
  split; [congruence|]. rewrite Htype, Hsp. done.
Qed.

Lemma addFileItem_cases uuid now filePath st :
  (exists msg, Json.addFileItem uuid now filePath st = (Err msg, st)) \/
  (exists fileContent,
     Json.files st !! filePath = Some fileContent /\
     Js.trim filePath ≠ EmptyString /\
     isRejectedFile filePath = false /\
     Json.addFileItem uuid now filePath st =
     (Ok (fileItemOf uuid now filePath fileContent),
      {| Json.files := stored filePath fileContent (Json.files st);
         Json.items := Json.items st ++ [fileItemOf uuid now filePath fileContent];
         Json.embeddings :=
           <[uuid := initialEmbedding (fileItemOf uuid now filePath fileContent)]>
             (Json.embeddings st);
         Json.pending :=
           Json.pending st ++
           [Json.MetadataExtraction (fileItemOf uuid now filePath fileContent) filePath;
            Json.LLMEnrichment (fileItemOf uuid now filePath fileContent)] |})).
Proof.
  unfold Json.addFileItem, Json.bind.
  destruct (Json.files st !! filePath) as [fileContent|] eqn:Hfile; cycle 1.
  { left. destruct (Json_createFileItem_fails uuid now filePath st) as [msg Hmsg];
      [by left|]. exists msg. by rewrite Hmsg. }
  destruct (decide (Js.trim filePath = EmptyString)) as [Hblank|Hblank].
  { left. destruct (Json_createFileItem_fails uuid now filePath st) as [msg Hmsg];
      [by right|]. exists msg. by rewrite Hmsg. }
  destruct (isRejectedFile filePath) eqn:Hrej.
  { left. eexists. by rewrite (Json_createFileItem_rejects _ _ _ fileContent). }
  right. exists fileContent. repeat split; try done.
  rewrite (Json_createFileItem_accepts _ _ _ fileContent) by done.
  rewrite Json_addItem_spec. cbn [Json.files Json.items Json.embeddings Json.pending].
  f_equal. f_equal.
  - change (item_id (fileItemOf uuid now filePath fileContent)) with uuid.
    apply insert_insert_eq.
  - by rewrite <- app_assoc.
Qed.

Lemma addItem_invariant (item : Item) (st : Json.Vault) :
  item_id item ∉ item_id <$> Json.items st ->
  blobKept (Json.files st) item ->
  indexed st /\ NoDup (item_id <$> Json.items st) /\
  Forall (blobKept (Json.files st)) (Json.items st) /\
  Forall (fun t => blobKept (Json.files st) (Background.taskItem t)) (Json.pending st) ->
  let st' := snd (Json.addItem item st) in
  indexed st' /\ NoDup (item_id <$> Json.items st') /\
  Forall (blobKept (Json.files st')) (Json.items st') /\
  Forall (fun t => blobKept (Json.files st') (Background.taskItem t)) (Json.pending st').
Proof.
  intros Hfresh Hitem (Hidx & Hnodup & Hblobs & Htasks).
  rewrite Json_addItem_spec. cbn [snd]. unfold indexed.
  cbn [Json.files Json.items Json.embeddings Json.pending].
  split; [|split; [|split]].
  - apply Forall_app. split.
    + eapply Forall_impl; [exact Hidx|]. intros i Hi. cbv beta in *.
      apply lookup_insert_is_Some'. by right.
    + constructor; [|done]. apply lookup_insert_is_Some'. by left.
  - rewrite fmap_app. apply NoDup_app. split; [done|]. split.
    + intros x Hx Hin. apply list_elem_of_singleton in Hin. by subst.
    + apply NoDup_singleton.
  - apply Forall_app. split; [done|]. by constructor.
  - apply Forall_app. split; [done|]. by constructor.
Qed.

(** What every built vault satisfies. *)
Lemma built_invariant (st : Json.Vault) :
  built st ->
  indexed st /\ NoDup (item_id <$> Json.items st) /\
  Forall (blobKept (Json.files st)) (Json.items st) /\
  Forall (fun t => blobKept (Json.files st) (Background.taskItem t)) (Json.pending st).
Proof.
  induction 1 as [fs|uuid now text st _ IH Hfresh|uuid now link linkTitle st _ IH Hfresh
                 |uuid now filePath st _ IH Hfresh|key st _ IH|cal now query st _ IH
                 |before t after written updated st _ IH Hq Henr|fs st _ IH Hfs].
  - unfold indexed. simpl. repeat split; constructor.
  - apply addItem_invariant; [done| |done]. split; [done|]. by intros [|].
  - apply addItem_invariant; [done| |done]. split; [done|]. by intros [|].
  - destruct (addFileItem_cases uuid now filePath st)
      as [[msg ->]|(fileContent & Hfile & Hblank & Hrej & ->)]; [done|].
    destruct IH as (Hidx & Hnodup & Hblobs & Htasks).
    assert (forall name,
              is_Some (Json.files st !! vaultFile name) ->
              is_Some (stored filePath fileContent (Json.files st) !! vaultFile name))
      as Hmono.
    { intros name [bytes Hb]. exists bytes. by apply stored_keeps. }
    assert (blobKept (stored filePath fileContent (Json.files st))
                     (fileItemOf uuid now filePath fileContent)) as Hnew.
    { split; [done|]. intros _. eexists. split; [reflexivity|].
      apply stored_has_blob. }
    cbn [snd]. unfold indexed.
    cbn [Json.files Json.items Json.embeddings Json.pending].
    split; [|split; [|split]].
    + apply Forall_app. split.
      * eapply Forall_impl; [exact Hidx|]. intros i Hi. cbv beta in *.
        apply lookup_insert_is_Some'. by right.
      * constructor; [|done]. apply lookup_insert_is_Some'. by left.
    + rewrite fmap_app. apply NoDup_app. split; [done|]. split.
      * intros x Hx Hin. apply list_elem_of_singleton in Hin. by subst.
      * apply NoDup_singleton.
    + apply Forall_app. split; [|by constructor].
      eapply Forall_impl; [exact Hblobs|]. intros i. by apply blobKept_mono.
    + apply Forall_app. split; [|by apply Forall_cons; split; [|apply Forall_singleton]].
      eapply Forall_impl; [exact Htasks|]. intros i. by apply blobKept_mono.
  - destruct IH as (Hidx & Hnodup & Hblobs & Htasks).
    destruct (Json_deleteItem_items key st) as (Hitems & Hemb & Hpend & _).
    assert (Json.files (snd (Json.deleteItem key st)) = Json.files st) as Hfiles.
    { apply deleteItem_keeps_files. eapply Forall_impl; [exact Hblobs|].
      by intros i [? _]. }
    unfold indexed. rewrite Hitems, Hemb, Hpend, Hfiles.
    split; [|split; [|split]]; try done.
    + by apply Forall_filter_keeps.
    + by apply NoDup_ids_filter.
    + by apply Forall_filter_keeps.
  - destruct (Json_smartSearch_spec cal now query st) as (r & -> & _).
    destruct IH as (Hidx & Hnodup & Hblobs & Htasks).
    cbn [snd]. unfold indexed.
    cbn [Json.files Json.items Json.embeddings Json.pending].
    by rewrite indexed_no_backfill.
  - destruct IH as (Hidx & Hnodup & Hblobs & Htasks).
    rewrite Hq in Htasks. apply Forall_app in Htasks as [Hbefore Htasks].
    apply Forall_cons in Htasks as [Ht Hafter].
    pose proof (blobKept_enriches _ _ _ Henr Ht) as Hupdated.
    set (st0 := Background.dequeue (before ++ after) st).
    assert (indexed st0 /\ NoDup (item_id <$> Json.items st0) /\
            Forall (blobKept (Json.files st0)) (Json.items st0) /\
            Forall (fun t => blobKept (Json.files st0) (Background.taskItem t))
                   (Json.pending st0)) as (Hidx0 & Hnodup0 & Hblobs0 & Htasks0).
    { subst st0. unfold indexed, Background.dequeue. simpl.
      repeat split; try done. apply Forall_app. done. }
    assert (blobKept (Json.files st0) updated) as Hupdated0 by done.
    clearbody st0. clear Hidx Hnodup Hblobs Hbefore Hafter Ht Hq Hupdated.
    assert (forall name,
              is_Some (Json.files st0 !! vaultFile name) ->
              is_Some (match t with
                       | Json.MetadataExtraction _ _ =>
                           Sqlite.writeAll written (Json.files st0)
                       | Json.LLMEnrichment _ => Json.files st0
                       end !! vaultFile name)) as Hmono.
    { intros name. destruct t; [apply writeAll_keeps|done]. }
    destruct Henr as (Hid & Henr).
    destruct (Background.findIndex (item_id updated) (Json.items st0))
      as [idx|] eqn:Hfind.
    + destruct (findIndex_Some _ _ _ Hfind) as (old & Hold & Hsame).
      rewrite (complete_present _ _ _ _ idx) by done.
      unfold indexed. cbn [snd Json.files Json.items Json.embeddings Json.pending].
      split; [|split; [|split]].
      * apply Forall_insert.
        -- eapply Forall_impl; [exact Hidx0|]. intros i Hi. cbv beta in *.
           apply lookup_insert_is_Some'. by right.
        -- apply lookup_insert_is_Some'. by left.
      * rewrite list_fmap_insert, list_insert_id; [done|].
        rewrite list_lookup_fmap, Hold. simpl. by rewrite Hsame.
      * apply Forall_insert; [|by apply (blobKept_mono (Json.files st0))].
        eapply Forall_impl; [exact Hblobs0|]. intros i. by apply blobKept_mono.
      * eapply Forall_impl; [exact Htasks0|]. intros i. by apply blobKept_mono.
    + apply findIndex_None in Hfind. rewrite complete_absent by done.
      unfold indexed, withFiles.
      cbn [snd Json.files Json.items Json.embeddings Json.pending].
      split; [done|]. split; [done|]. split.
      * eapply Forall_impl; [exact Hblobs0|]. intros i. by apply blobKept_mono.
      * eapply Forall_impl; [exact Htasks0|]. intros i. by apply blobKept_mono.
  - destruct IH as (Hidx & Hnodup & Hblobs & Htasks).
    unfold indexed, withFiles. cbn [Json.files Json.items Json.embeddings Json.pending].
    assert (forall name, is_Some (Json.files st !! vaultFile name) ->
                         is_Some (fs !! vaultFile name)) as Hmono.
    { intros name. by rewrite Hfs. }
    split; [done|]. split; [done|]. split.
    + eapply Forall_impl; [exact Hblobs|]. intros i. by apply blobKept_mono.
    + eapply Forall_impl; [exact Htasks|]. intros i. by apply blobKept_mono.
Qed.

(** X9.  In a built vault every item of the index has an embedding
    record and no two items share an id. *)
Theorem built_vault_is_indexed (st : Json.Vault) :
  built st -> indexed st /\ NoDup (item_id <$> Json.items st).
Proof. intros Hb. destruct (built_invariant st Hb) as (? & ? & _). done. Qed.

(** X10.  On a built vault a search writes nothing at all: the
    backfill of the embedding index is never needed, and the results are
    ranked with the records the captures left. *)
Theorem built_vault_search_writes_nothing (cal : Calendar) (now : Z) (query : string)
    (st : Json.Vault) :
  built st ->
  exists r,
    Json.smartSearch cal now query st = (Ok r, st) /\
    Json.results r
    = Json.rank now (Json.parseSearchIntent cal query) (Json.embeddings st) query
        (Json.items st).
Proof.
  intros Hb. destruct (built_invariant st Hb) as (Hidx & _).
  destruct (Json_smartSearch_spec cal now query st) as (r & Hr & Hres).
  pose proof (indexed_no_backfill st Hidx) as Hno.
  rewrite Hno in Hr, Hres. exists r. split; [|done].
  rewrite Hr. f_equal. by destruct st.
Qed.

(** X11.  In a built vault the blob of every image and file item is
    on the disk, in the vault directory, and no deletion removes a file
    from the disk. *)
Theorem built_vault_keeps_blobs (st : Json.Vault) :
  built st ->
  Forall (blobKept (Json.files st)) (Json.items st) /\
  forall key, Json.files (snd (Json.deleteItem key st)) = Json.files st.
Proof.
  intros Hb. destruct (built_invariant st Hb) as (_ & _ & Hblobs & _).
  split; [done|]. intros key. apply deleteItem_keeps_files.
  eapply Forall_impl; [exact Hblobs|]. by intros i [? _].
Qed.

(** X12.  In a built vault deleting the id of an item takes exactly
    that item out of the index and leaves the others in their order. *)
Theorem built_vault_delete_removes_one (st : Json.Vault) (before after : list Item)
    (i : Item) :
  built st ->
  Json.items st = before ++ i :: after ->
  Json.items (snd (Json.deleteItem (item_id i) st)) = before ++ after.
Proof.
  intros Hb Hitems. destruct (built_invariant st Hb) as (_ & Hnodup & _).
  destruct (Json_deleteItem_items (item_id i) st) as (-> & _).
  rewrite Hitems in *. rewrite fmap_app, fmap_cons in Hnodup.
  apply NoDup_app in Hnodup as (_ & Hdisj & Hafter).
  apply NoDup_cons in Hafter as [Hi _].
  rewrite filter_app, filter_cons_False by (intros Hne; by apply Hne).
  f_equal; apply filter_all, Forall_forall; intros j Hj Heq.
  - apply (Hdisj (item_id j)); [apply list_elem_of_fmap; by exists j|].
    rewrite Heq. apply list_elem_of_here.
  - apply Hi. rewrite <- Heq. apply list_elem_of_fmap. by exists j.
Qed.

End Built.

Lemma demoBuilt_is_built : built (host := Demo.host) demoBuilt.
Proof.
  unfold demoBuilt. apply built_text; [apply built_file|].
  - apply (built_first (host := Demo.host) Demo.disk).
  - apply not_elem_of_nil.
  - vm_compute. intros Hin. inversion Hin as [|? ? ? Hin']; inversion Hin'.
Qed.

Lemma built_vault_is_indexed_witness :
  indexed demoBuilt /\ NoDup (item_id <$> Json.items demoBuilt).
Proof.
  apply (built_vault_is_indexed (host := Demo.host) demoBuilt demoBuilt_is_built).
Defined.

Lemma built_vault_search_writes_nothing_witness :
  exists r,
    Json.smartSearch (Demo.calendarAt 1000) 1000 "alpha" demoBuilt = (Ok r, demoBuilt) /\
    Json.results r
    = Json.rank 1000 (Json.parseSearchIntent (Demo.calendarAt 1000) "alpha")
        (Json.embeddings demoBuilt) "alpha" (Json.items demoBuilt).
Proof.
  apply (built_vault_search_writes_nothing (host := Demo.host)
           (Demo.calendarAt 1000) 1000 "alpha" demoBuilt demoBuilt_is_built).
Defined.

Lemma built_vault_keeps_blobs_witness :
  Forall (blobKept (host := Demo.host) (Json.files demoBuilt)) (Json.items demoBuilt) /\
  forall key, Json.files (snd (Json.deleteItem key demoBuilt)) = Json.files demoBuilt.
Proof.
  apply (built_vault_keeps_blobs (host := Demo.host) demoBuilt demoBuilt_is_built).
Defined.

Lemma built_vault_delete_removes_one_witness :
  Json.items
    (snd (Json.deleteItem
            (item_id (fileItemOf (host := Demo.host) "id-1" 5 "/home/u/cat.png" "PNGDATA"))
            demoBuilt))
  = [] ++ [createTextItem "id-2" 9 "alpha beta"].
Proof.
  apply (built_vault_delete_removes_one (host := Demo.host) demoBuilt []
           [createTextItem "id-2" 9 "alpha beta"]
           (fileItemOf (host := Demo.host) "id-1" 5 "/home/u/cat.png" "PNGDATA")
           demoBuilt_is_built).
  reflexivity.
Defined.

(** ** Further properties of the search *)

Lemma smartSearch_full cal now query st :
  let intent := Json.parseSearchIntent cal query in
  let eff :=
    if bool_decide (Json.items st ≠ [] /\ Json.embeddings st = ∅)
    then Json.backfill (Json.items st) else Json.embeddings st in
  Json.smartSearch cal now query st
  = (Ok {| Json.results := Json.rank now intent eff query (Json.items st);
           Json.explanation :=
             match Json.items st with
             | [] => "No items in vault"
             | _ => Json.explain intent
             end;
           Json.intent := intent;
           Json.totalItems := length (Json.items st);
           Json.filteredCount :=
             length (List.filter
                       (fun item => Json.passesTimeFilter intent item
                                    && Json.passesTypeFilter intent item)
                       (Json.items st)) |},
     {| Json.files := Json.files st; Json.items := Json.items st;
        Json.embeddings := eff; Json.pending := Json.pending st |}).
Proof.
  destruct st as [fs its emb pend].
  cbn [Json.items Json.embeddings Json.files Json.pending].
  destruct its as [|i its].
  - rewrite bool_decide_false by (by intros [? _]). reflexivity.
  - destruct (decide (emb = ∅)) as [->|Hne].
    + rewrite bool_decide_true by done. reflexivity.
    + rewrite bool_decide_false by (by intros [_ ?]).
      unfold Json.smartSearch, Json.bind, Json.loadItems, Json.getItemEmbeddings.
      cbn [Json.items Json.embeddings Json.files Json.pending length Nat.eqb
           Nat.ltb Nat.leb andb].
      destruct (size emb =? 0)%nat eqn:Hsz.
      { apply Nat.eqb_eq, map_size_empty_iff in Hsz. done. }
      reflexivity.
Qed.

Lemma rank_elem now intent eff query items s :
  s ∈ Json.rank now intent eff query items ->
  exists item,
    item ∈ items /\
    Json.passesTimeFilter intent item = true /\
    Json.passesTypeFilter intent item = true /\
    s = Json.scoreItem now intent eff
          (Json.generateEmbedding (default query (Json.topicKeywords intent))) item.
Proof.
  unfold Json.rank. intros Hs. apply elem_of_take in Hs as (n & Hs & _).
  apply list_elem_of_lookup_2 in Hs. rewrite sortDesc_perm in Hs.
  apply list_elem_of_In, in_map_iff in Hs as (item & <- & Hitem).
  apply filter_In in Hitem as [Hin Hpass]. apply andb_true_iff in Hpass as [? ?].
  exists item. by rewrite list_elem_of_In.
Qed.

Lemma rank_length now intent eff query items :
  length (Json.rank now intent eff query items)
  = Nat.min 20
      (length (List.filter
                 (fun item => Json.passesTimeFilter intent item
                              && Json.passesTypeFilter intent item) items)).
Proof.
  unfold Json.rank. rewrite length_take, (Permutation_length (sortDesc_perm _ _)).
  by rewrite List.length_map.
Qed.

(** X13.  A search reports the size of the index and the number of
    items that pass the filters of the query; it returns the 20 best of
    those that pass, or all of them if they are fewer; every result is an
    item of the index that passes both filters. *)
Theorem smartSearch_results_are_sound cal now query st :
  exists r,
    fst (Json.smartSearch cal now query st) = Ok r /\
    Json.intent r = Json.parseSearchIntent cal query /\
    Json.totalItems r = length (Json.items st) /\
    (Json.filteredCount r <= Json.totalItems r)%nat /\
    length (Json.results r) = Nat.min 20 (Json.filteredCount r) /\
    Forall (fun s =>
              Json.s_item s ∈ Json.items st /\
              Json.passesTimeFilter (Json.intent r) (Json.s_item s) = true /\
              Json.passesTypeFilter (Json.intent r) (Json.s_item s) = true)
           (Json.results r).
Proof.
  rewrite smartSearch_full. eexists. split; [reflexivity|].
  cbn [Json.intent Json.totalItems Json.filteredCount Json.results].
  split; [done|]. split; [done|]. split; [apply List.filter_length_le|].
  split; [apply rank_length|].
  apply Forall_forall. intros s Hs.
  apply rank_elem in Hs as (item & Hin & Htime & Htype & ->). done.
Qed.

Lemma backfill_nonempty (l : list Item) : l ≠ [] -> Json.backfill l ≠ ∅.
Proof.
  destruct l as [|i l]; [done|]. intros _ Hempty.
  destruct (backfill_covers (i :: l) ∅ (item_id i)) as [e He].
  { right. simpl. apply list_elem_of_here. }
  unfold Json.backfill in Hempty. rewrite Hempty in He.
  by rewrite lookup_empty in He.
Qed.

(** X14.  After a search, no search writes anything: whatever the
    next query, the vault stays as the first search left it, and the
    same query at the same instant gets the same answer. *)
Theorem smartSearch_twice cal now query cal' now' query' st :
  let st1 := snd (Json.smartSearch cal now query st) in
  snd (Json.smartSearch cal' now' query' st1) = st1 /\
  Json.smartSearch cal now query st1 = Json.smartSearch cal now query st.
Proof.
  assert (forall c n q,
            Json.smartSearch c n q (snd (Json.smartSearch cal now query st))
            = (fst (Json.smartSearch c n q (snd (Json.smartSearch cal now query st))),
               snd (Json.smartSearch cal now query st)) /\
            (c = cal -> n = now -> q = query ->
             fst (Json.smartSearch c n q (snd (Json.smartSearch cal now query st)))
             = fst (Json.smartSearch cal now query st))) as Hboth.
  { intros c n q. rewrite (smartSearch_full cal now query st). cbn [snd].
    rewrite (smartSearch_full c n q).
    cbn [Json.files Json.items Json.embeddings Json.pending fst snd].
    set (eff := if bool_decide (Json.items st ≠ [] /\ Json.embeddings st = ∅)
                then Json.backfill (Json.items st) else Json.embeddings st).
    assert (bool_decide (Json.items st ≠ [] /\ eff = ∅) = false) as ->.
    { apply bool_decide_eq_false. intros [Hne Hempty]. subst eff.
      case_bool_decide as Hcase.
      - by apply (backfill_nonempty _ Hne).
      - apply Hcase. done. }
    split; [done|]. by intros -> -> ->. }
  intros st1. subst st1. split.
  - destruct (Hboth cal' now' query') as [-> _]. done.
  - destruct (Hboth cal now query) as [Heq Hfst].
    rewrite Heq, Hfst by done. by destruct (Json.smartSearch cal now query st).
Qed.

Lemma rank_ext now i1 i2 eff q1 q2 items :
  Json.timeFilter i1 = Json.timeFilter i2 ->
  Json.contentType i1 = Json.contentType i2 ->
  Json.generateEmbedding (default q1 (Json.topicKeywords i1))
  = Json.generateEmbedding (default q2 (Json.topicKeywords i2)) ->
  Json.rank now i1 eff q1 items = Json.rank now i2 eff q2 items /\
  List.filter (fun item => Json.passesTimeFilter i1 item && Json.passesTypeFilter i1 item)
              items
  = List.filter (fun item => Json.passesTimeFilter i2 item && Json.passesTypeFilter i2 item)
                items.
Proof.
  intros Htf Hct Hemb.
  assert (forall item, Json.passesTimeFilter i1 item && Json.passesTypeFilter i1 item
                       = Json.passesTimeFilter i2 item && Json.passesTypeFilter i2 item)
    as Hpass.
  { intros item. unfold Json.passesTimeFilter, Json.passesTypeFilter.
    by rewrite Htf, Hct. }
  assert (List.filter
            (fun item => Json.passesTimeFilter i1 item && Json.passesTypeFilter i1 item)
            items
          = List.filter
              (fun item => Json.passesTimeFilter i2 item && Json.passesTypeFilter i2 item)
              items) as Hfilter by (by apply List.filter_ext).
  split; [|done]. unfold Json.rank. rewrite Hemb, Hfilter. do 2 f_equal.
  apply List.map_ext. intros item. unfold Json.scoreItem, Json.typeScoreOf.
  by rewrite Hct.
Qed.

(** X15.  The search does not tell upper case from lower case in the
    query: the results, the counts, the explanation and the vault
    afterwards are those of the query in lower case. *)
Theorem smartSearch_ignores_case cal now query st :
  exists r r',
    Json.smartSearch cal now query st
    = (Ok r, snd (Json.smartSearch cal now (Js.toLowerCase query) st)) /\
    fst (Json.smartSearch cal now (Js.toLowerCase query) st) = Ok r' /\
    Json.results r = Json.results r' /\
    Json.explanation r = Json.explanation r' /\
    Json.totalItems r = Json.totalItems r' /\
    Json.filteredCount r = Json.filteredCount r'.
Proof.
  rewrite (smartSearch_full cal now query st),
    (smartSearch_full cal now (Js.toLowerCase query) st).
  eexists _, _. split; [reflexivity|]. split; [reflexivity|].
  cbn [Json.results Json.explanation Json.totalItems Json.filteredCount].
  assert (forall (A : Type) (f : Json.Intent -> A),
            (forall i1 i2, Json.timeFilter i1 = Json.timeFilter i2 ->
                           Json.timePhrase i1 = Json.timePhrase i2 ->
                           Json.contentType i1 = Json.contentType i2 ->
                           Json.topicKeywords i1 = Json.topicKeywords i2 ->
                           f i1 = f i2) ->
            f (Json.parseSearchIntent cal query)
            = f (Json.parseSearchIntent cal (Js.toLowerCase query))) as Hsame.
  { intros A f Hf. apply Hf; unfold Json.parseSearchIntent;
      cbn [Json.timeFilter Json.timePhrase Json.contentType Json.topicKeywords];
      by rewrite toLowerCase_idemp. }
  assert (Json.generateEmbedding
            (default query (Json.topicKeywords (Json.parseSearchIntent cal query)))
          = Json.generateEmbedding
              (default (Js.toLowerCase query)
                 (Json.topicKeywords
                    (Json.parseSearchIntent cal (Js.toLowerCase query))))) as Hemb.
  { rewrite <- (Hsame _ Json.topicKeywords) by done.
    destruct (Json.topicKeywords _); simpl; [done|].
    unfold Json.generateEmbedding, Json.words. by rewrite toLowerCase_idemp. }
  destruct (rank_ext now (Json.parseSearchIntent cal query)
              (Json.parseSearchIntent cal (Js.toLowerCase query))
              (if bool_decide (Json.items st ≠ [] /\ Json.embeddings st = ∅)
               then Json.backfill (Json.items st) else Json.embeddings st)
              query (Js.toLowerCase query) (Json.items st)) as [Hrank Hfilter].
  - by apply (Hsame _ Json.timeFilter).
  - by apply (Hsame _ Json.contentType).
  - exact Hemb.
  - split; [exact Hrank|]. split; [|split; [done|by rewrite Hfilter]].
    destruct (Json.items st); [done|].
    apply (Hsame _ Json.explain). intros i1 i2 Htf Htp Hct Htk.
    unfold Json.explain. by rewrite Htf, Htp, Hct, Htk.
Qed.

(** ** The range of the scores *)

Lemma weighted_sum_bounds (a b c : Q) :
  (0 <= a)%Q -> (0 <= b)%Q -> (1 <= c)%Q ->
  (1 # 10 <= a * (6 # 10) + b * (3 # 10) + c * (1 # 10))%Q /\
  ((a <= 1)%Q -> (b <= 1)%Q -> (c <= 2)%Q ->
   (a * (6 # 10) + b * (3 # 10) + c * (1 # 10) <= 11 # 10)%Q).
Proof.
  intros Ha Hb Hc. split.
  - apply (Qle_trans _ (0 * (6 # 10) + 0 * (3 # 10) + 1 * (1 # 10))); [done|].
    repeat apply Qplus_le_compat; by apply Qmult_le_compat_r.
  - intros Ha' Hb' Hc'.
    apply (Qle_trans _ (1 * (6 # 10) + 1 * (3 # 10) + 2 * (1 # 10))); [|done].
    repeat apply Qplus_le_compat; by apply Qmult_le_compat_r.
Qed.

Lemma recencyOf_range (now : Z) (item : Item) :
  (0 <= Json.recencyOf now item)%Q /\
  (notFromTheFuture now item -> (Json.recencyOf now item <= 1)%Q).
Proof.
  unfold Json.recencyOf, notFromTheFuture.
  destruct (Json.createdAtStr item) as [[created|]|]; try done.
  split; [apply Q.le_max_l|]. intros Hle. apply Q.max_lub; [done|].
  assert (0 <= inject_Z (now - created) / inject_Z (1000 * 60 * 60 * 24) / 30)%Q
    as Hage.
  { apply Qle_shift_div_l; [done|]. apply Qle_shift_div_l; [done|].
    rewrite !Qmult_0_l. rewrite <- (Zle_Qle 0). lia. }
  revert Hage.
  generalize (inject_Z (now - created) / inject_Z (1000 * 60 * 60 * 24) / 30)%Q.
  intros age Hage. rewrite <- (Qplus_0_r 1) at 2.
  apply Qplus_le_compat; [done|].
  apply (Qopp_le_compat 0 age) in Hage. done.
Qed.

Lemma typeScoreOf_range (intent : Json.Intent) (item : Item) :
  (1 <= Json.typeScoreOf intent item)%Q /\ (Json.typeScoreOf intent item <= 2)%Q.
Proof. unfold Json.typeScoreOf. repeat case_match; done. Qed.

(** X16.  Every result of a search has a similarity between 0 and 1,
    a recency of at least 0, a type relevance of 1 or 2 and a score of at
    least 0.1; the recency of an item not dated in the future is at most 1
    and its score at most 1.1. *)
Theorem smartSearch_scores_are_bounded cal now query st :
  exists r,
    fst (Json.smartSearch cal now query st) = Ok r /\
    Forall (fun s =>
              (0 <= Json._semanticScore s)%Q /\ (Json._semanticScore s <= 1)%Q /\
              (0 <= Json._recencyScore s)%Q /\
              (Json._typeScore s = 1%Q \/ Json._typeScore s = 2%Q) /\
              (1 # 10 <= Json._searchScore s)%Q /\
              (notFromTheFuture now (Json.s_item s) ->
               (Json._recencyScore s <= 1)%Q /\ (Json._searchScore s <= 11 # 10)%Q))
           (Json.results r).
Proof.
  rewrite smartSearch_full. eexists. split; [reflexivity|].
  cbn [Json.results]. apply Forall_forall. intros s Hs.
  apply rank_elem in Hs as (item & _ & _ & _ & ->).
  cbn [Json.scoreItem Json._semanticScore Json._recencyScore Json._typeScore
       Json._searchScore Json.s_item].
  match goal with
  | |- context [Json.semanticSimilarity ?a ?b] =>
      destruct (semanticSimilarity_range a b) as [Hs0 Hs1];
      generalize dependent (Json.semanticSimilarity a b)
  end.
  intros sem Hs0 Hs1.
  destruct (recencyOf_range now item) as [Hr0 Hr1].
  destruct (typeScoreOf_range (Json.parseSearchIntent cal query) item) as [Ht1 Ht2].
  destruct (weighted_sum_bounds sem (Json.recencyOf now item)
              (Json.typeScoreOf (Json.parseSearchIntent cal query) item) Hs0 Hr0 Ht1)
    as [Hlow Hhigh].
  repeat split; try done.
  - unfold Json.typeScoreOf. repeat case_match; auto.
  - by apply Hr1.
  - apply Hhigh; [done| |done]. by apply Hr1.
Qed.

(** ** Validation, and the save handlers of the main process *)

Section Saving.
Context {host : Host}.

(** X17.  The reason given for a rejected file is that of its group
    (audio, executable, archive, system): the two other messages of
    [getRejectionReason] are never shown for a file that is rejected.  A
    file without extension, or with the extension [.o], is not rejected
    although [getRejectionReason] has a reason for it: it is filed under
    documents. *)
Theorem rejection_reason_names_the_group (filePath : string) :
  (isRejectedFile filePath = true ->
   getRejectionReason filePath ∈
     ["Audio files not supported"; "Executable files not allowed";
      "Archive files not supported"; "System files not supported"]) /\
  (Js.toLowerCase (extname filePath) = EmptyString \/
   Js.toLowerCase (extname filePath) = ".o" ->
   isRejectedFile filePath = false /\
   detectCategoryFromFile filePath = Documents /\
   getRejectionReason filePath ∈
     ["File has no extension"; "System files not supported"]).
Proof.
  unfold isRejectedFile, getRejectionReason, detectCategoryFromFile.
  generalize (Js.toLowerCase (extname filePath)). intros ext. split.
  - unfold REJECTED_TYPES. unfold listIncludes at 1.
    rewrite !existsb_app, !orb_true_iff.
    fold (listIncludes AUDIO_TYPES ext) (listIncludes EXECUTABLE_TYPES ext)
         (listIncludes ARCHIVE_TYPES ext) (listIncludes SYSTEM_TYPES ext).
    intros Hrej.
    assert (String.eqb ext EmptyString = false) as ->.
    { apply String.eqb_neq. intros ->. by destruct Hrej as [|[|[|]]]. }
    destruct (listIncludes AUDIO_TYPES ext); [in_list|].
    destruct (listIncludes EXECUTABLE_TYPES ext); [in_list|].
    destruct (listIncludes ARCHIVE_TYPES ext); [in_list|].
    assert (listIncludes (SYSTEM_TYPES ++ [".o"]) ext = true) as ->; [|in_list].
    unfold listIncludes. rewrite existsb_app.
    destruct Hrej as [|[|[|Hsys]]]; try done.
    unfold listIncludes in Hsys. by rewrite Hsys.
  - intros [-> | ->]; (split; [reflexivity|]); (split; [reflexivity|]);
      vm_compute; in_list.
Qed.

(** X18.  For a file that exists, [validate-file] foretells what
    [save-file] does: when it answers valid, the file is saved under the
    category it names; when it answers invalid, [save-file] throws
    "File rejected: " followed by the reason it gives, and the vault is
    unchanged.  Either way the overlay is put in the saving state. *)
Theorem validateFile_foretells_saveFile uuid now filePath fileContent
    (c : Overlay.Controller) (st : Json.Vault) :
  Json.files st !! filePath = Some fileContent ->
  Js.trim filePath ≠ EmptyString ->
  if Ipc.valid (Ipc.validateFile filePath) then
    exists item st',
      Ipc.saveFile uuid now filePath (c, st)
      = (Ok item, (Overlay.setOverlayState now Overlay.Saving c, st')) /\
      Ipc.v_category (Ipc.validateFile filePath) = Some (category item) /\
      Json.items st' = Json.items st ++ [item]
  else
    exists msg,
      Ipc.reason (Ipc.validateFile filePath) = Some msg /\
      Ipc.saveFile uuid now filePath (c, st)
      = (Err ("File rejected: " +:+ msg),
         (Overlay.setOverlayState now Overlay.Saving c, st)).
Proof.
  intros Hfile Hblank. unfold Ipc.validateFile, Ipc.saveFile.
  apply String.eqb_neq in Hblank as Hblank'. rewrite Hblank'. cbn [fst snd].
  destruct (isRejectedFile filePath) eqn:Hrej; cbn [Ipc.valid Ipc.reason Ipc.v_category].
  - eexists. split; [reflexivity|].
    unfold Json.addFileItem, Json.bind.
    by rewrite (Json_createFileItem_rejects _ _ _ fileContent).
  - destruct (addFileItem_cases uuid now filePath st)
      as [[msg Hmsg]|(fileContent' & Hfile' & _ & _ & Hadd)].
    + unfold Json.addFileItem, Json.bind in Hmsg.
      rewrite (Json_createFileItem_accepts _ _ _ fileContent) in Hmsg by done.
      by rewrite Json_addItem_spec in Hmsg.
    + rewrite Hadd. eexists _, _. split; [reflexivity|]. done.
Qed.

(** X19.  A [save-file] request that fails leaves the vault as it
    was.  With a blank path the overlay is not touched either; otherwise
    the overlay has been put in the saving state and stays there. *)
Theorem saveFile_failure uuid now filePath (m m' : Ipc.Main) (msg : string) :
  Ipc.saveFile uuid now filePath m = (Err msg, m') ->
  snd m' = snd m /\
  (Js.trim filePath = EmptyString -> m' = m) /\
  (Js.trim filePath ≠ EmptyString ->
   fst m' = Overlay.setOverlayState now Overlay.Saving (fst m) /\
   (Overlay.overlayState (fst m) ≠ Overlay.Saving ->
    Overlay.overlayState (fst m') = Overlay.Saving /\
    Overlay.pressTimer (fst m') = None)).
Proof.
  unfold Ipc.saveFile.
  destruct (String.eqb_spec (Js.trim filePath) EmptyString) as [Hblank|Hblank].
  - intros [= _ <-]. done.
  - destruct (addFileItem_cases uuid now filePath (snd m))
      as [[msg' ->]|(fileContent & _ & _ & _ & ->)]; [|done].
    intros [= _ <-]. cbn [fst snd]. split; [done|]. split; [done|].
    intros _. split; [done|]. intros Hstate.
    unfold Overlay.setOverlayState.
    destruct (decide _) as [|_]; [done|].
    destruct (fst m) as [os sbp pt pst alt d drag win vis]. simpl.
    by destruct win, vis.
Qed.

End Saving.

Lemma validateFile_foretells_saveFile_witness :
  exists msg,
    Ipc.reason (Ipc.validateFile (host := Demo.host) "/home/u/song.mp3") = Some msg /\
    Ipc.saveFile (host := Demo.host) "id-1" 5 "/home/u/song.mp3"
      (Overlay.initial, Demo.vault0)
    = (Err ("File rejected: " +:+ msg),
       (Overlay.setOverlayState 5 Overlay.Saving Overlay.initial, Demo.vault0)).
Proof.
  apply (validateFile_foretells_saveFile (host := Demo.host) "id-1" 5
           "/home/u/song.mp3" "la" Overlay.initial Demo.vault0).
  - reflexivity.
  - vm_compute. discriminate.
Defined.

Lemma saveFile_failure_witness :
  snd (Overlay.setOverlayState 5 Overlay.Saving Overlay.initial, Demo.vault0)
  = snd (Overlay.initial, Demo.vault0) /\
  (Js.trim "/home/u/song.mp3" = EmptyString ->
   (Overlay.setOverlayState 5 Overlay.Saving Overlay.initial, Demo.vault0)
   = (Overlay.initial, Demo.vault0)) /\
  (Js.trim "/home/u/song.mp3" ≠ EmptyString ->
   fst (Overlay.setOverlayState 5 Overlay.Saving Overlay.initial, Demo.vault0)
   = Overlay.setOverlayState 5 Overlay.Saving (fst (Overlay.initial, Demo.vault0)) /\
   (Overlay.overlayState (fst (Overlay.initial, Demo.vault0)) ≠ Overlay.Saving ->
    Overlay.overlayState
      (fst (Overlay.setOverlayState 5 Overlay.Saving Overlay.initial, Demo.vault0))
    = Overlay.Saving /\
    Overlay.pressTimer
      (fst (Overlay.setOverlayState 5 Overlay.Saving Overlay.initial, Demo.vault0))
    = None)).
Proof.
  apply (saveFile_failure (host := Demo.host) "id-1" 5 "/home/u/song.mp3"
           (Overlay.initial, Demo.vault0)
           (Overlay.setOverlayState 5 Overlay.Saving Overlay.initial, Demo.vault0)
           "File rejected: Audio files not supported").
  reflexivity.
Defined.

(** ** The overlay controller under all of its events *)

Section OverlayAllEvents.
Import Overlay.
Local Open Scope Z_scope.

Lemma setOverlayState_wellFormed now newState c :
  wellFormed c ->
  newState ≠ Failed ->
  (newState = Pressing -> overlayState c = Hidden \/ overlayState c = Latched) ->
  wellFormed (setOverlayState now newState c).
Proof.
  intros (Hwin & Htimer & Hvis & Hfailed & Hbefore) Hnew Hpress.
  unfold setOverlayState.
  destruct (decide (overlayState c = newState)) as [|Hne]; [done|].
  destruct c as [os sbp pt pst alt d drag win vis]. simpl in *. subst win.
  destruct newState; try done.
  - destruct drag, vis; simpl; repeat split; try done; by intros [].
  - destruct Hpress as [-> | ->]; [done| |]; destruct vis; simpl;
      repeat split; try done; auto.
  - destruct vis; simpl; repeat split; try done; by intros [].
  - destruct vis; simpl; repeat split; try done; by intros [].
Qed.

Lemma wellFormed_frame (f : Controller -> Controller) :
  (forall c, overlayState (f c) = overlayState c /\
             stateBeforePressing (f c) = stateBeforePressing c /\
             pressTimer (f c) = pressTimer c /\
             overlayWindow (f c) = overlayWindow c /\
             overlayVisible (f c) = overlayVisible c) ->
  forall c, wellFormed c -> wellFormed (f c).
Proof.
  intros Hf c Hc. destruct (Hf c) as (Hs & Hb & Ht & Hw & Hv).
  unfold wellFormed. by rewrite Hs, Hb, Ht, Hw, Hv.
Qed.

Lemma advance_wellFormed now c : wellFormed c -> wellFormed (advance now c).
Proof.
  intros Hc. unfold advance.
  destruct (pressTimer c) as [due|] eqn:Hdue; [|done].
  destruct (due <=? now); [|done].
  destruct Hc as (Hwin & Htimer & Hvis & Hfailed & Hbefore).
  assert (overlayState c = Pressing) as Hstate by (apply Htimer; by rewrite Hdue).
  destruct c as [os sbp pt pst alt d drag win vis]. simpl in *. subst.
  rewrite Hvis by done. unfold holdTimeout, setOverlayState. simpl.
  repeat split; try done; by intros [].
Qed.

Lemma handleAltDChord_wellFormed now c :
  wellFormed c -> wellFormed (handleAltDChord now c).
Proof.
  intros Hc. unfold handleAltDChord.
  repeat (case_match; try done); apply setOverlayState_wellFormed; try done; auto.
  intros _. match goal with H : _ && _ = true |- _ =>
    apply andb_true_iff in H as [H _]; apply bool_decide_eq_true in H end. auto.
Qed.

Lemma handleAltDRelease_wellFormed now c :
  wellFormed c -> wellFormed (handleAltDRelease now c).
Proof.
  intros Hc. unfold handleAltDRelease.
  repeat (case_match; try done); by apply setOverlayState_wellFormed.
Qed.

Lemma handle_wellFormed now ev c : wellFormed c -> wellFormed (handle now ev c).
Proof.
  intros Hc.
  pose proof (wellFormed_frame (setPressStart (Some now))) as Hps.
  pose proof (wellFormed_frame (setPressStart None)) as Hpn.
  pose proof (fun v => wellFormed_frame (setAlt v)) as Halt.
  pose proof (fun v => wellFormed_frame (setD v)) as Hd.
  pose proof (fun v => wellFormed_frame (setDragging v)) as Hdrag.
  destruct ev as [keycode|keycode| | |isDragging]; simpl.
  - unfold onKeyDown.
    repeat (case_match; try done);
      repeat first [ apply handleAltDChord_wellFormed
                   | apply Hps; [by intros []|]
                   | apply Halt; [by intros []|]
                   | apply Hd; [by intros []|] ]; done.
  - unfold onKeyUp.
    repeat (case_match; try done);
      repeat first [ apply handleAltDRelease_wellFormed
                   | apply Hpn; [by intros []|]
                   | apply Halt; [by intros []|]
                   | apply Hd; [by intros []|] ]; done.
  - by apply setOverlayState_wellFormed.
  - apply setOverlayState_wellFormed; [|done..].
    apply Hdrag; [by intros []|done].
  - apply Hdrag; [by intros []|done].
Qed.

Lemma run_wellFormed_from trace c : wellFormed c -> wellFormed (run trace c).
Proof.
  unfold run. revert c.
  induction trace as [|timed trace IH]; intros c Hc; simpl; [done|].
  apply IH. unfold step. by apply handle_wellFormed, advance_wellFormed.
Qed.

(** X20.  Whatever the keyboard and the renderer send, and whenever:
    the hold timer is pending exactly while the machine is pressing, the
    overlay window is shown in every state but hidden, the state ['error']
    is never entered, and a press remembers whether it started from hidden
    or from latched. *)
Theorem run_is_wellFormed (trace : list (Z * Event)) : wellFormed (run trace initial).
Proof.
  apply run_wellFormed_from. unfold wellFormed, initial. simpl.
  repeat split; try done; by intros [].
Qed.

Lemma step_saving timed c :
  snd timed ≠ HideOverlay ->
  overlayState c = Saving -> pressTimer c = None ->
  overlayState (step c timed) = Saving /\ pressTimer (step c timed) = None /\
  overlayVisible (step c timed) = overlayVisible c.
Proof.
  destruct timed as [now ev]. simpl. intros Hev Hstate Htimer.
  unfold step, advance. rewrite Htimer. simpl.
  destruct c as [os sbp pt pst alt d drag win vis]. simpl in *. subst.
  destruct ev as [keycode|keycode| | |isDragging]; try done; simpl.
  - unfold onKeyDown. simpl.
    destruct (isAltKey keycode), (isDKey keycode), alt, d, (unset pst); done.
  - unfold onKeyUp, isChorded. simpl.
    destruct (isAltKey keycode), (isDKey keycode), alt, d; done.
Qed.

(** X21.  While a save is in progress the overlay is locked: no key
    event and no timer takes the machine out of the saving state or
    hides the window; only the renderer's request to hide does. *)
Theorem saving_locks_the_overlay (trace : list (Z * Event)) (c : Controller) :
  overlayState c = Saving ->
  pressTimer c = None ->
  noHideRequest trace ->
  overlayState (run trace c) = Saving /\
  overlayVisible (run trace c) = overlayVisible c /\
  forall now, overlayState (handle now HideOverlay (run trace c)) = Hidden.
Proof.
  intros Hstate Htimer Htrace.
  assert (overlayState (run trace c) = Saving /\ pressTimer (run trace c) = None /\
          overlayVisible (run trace c) = overlayVisible c) as (Hs & Ht & Hv).
  { unfold run. revert c Hstate Htimer.
    induction Htrace as [|timed trace Hev _ IH]; intros c Hstate Htimer; simpl;
      [done|].
    destruct (step_saving timed c Hev Hstate Htimer) as (Hs & Ht & Hv).
    rewrite <- Hv. by apply IH. }
  split; [done|]. split; [done|]. intros now. simpl.
  unfold setOverlayState.
  destruct (run trace c) as [os sbp pt pst alt d drag win vis].
  simpl in Hs, Ht. subst os pt. simpl. by destruct win, vis.
Qed.

Lemma step_dragging timed c :
  snd timed ≠ HideOverlay /\ snd timed ≠ SetOverlayDragState false ->
  isDraggingInOverlay c = true -> overlayVisible c = true ->
  isDraggingInOverlay (step c timed) = true /\ overlayVisible (step c timed) = true.
Proof.
  destruct timed as [now ev]. simpl. intros [Hhide Hend] Hdrag Hvis.
  assert (forall t s c', isDraggingInOverlay c' = true -> overlayVisible c' = true ->
            isDraggingInOverlay (setOverlayState t s c') = true /\
            overlayVisible (setOverlayState t s c') = true) as Hset.
  { intros t s c' Hd Hv. unfold setOverlayState.
    destruct (decide _); [done|].
    destruct c' as [os sbp pt pst alt d drag win vis]. simpl in *. subst.
    destruct s, win; simpl; repeat case_match; done. }
  assert (isDraggingInOverlay (advance now c) = true /\
          overlayVisible (advance now c) = true) as [Hdrag' Hvis'].
  { unfold advance. destruct (pressTimer c) as [due|]; [|done].
    destruct (due <=? now); [|done]. unfold holdTimeout.
    apply Hset; by destruct c. }
  unfold step. simpl. revert Hdrag' Hvis'. generalize (advance now c).
  clear c Hdrag Hvis. intros c Hdrag Hvis.
  assert (forall c', isDraggingInOverlay c' = true -> overlayVisible c' = true ->
            isDraggingInOverlay (handleAltDChord now c') = true /\
            overlayVisible (handleAltDChord now c') = true) as Hchord.
  { intros c' Hd Hv. unfold handleAltDChord. rewrite Hd.
    destruct (decide _); [done|]. by apply Hset. }
  assert (forall c', isDraggingInOverlay c' = true -> overlayVisible c' = true ->
            isDraggingInOverlay (handleAltDRelease now c') = true /\
            overlayVisible (handleAltDRelease now c') = true) as Hrelease.
  { intros c' Hd Hv. unfold handleAltDRelease.
    repeat (case_match; try done); by apply Hset. }
  destruct ev as [keycode|keycode| | |isDragging]; try done; simpl.
  - unfold onKeyDown.
    repeat (case_match; try done); try apply Hchord; by destruct c.
  - unfold onKeyUp.
    repeat (case_match; try done); try apply Hrelease; by destruct c.
  - by apply Hset.
  - destruct isDragging; [|done]. by destruct c.
Qed.

(** X22.  While a file is dragged over the overlay nothing hides the
    window: no key event and no timer, whatever the state of the
    machine, until the renderer reports the end of the drag or asks to
    hide. *)
Theorem drag_keeps_the_overlay_visible (trace : list (Z * Event)) (c : Controller) :
  isDraggingInOverlay c = true ->
  overlayVisible c = true ->
  dragGoesOn trace ->
  isDraggingInOverlay (run trace c) = true /\ overlayVisible (run trace c) = true.
Proof.
  intros Hdrag Hvis Htrace. unfold run. revert c Hdrag Hvis.
  induction Htrace as [|timed trace Hev _ IH]; intros c Hdrag Hvis; simpl; [done|].
  destruct (step_dragging timed c Hev Hdrag Hvis) as [Hd Hv]. by apply IH.
Qed.

(** X23.  The chord does not depend on which of its two keys goes
    down first: Alt then D and D then Alt, at the same two instants, leave
    the controller in the same condition. *)
Theorem chord_order_is_irrelevant (c : Controller) (t1 t2 ka kd : Z) :
  isAltKey ka = true ->
  isDKey kd = true ->
  altPhysicallyDown c = false ->
  dPhysicallyDown c = false ->
  run [(t1, KeyDown ka); (t2, KeyDown kd)] c
  = run [(t1, KeyDown kd); (t2, KeyDown ka)] c.
Proof.
  intros Ha Hd Halt Hdown.
  assert (isAltKey kd = false) as Hnot.
  { unfold isDKey in Hd. apply Z.eqb_eq in Hd as ->. reflexivity. }
  assert (altPhysicallyDown (advance t1 c) = false /\
          dPhysicallyDown (advance t1 c) = false) as [Halt1 Hdown1].
  { unfold advance. destruct (pressTimer c) as [due|]; [|done].
    destruct (due <=? t1); [|done].
    unfold holdTimeout, setOverlayState.
    destruct (decide _); [by destruct c|].
    destruct c as [os sbp pt pst alt d drag win vis]. simpl in *. by destruct win, vis. }
  unfold run, step. cbn [foldl fst snd handle].
  revert Halt1 Hdown1. generalize (advance t1 c). clear c Halt Hdown.
  intros c Halt Hdown.
  destruct c as [os sbp pt pst alt d drag win vis]. simpl in Halt, Hdown. subst.
  unfold onKeyDown at 2 4. rewrite Ha, Hd, Hnot.
  cbn [altPhysicallyDown dPhysicallyDown negb setAlt setD pressStartTime andb].
  rewrite !andb_true_r.
  assert (forall c1 c2 : Controller,
            overlayState c1 = overlayState c2 ->
            stateBeforePressing c1 = stateBeforePressing c2 ->
            pressTimer c1 = pressTimer c2 ->
            pressStartTime c1 = pressStartTime c2 ->
            isDraggingInOverlay c1 = isDraggingInOverlay c2 ->
            overlayWindow c1 = overlayWindow c2 ->
            overlayVisible c1 = overlayVisible c2 ->
            altPhysicallyDown c1 = true -> dPhysicallyDown c1 = false ->
            altPhysicallyDown c2 = false -> dPhysicallyDown c2 = true ->
            onKeyDown t2 kd (advance t2 c1) = onKeyDown t2 ka (advance t2 c2)) as Hsecond.
  { intros c1 c2 Hos Hsbp Hpt Hpst Hdrag Hwin Hvis Ha1 Hd1 Ha2 Hd2.
    destruct c1 as [os1 sbp1 pt1 pst1 alt1 d1 drag1 win1 vis1].
    destruct c2 as [os2 sbp2 pt2 pst2 alt2 d2 drag2 win2 vis2].
    simpl in *. subst.
    unfold onKeyDown. rewrite Ha, Hd, Hnot.
    unfold advance, holdTimeout. simpl.
    destruct pt2 as [due|]; [destruct (due <=? t2)|];
      destruct os2, win2, vis2; simpl; rewrite ?andb_false_r; try reflexivity. }
  destruct (unset pst); apply Hsecond; reflexivity.
Qed.

End OverlayAllEvents.

Lemma saving_locks_the_overlay_witness :
  let c := Overlay.setOverlayState 5 Overlay.Saving Overlay.initial in
  let trace := [(10, Overlay.KeyDown Overlay.ALT); (20, Overlay.KeyDown Overlay.KEY_D);
                (30, Overlay.KeyUp Overlay.KEY_D)]%Z in
  Overlay.overlayState (Overlay.run trace c) = Overlay.Saving /\
  Overlay.overlayVisible (Overlay.run trace c) = Overlay.overlayVisible c /\
  forall now,
    Overlay.overlayState (Overlay.handle now Overlay.HideOverlay (Overlay.run trace c))
    = Overlay.Hidden.
Proof.
  apply (saving_locks_the_overlay
           [(10, Overlay.KeyDown Overlay.ALT); (20, Overlay.KeyDown Overlay.KEY_D);
            (30, Overlay.KeyUp Overlay.KEY_D)]%Z
           (Overlay.setOverlayState 5 Overlay.Saving Overlay.initial)).
  - reflexivity.
  - reflexivity.
  - repeat constructor; discriminate.
Defined.

Lemma drag_keeps_the_overlay_visible_witness :
  let c := Overlay.setDragging true
             (Overlay.setOverlayState 5 Overlay.Latched Overlay.initial) in
  let trace := [(10, Overlay.KeyDown Overlay.ALT); (20, Overlay.KeyDown Overlay.KEY_D);
                (30, Overlay.KeyUp Overlay.KEY_D)]%Z in
  Overlay.isDraggingInOverlay (Overlay.run trace c) = true /\
  Overlay.overlayVisible (Overlay.run trace c) = true.
Proof.
  apply (drag_keeps_the_overlay_visible
           [(10, Overlay.KeyDown Overlay.ALT); (20, Overlay.KeyDown Overlay.KEY_D);
            (30, Overlay.KeyUp Overlay.KEY_D)]%Z
           (Overlay.setDragging true
              (Overlay.setOverlayState 5 Overlay.Latched Overlay.initial))).
  - reflexivity.
  - reflexivity.
  - repeat constructor; discriminate.
Defined.

Lemma chord_order_is_irrelevant_witness :
  Overlay.run [(0, Overlay.KeyDown Overlay.ALT); (10, Overlay.KeyDown Overlay.KEY_D)]%Z
    Overlay.initial
  = Overlay.run [(0, Overlay.KeyDown Overlay.KEY_D); (10, Overlay.KeyDown Overlay.ALT)]%Z
      Overlay.initial.
Proof.
  apply (chord_order_is_irrelevant Overlay.initial 0 10 Overlay.ALT Overlay.KEY_D);
    reflexivity.
Defined.

(** ** The drag tracker of the preload script *)

(** X24.  Over any run of drag events the drag depth is never
    negative and never exceeds the number of [dragenter] events; when no
    event raises, the cached paths are those of the last [dragenter] or
    [drop] that carried a path: [dragleave], and an event without paths,
    leave the cache alone. *)
Theorem drag_tracker_invariant (events : list Preload.Dom) :
  let t := foldl Preload.listen Preload.initial events in
  (0 <= Preload._dragDepth t <= entered events)%Z /\
  (Forall readable events ->
   Preload.extractDroppedFilePaths t
   = default [] (last (filter (fun paths => paths ≠ []) (carried <$> events)))).
Proof.
  cbv zeta. induction events as [|ev events IH] using rev_ind.
  - split; [done|]. done.
  - destruct IH as [Hdepth Hpaths]. rewrite foldl_app. cbn [foldl].
    set (t := foldl Preload.listen Preload.initial events) in *.
    assert (forall e t', Preload._dragDepth (Preload._captureDropPaths e t')
                         = Preload._dragDepth t') as Hcap.
    { intros e t'. unfold Preload._captureDropPaths.
      destruct (Preload.throws e); [done|]. by destruct (0 <? _)%nat. }
    split.
    + unfold entered in *. rewrite List.filter_app, length_app, Nat2Z.inj_add.
      destruct ev as [e| |e]; cbn [Preload.listen List.filter length].
      * rewrite Hcap. simpl. lia.
      * unfold Preload._decrementDragDepth. simpl.
        destruct (Z.leb_spec (Preload._dragDepth t - 1) 0); lia.
      * simpl. lia.
    + intros Hall. apply Forall_app in Hall as [Hall Hev].
      rewrite Forall_singleton in Hev. specialize (Hpaths Hall).
      unfold Preload.extractDroppedFilePaths in *.
      rewrite fmap_app, filter_app. cbn [fmap list_fmap].
      assert (forall e t',
                Preload.throws e = false ->
                Preload._lastDroppedPaths (Preload._captureDropPaths e t')
                = if decide (omap id (imap (Preload.pathOf (Preload.uriListPaths e))
                                        (Preload.dropped e)) ≠ [])
                  then omap id (imap (Preload.pathOf (Preload.uriListPaths e))
                                  (Preload.dropped e))
                  else Preload._lastDroppedPaths t') as Hcapture.
      { intros e t' Hquiet. unfold Preload._captureDropPaths. rewrite Hquiet.
        destruct (omap id _) as [|p paths].
        - by rewrite decide_False by (intros Hne; by apply Hne).
        - by rewrite decide_True by done. }
      destruct ev as [e| |e]; cbn [Preload.listen carried readable] in *.
      * rewrite Hcapture by done. cbn [Preload._incrementDragDepth
          Preload._lastDroppedPaths].
        destruct (decide _) as [Hne|He].
        -- rewrite filter_cons_True by done. rewrite filter_nil. by rewrite last_snoc.
        -- rewrite filter_cons_False by done. rewrite filter_nil, app_nil_r. done.
      * rewrite filter_cons_False by (intros Hne; by apply Hne).
        rewrite filter_nil, app_nil_r. done.
      * cbn [Preload._lastDroppedPaths]. rewrite Hcapture by done.
        destruct (decide _) as [Hne|He].
        -- rewrite filter_cons_True by done. rewrite filter_nil. by rewrite last_snoc.
        -- rewrite filter_cons_False by done. rewrite filter_nil, app_nil_r. done.
Qed.

(** ** Further properties of the SQLite store *)

Lemma Qmult_swap (a b : Q) : (a * b)%Q = (b * a)%Q.
Proof. unfold Qmult. by rewrite Z.mul_comm, Pos.mul_comm. Qed.

Lemma cosine_sums_swap (e1 e2 : list Q) (dp n1 n2 : Q) :
  foldl (fun '(dp, n1, n2) '(a, b) => (dp + a * b, n1 + a * a, n2 + b * b)%Q)
        (dp, n1, n2) (zip e2 e1)
  = let '(dp', m1, m2) :=
      foldl (fun '(dp, n1, n2) '(a, b) => (dp + a * b, n1 + a * a, n2 + b * b)%Q)
            (dp, n2, n1) (zip e1 e2) in
    (dp', m2, m1).
Proof.
  revert e2 dp n1 n2. induction e1 as [|a e1 IH]; intros [|b e2] dp n1 n2;
    simpl; try done.
  rewrite IH. by rewrite (Qmult_swap b a).
Qed.

Section SqliteFacts.
Context {host : Host} {engine : Sqlite.Engine}.

(** X25.  The cosine similarity does not depend on the order of its
    arguments, whatever [Math.sqrt] returns, and it is 0 when a vector is
    missing or the two have different lengths. *)
Theorem cosineSimilarity_symmetric (a b : option (list Q)) :
  Sqlite.cosineSimilarity a b = Sqlite.cosineSimilarity b a /\
  (length <$> a ≠ length <$> b \/ a = None ->
   Sqlite.cosineSimilarity a b = 0%Q).
Proof.
  split.
  - destruct a as [e1|], b as [e2|]; try done. unfold Sqlite.cosineSimilarity.
    rewrite (Nat.eqb_sym (length e2)).
    destruct (length e1 =? length e2)%nat; [|done]. cbn [negb].
    rewrite (cosine_sums_swap e1 e2).
    destruct (foldl _ _ (zip e1 e2)) as [[dp n1] n2].
    by rewrite (Qmult_swap (Sqlite.sqrt n2)).
  - intros [Hlen| ->]; [|done].
    destruct a as [e1|], b as [e2|]; try done. unfold Sqlite.cosineSimilarity.
    destruct (Nat.eqb_spec (length e1) (length e2)) as [Heq|]; [|done].
    simpl in Hlen. by rewrite Heq in Hlen.
Qed.

Lemma upsert_ids (r : Sqlite.Row) (table : list Sqlite.Row) :
  Sqlite.id <$> Sqlite.upsert r table
  = if bool_decide (Sqlite.id r ∈ Sqlite.id <$> table) then Sqlite.id <$> table
    else (Sqlite.id <$> table) ++ [Sqlite.id r].
Proof.
  induction table as [|r' table IH]; cbn [Sqlite.upsert].
  - rewrite bool_decide_false; [done|]. apply not_elem_of_nil.
  - destruct (String.eqb_spec (Sqlite.id r') (Sqlite.id r)) as [Heq|Hne].
    + rewrite bool_decide_true; [done|]. rewrite fmap_cons, Heq.
      apply list_elem_of_here.
    + rewrite !fmap_cons, IH.
      destruct (decide (Sqlite.id r ∈ Sqlite.id <$> table)) as [Hin|Hout].
      * rewrite !bool_decide_true; [done| |done]. by apply list_elem_of_further.
      * rewrite !bool_decide_false; [done| |done].
        intros Hin. apply elem_of_cons in Hin as [?|?]; [by apply Hne|done].
Qed.

Lemma upsert_others (r : Sqlite.Row) (table : list Sqlite.Row) (r0 : Sqlite.Row) :
  Sqlite.id r0 ≠ Sqlite.id r -> r0 ∈ table -> r0 ∈ Sqlite.upsert r table.
Proof.
  intros Hne. induction table as [|r' table IH]; intros Hin; simpl.
  - by apply elem_of_nil in Hin.
  - apply elem_of_cons in Hin as [<-|Hin].
    + apply String.eqb_neq in Hne. rewrite Hne. apply list_elem_of_here.
    + destruct (String.eqb (Sqlite.id r') (Sqlite.id r));
        apply list_elem_of_further; auto.
Qed.

Lemma upsert_conflict (r : Sqlite.Row) (table : list Sqlite.Row) (old : Sqlite.Row) :
  NoDup (Sqlite.id <$> table) -> old ∈ table -> Sqlite.id old = Sqlite.id r ->
  exists new,
    new ∈ Sqlite.upsert r table /\
    Sqlite.id new = Sqlite.id r /\
    Sqlite.type new = Sqlite.type old /\
    Sqlite.created_at new = Sqlite.created_at old /\
    Sqlite.r_title new = Sqlite.r_title r /\
    Sqlite.r_content new = Sqlite.r_content r /\
    Sqlite.embedding new = Sqlite.embedding r /\
    Sqlite.updated_at new = Sqlite.updated_at r.
Proof.
  intros Hnodup Hin Hid. induction table as [|r' table IH]; simpl.
  - by apply elem_of_nil in Hin.
  - cbn [fmap list_fmap] in Hnodup. apply NoDup_cons in Hnodup as [Hr' Hnodup].
    apply elem_of_cons in Hin as [<-|Hin].
    + apply String.eqb_eq in Hid as Hid'. rewrite Hid'.
      eexists. split; [apply list_elem_of_here|]. by rewrite Hid.
    + destruct (String.eqb_spec (Sqlite.id r') (Sqlite.id r)) as [Heq|Hne].
      * exfalso. apply Hr'. rewrite Heq, <- Hid. apply list_elem_of_fmap.
        by exists old.
      * destruct (IH Hnodup Hin) as (new & Hnew & Hrest).
        exists new. split; [by apply list_elem_of_further|done].
Qed.

(** X26.  [saveItem] inserts or updates by id: an id not in the
    table gets a new row at the end; an id in the table keeps its row,
    its position, its type and its creation date, and takes the new
    title, content, embedding and update date.  Rows of other ids are
    kept, and ids stay unique. *)
Theorem saveItem_inserts_or_updates uuid now (item : Item) (db : Sqlite.Db) :
  let row := fst (Sqlite.saveItem uuid now item db) in
  let db' := snd (Sqlite.saveItem uuid now item db) in
  Sqlite.id <$> Sqlite.rows db'
  = (if bool_decide (Sqlite.id row ∈ Sqlite.id <$> Sqlite.rows db)
     then Sqlite.id <$> Sqlite.rows db
     else (Sqlite.id <$> Sqlite.rows db) ++ [Sqlite.id row]) /\
  (forall r, Sqlite.id r ≠ Sqlite.id row ->
             r ∈ Sqlite.rows db -> r ∈ Sqlite.rows db') /\
  (NoDup (Sqlite.id <$> Sqlite.rows db) ->
   NoDup (Sqlite.id <$> Sqlite.rows db') /\
   forall old, old ∈ Sqlite.rows db -> Sqlite.id old = Sqlite.id row ->
     exists new,
       new ∈ Sqlite.rows db' /\
       Sqlite.id new = Sqlite.id row /\
       Sqlite.type new = Sqlite.type old /\
       Sqlite.created_at new = Sqlite.created_at old /\
       Sqlite.r_title new = title item /\
       Sqlite.embedding new = Sqlite.embedding row /\
       Sqlite.updated_at new = DateAt now).
Proof.
  cbv zeta. unfold Sqlite.saveItem. cbv zeta. cbn [fst snd Sqlite.rows].
  set (row := Sqlite.Build_Row _ _ _ _ _ _ _ _ _ _ _ _ _).
  split; [apply upsert_ids|]. split; [intros r; apply upsert_others|].
  intros Hnodup. split.
  - rewrite upsert_ids. case_bool_decide as Hin; [done|].
    apply NoDup_app. split; [done|]. split; [|apply NoDup_singleton].
    intros x Hx Hx'. apply list_elem_of_singleton in Hx'. by subst.
  - intros old Hold Hid.
    destruct (upsert_conflict row (Sqlite.rows db) old Hnodup Hold Hid)
      as (new & Hnew & Hi & Ht & Hc & Htitle & _ & Hemb & Hupd).
    exists new. done.
Qed.

(** X27.  The two stores take in a file in the same way: on the
    same disk, [createFileItem] of the JSON store and of the SQLite store
    return the same item and leave the same files, or throw the same
    error and leave the disk as it was. *)
Theorem createFileItem_same_in_both_stores uuid now filePath
    (st : Json.Vault) (db : Sqlite.Db) :
  Json.files st = Sqlite.files db ->
  match Json.createFileItem uuid now filePath st,
        Sqlite.createFileItem uuid now filePath db with
  | (Ok item, st'), (Ok item', db') =>
      item = item' /\ Json.files st' = Sqlite.files db' /\
      Sqlite.rows db' = Sqlite.rows db
  | (Err msg, st'), (Err msg', db') => msg = msg' /\ st' = st /\ db' = db
  | _, _ => False
  end.
Proof.
  intros Hfiles.
  destruct (String.eqb (Js.trim filePath) EmptyString) eqn:Hblank.
  { unfold Json.createFileItem, Sqlite.createFileItem. rewrite Hblank. done. }
  apply String.eqb_neq in Hblank as Hblank'.
  destruct (Json.files st !! filePath) as [fileContent|] eqn:Hfile.
  - destruct (isRejectedFile filePath) eqn:Hrej.
    + rewrite (Json_createFileItem_rejects _ _ _ _ _ Hfile Hblank' Hrej).
      unfold Sqlite.createFileItem. rewrite Hblank, <- Hfiles, Hfile, Hrej. done.
    + rewrite (Json_createFileItem_accepts _ _ _ _ _ Hfile Hblank' Hrej).
      rewrite (Sqlite_createFileItem_accepts _ _ _ fileContent) by
        (try done; by rewrite <- Hfiles).
      cbn [Json.files Sqlite.files Sqlite.rows]. by rewrite Hfiles.
  - unfold Json.createFileItem, Sqlite.createFileItem. rewrite Hblank.
    unfold Json.bind at 1. unfold Json.existsSync at 1. cbv beta iota.
    rewrite <- Hfiles, Hfile.
    rewrite bool_decide_false by (by intros [??]). done.
Qed.

(** [semanticSearch] returns at most five rows, each a row
    of the table that has an embedding; for a blank query, or when the
    embedding pipeline fails on the query, it returns nothing. *)
Lemma semanticSearch_results (query : string) (db : Sqlite.Db) :
  (length (Sqlite.semanticSearch query db) <= 5)%nat /\
  Forall (fun r => r ∈ Sqlite.rows db /\ is_Some (Sqlite.embedding r))
         (Sqlite.semanticSearch query db) /\
  (Js.trim query = EmptyString \/ Sqlite.embed (Js.trim query) = None ->
   Sqlite.semanticSearch query db = []).
Proof.
  unfold Sqlite.semanticSearch, Sqlite.generateEmbedding.
  split; [|split].
  - destruct (String.eqb _ _); [simpl; lia|].
    destruct (Sqlite.embed _); [|simpl; lia].
    rewrite length_take. lia.
  - destruct (String.eqb _ _); [done|].
    destruct (Sqlite.embed _); [|done].
    apply Forall_forall. intros r Hr. apply elem_of_take in Hr as (n & Hr & _).
    apply list_elem_of_lookup_2 in Hr. rewrite sortDesc_perm in Hr.
    by apply list_elem_of_filter in Hr as [? ?].
  - intros [-> | Hfail]; [done|].
    destruct (String.eqb _ _); [done|]. by rewrite Hfail.
Qed.

End SqliteFacts.

Lemma createFileItem_same_in_both_stores_witness :
  match Json.createFileItem (host := Demo.host) "id-1" 5 "/home/u/cat.png" Demo.vault0,
        Sqlite.createFileItem (host := Demo.host) "id-1" 5 "/home/u/cat.png" Demo.db0 with
  | (Ok item, st'), (Ok item', db') =>
      item = item' /\ Json.files st' = Sqlite.files db' /\
      Sqlite.rows db' = Sqlite.rows Demo.db0
  | (Err msg, st'), (Err msg', db') => msg = msg' /\ st' = Demo.vault0 /\ db' = Demo.db0
  | _, _ => False
  end.
Proof.
  apply (createFileItem_same_in_both_stores (host := Demo.host) "id-1" 5
           "/home/u/cat.png" Demo.vault0 Demo.db0).
  reflexivity.
Defined.

(** ** A capture undone, the parsed intent, and pasted URLs *)

Lemma find_last_fresh (key : string) (l : list Item) (item : Item) :
  key ∉ item_id <$> l -> item_id item = key ->
  find (fun i => String.eqb (item_id i) key) (l ++ [item]) = Some item.
Proof.
  intros Hfresh Hid. induction l as [|i l IH]; simpl.
  - apply String.eqb_eq in Hid. by rewrite Hid.
  - rewrite fmap_cons in Hfresh. apply not_elem_of_cons in Hfresh as [Hne Hfresh].
    assert (String.eqb (item_id i) key = false) as ->.
    { apply String.eqb_neq. congruence. }
    by apply IH.
Qed.

(** X28.  Deleting a note right after its capture gives back the
    index and the disk as they were, but not the whole vault: the
    embedding record of the note stays, and so does its queued
    enrichment; when that callback later completes, the note does not come
    back. *)
Theorem capture_then_delete uuid now text (enriched : Item) (st : Json.Vault) :
  uuid ∉ item_id <$> Json.items st ->
  let item := createTextItem uuid now text in
  let st1 := snd (Json.addTextItem uuid now text st) in
  let st2 := snd (Json.deleteItem uuid st1) in
  let st3 := snd (Background.complete (Json.LLMEnrichment item) [] enriched st2) in
  Json.items st2 = Json.items st /\
  Json.files st2 = Json.files st /\
  Json.embeddings st2 !! uuid = Some (initialEmbedding item) /\
  Json.pending st2 = Json.pending st ++ [Json.LLMEnrichment item] /\
  Json.items st3 = Json.items st /\
  Json.embeddings st3 = Json.embeddings st2.
Proof.
  intros Hfresh. cbv zeta. unfold Json.addTextItem. rewrite Json_addItem_spec.
  cbn [snd]. set (item := createTextItem uuid now text).
  set (st1 := Json.Build_Vault _ _ _ _).
  destruct (Json_deleteItem_items uuid st1) as (Hitems & Hemb & Hpend & _).
  assert (Json.items (snd (Json.deleteItem uuid st1)) = Json.items st) as Hback.
  { rewrite Hitems. subst st1. cbn [Json.items].
    rewrite filter_app, filter_cons_False by (intros Hne; by apply Hne).
    rewrite filter_nil, app_nil_r. apply filter_all, Forall_forall.
    intros i Hi Heq. apply Hfresh. apply list_elem_of_fmap. by exists i. }
  split; [done|]. split; [|split; [|split; [done|]]].
  - unfold Json.deleteItem, Json.bind, Json.loadItems, Json.saveItems.
    cbv beta iota. subst st1. cbn [Json.items].
    rewrite (find_last_fresh uuid (Json.items st) item) by done. done.
  - rewrite Hemb. subst st1. cbn [Json.embeddings]. apply lookup_insert_eq.
  - destruct (decide (item_id enriched = uuid)) as [Hid|Hid].
    + rewrite complete_absent by (by rewrite Hback, Hid). done.
    + unfold Background.complete, Background.llmEnriched, Json.tryCatch.
      rewrite bool_decide_false by done. done.
Qed.

Lemma capture_then_delete_witness :
  let item := createTextItem "id-9" 7 "alpha beta" in
  let st1 := snd (Json.addTextItem "id-9" 7 "alpha beta" Demo.legacyVault) in
  let st2 := snd (Json.deleteItem "id-9" st1) in
  let st3 := snd (Background.complete (Json.LLMEnrichment item) [] item st2) in
  Json.items st2 = Json.items Demo.legacyVault /\
  Json.files st2 = Json.files Demo.legacyVault /\
  Json.embeddings st2 !! "id-9" = Some (initialEmbedding item) /\
  Json.pending st2 = Json.pending Demo.legacyVault ++ [Json.LLMEnrichment item] /\
  Json.items st3 = Json.items Demo.legacyVault /\
  Json.embeddings st3 = Json.embeddings st2.
Proof.
  apply (capture_then_delete "id-9" 7 "alpha beta"
           (createTextItem "id-9" 7 "alpha beta") Demo.legacyVault).
  vm_compute. intros Hin. inversion Hin as [|? ? ? Hin']; inversion Hin'.
Defined.

(** X29.  What [parseSearchIntent] guarantees of the intent it
    returns: the query is kept as it was typed; a topic, when there is
    one, is not empty and has no white space around it; the time filter
    is the range of the first of "today", "yesterday", "last week" and
    "last month" that occurs in the lower-cased query, and there is none
    when none occurs; a content type is only set when one of its signal
    words occurs. *)
Theorem parseSearchIntent_guarantees (cal : Calendar) (query : string) :
  let intent := Json.parseSearchIntent cal query in
  Json.originalQuery intent = query /\
  (forall topic, Json.topicKeywords intent = Some topic ->
     topic ≠ EmptyString /\ Js.trim topic = topic) /\
  match Json.timePhrase intent, Json.timeFilter intent with
  | Some phrase, Some range =>
      exists before after,
        Json.timeSignals cal = before ++ (phrase, range) :: after /\
        Js.includes (Json.phraseText phrase) (Js.toLowerCase query) = true /\
        Forall (fun earlier =>
                  Js.includes (Json.phraseText (fst earlier)) (Js.toLowerCase query)
                  = false) before
  | None, None =>
      Forall (fun signal =>
                Js.includes (Json.phraseText (fst signal)) (Js.toLowerCase query) = false)
             (Json.timeSignals cal)
  | _, _ => False
  end /\
  (forall c, Json.contentType intent = Some c ->
     exists keywords keyword,
       (c, keywords) ∈ Json.typeSignals /\ keyword ∈ keywords /\
       Js.includes keyword (Js.toLowerCase query) = true).
Proof.
  cbv zeta. unfold Json.parseSearchIntent.
  cbn [Json.originalQuery Json.topicKeywords Json.timePhrase Json.timeFilter
       Json.contentType].
  split; [done|]. split; [|split].
  - intros topic.
    match goal with
    | |- context [String.eqb (Js.trim ?x) EmptyString] =>
        pose proof (trim_idemp x) as Htrim; revert Htrim; generalize (Js.trim x)
    end.
    intros t Htrim. destruct (String.eqb_spec t EmptyString) as [|Hne]; [done|].
    intros Heq. assert (t = topic) as <- by congruence. done.
  - generalize (Json.timeSignals cal). intros signals.
    induction signals as [|[phrase range] signals IH]; [by constructor|].
    cbn [find].
    destruct (Js.includes (Json.phraseText phrase) (Js.toLowerCase query)) eqn:Hinc.
    + cbn [fmap option_fmap option_map fst snd]. exists [], signals. done.
    + destruct (find _ signals) as [[phrase' range']|];
        cbn [fmap option_fmap option_map fst snd] in *.
      * destruct IH as (before & after & -> & Hhit & Hbefore).
        exists ((phrase, range) :: before), after. split; [done|]. split; [done|].
        by constructor.
      * by constructor.
  - intros c Hc. apply fmap_Some in Hc as ([c' keywords] & Hfind & ->).
    apply find_some in Hfind as [Hin Hany]. apply existsb_exists in Hany
      as (keyword & Hkw & Hinc).
    exists keywords, keyword. by rewrite !list_elem_of_In.
Qed.

(** X30.  A pasted URL is stored as a text item filed under links:
    it passes the filter of a query for links and of a query for notes,
    not that of a query for images or files; for a query for links its
    type relevance is 1, that of a mismatch, and for a query for notes 2. *)
Theorem pasted_url_is_a_note_and_a_link uuid now text (intent : Json.Intent) :
  isURLContent text = true ->
  let item := createTextItem uuid now text in
  item_type item = TText /\ category item = Links /\
  Json.passesTypeFilter intent item
  = match Json.contentType intent with
    | Some Json.CImage | Some Json.CFile => false
    | _ => true
    end /\
  Json.typeScoreOf intent item
  = match Json.contentType intent with
    | Some Json.CNote => 2%Q
    | _ => 1%Q
    end.
Proof.
  intros Hurl. cbv zeta.
  assert (detectCategoryFromText text = Links) as Hcat.
  { unfold detectCategoryFromText. by rewrite isURLContent_trim, Hurl. }
  split; [done|]. split; [done|].
  unfold Json.passesTypeFilter, Json.typeScoreOf.
  cbn [createTextItem item_type category]. rewrite Hcat.
  destruct (Json.contentType intent) as [[]|]; done.
Qed.

Lemma pasted_url_is_a_note_and_a_link_witness :
  let intent := Json.parseSearchIntent (Demo.calendarAt 1000) "my links" in
  let item := createTextItem "id-a" 0 " https://example.org/a " in
  item_type item = TText /\ category item = Links /\
  Json.passesTypeFilter intent item
  = match Json.contentType intent with
    | Some Json.CImage | Some Json.CFile => false
    | _ => true
    end /\
  Json.typeScoreOf intent item
  = match Json.contentType intent with
    | Some Json.CNote => 2%Q
    | _ => 1%Q
    end.
Proof.
  apply (pasted_url_is_a_note_and_a_link "id-a" 0 " https://example.org/a "
           (Json.parseSearchIntent (Demo.calendarAt 1000) "my links")).
  reflexivity.
Defined.
